(** * Ext.scroll.Scroller: partner synchronisation, scroll events and
      scroll targets

    A shallow embedding of the base scroller class [Ext.scroll.Scroller]
    (partner map, suspend/resume of partner synchronisation, the three
    [fireScroll*] notifiers, the DOM scroll listener with its buffered
    scroll-end, [scrollTo]/[scrollBy] and [destroy]) together with the
    properties the specification states about them; and of
    [restoreState], [updateDirection], [getScrollbarSize], [isInView],
    [constrainScrollRange] and the static [getScrollingElement], with
    further properties of the class that its code shows.

    Conventions of the model.
    - Scroller instances live in a store keyed by their id ([getId()]); a
      reference to a scroller is its id, so two names for the same object
      are two occurrences of the same key.
    - JavaScript numbers are restricted to integers (pixel offsets), held
      in [Z]; arithmetic on them is exact.
    - A JavaScript exception (a [TypeError] on a property read of
      [undefined] or [null]) is the result [None]. *)

From Stdlib Require Import ZArith List Bool Lia.
From stdpp Require Import base option list gmap strings fin_maps.

Local Open Scope Z_scope.

(** ** JavaScript values that reach the scroll API *)

(** Primitive argument values.  [VConfig] is an object without [x], [y] or
    [length] properties, such as an animation config. *)
Inductive JsVal : Type :=
| VUndefined
| VNull
| VNum (n : Z)
| VBool (b : bool)
| VConfig.

(** The first argument of [scrollTo]/[scrollBy]: a primitive, an array
    [[x, y]] or an object [{x: .., y: ..}]. *)
Inductive JsArg : Type :=
| AVal (v : JsVal)
| AArray (l : list JsVal)
| AObject (x y : JsVal).

(** [if (v)] *)
Definition truthy (v : JsVal) : bool :=
  match v with
  | VUndefined | VNull => false
  | VNum n => negb (n =? 0)
  | VBool b => b
  | VConfig => true
  end.

Definition truthyArg (a : JsArg) : bool :=
  match a with
  | AVal v => truthy v
  | AArray _ | AObject _ _ => true
  end.

(** [if (a.length)]: only a non-empty array has a truthy length. *)
Definition hasLength (a : JsArg) : bool :=
  match a with
  | AArray (_ :: _) => true
  | _ => false
  end.

(** [typeof v === 'number'] *)
Definition isNumber (v : JsVal) : bool :=
  match v with VNum _ => true | _ => false end.

Definition isNumberArg (a : JsArg) : bool :=
  match a with AVal v => isNumber v | _ => false end.

(** [a[i]] *)
Definition index (a : JsArg) (i : nat) : JsVal :=
  match a with
  | AArray l => nth i l VUndefined
  | _ => VUndefined
  end.

(** [a.x] and [a.y] *)
Definition propX (a : JsArg) : JsVal :=
  match a with AObject x _ => x | _ => VUndefined end.

Definition propY (a : JsArg) : JsVal :=
  match a with AObject _ y => y | _ => VUndefined end.

(** The value of an argument that went through none of the two unpacking
    branches: by then it is a primitive. *)
Definition argVal (a : JsArg) : JsVal :=
  match a with AVal v => v | _ => VUndefined end.

(** [v < 0]: among the values above only a number can be negative
    ([null] and [false] convert to 0, [true] to 1, the others to NaN). *)
Definition lt0 (v : JsVal) : bool :=
  match v with VNum n => n <? 0 | _ => false end.

Record Pos : Type := mkPos { px : Z; py : Z }.

(** The head shared by [scrollTo] and [scrollBy]:
<<
    if (x) {
        if (x.length) {                       // array
            animate = y;  y = x[1];  x = x[0];
        } else if (typeof x !== 'number') {   // object
            animate = y;  y = x.y;   x = x.x;
        }
    }
>> *)
Definition unpackArgs (x : JsArg) (y animate : JsVal) : JsVal * JsVal * JsVal :=
  if truthyArg x then
    if hasLength x then (index x 0, index x 1, y)
    else if negb (isNumberArg x) then (propX x, propY x, y)
    else (argVal x, y, animate)
  else (argVal x, y, animate).

(** [if (v < 0) { v += max; }] *)
Definition fromMax (v : JsVal) (max : Z) : JsVal :=
  match v with
  | VNum n => if n <? 0 then VNum (n + max) else v
  | _ => v
  end.

(** The arguments [scrollTo(x, y, animate)] hands to [doScrollTo]. *)
Definition scrollToTarget (maxPosition : Pos) (x : JsArg) (y animate : JsVal)
  : JsVal * JsVal * JsVal :=
  let '(x, y, animate) := unpackArgs x y animate in
  if lt0 x || lt0 y then
    (fromMax x (px maxPosition), fromMax y (py maxPosition), animate)
  else (x, y, animate).

(** [(typeof d === 'number') ? d + p : null] *)
Definition addPosition (d : JsVal) (p : Z) : JsVal :=
  match d with
  | VNum n => VNum (n + p)
  | _ => VNull
  end.

(** The arguments [scrollBy(deltaX, deltaY, animate)] hands to
    [doScrollTo]. *)
Definition scrollByTarget (position : Pos) (deltaX : JsArg) (deltaY animate : JsVal)
  : JsVal * JsVal * JsVal :=
  let '(deltaX, deltaY, animate) := unpackArgs deltaX deltaY animate in
  (addPosition deltaX (px position), addPosition deltaY (py position), animate).

(** ** Scroller instances and the store *)

(** The scrollable DOM element behind [getScrollElement()]: its scroll
    offsets and the [destroyed] flag of its [Ext.dom.Element] wrapper. *)
Record Surface : Type := mkSurface {
  scrollLeft : Z;
  scrollTop : Z;
  surfaceDestroyed : bool
}.

(** An entry of a partner map: [{ scroller: partner, axis: axis }]; the
    axis is a string or [undefined]. *)
Record Partner : Type := mkPartner {
  scroller : string;
  axis : option string
}.

(** [hasListeners.scrollstart], [.scroll] and [.scrollend]. *)
Record Listeners : Type := mkListeners {
  listensScrollStart : bool;
  listensScroll : bool;
  listensScrollEnd : bool
}.

(** The owning component, by the hooks it defines. *)
Record Component : Type := mkComponent {
  hasOnScrollStart : bool;
  hasOnScrollMove : bool;
  hasOnScrollEnd : bool
}.

(** The instance properties of a scroller.  [_partners] is [None] while
    the property is [undefined] or [null], and otherwise the partner map in
    insertion order (the order [for .. in] visits it).  [bufferedScrollEnd]
    is the instance property [onDomScrollEnd], which shadows the method of
    that name: [Some buffer] while it holds the buffered function made by
    the constructor and [None] once [destroy] has nulled it.
    [suspendSync] is [None] while [undefined]. *)
Record Scroller : Type := mkScroller {
  position : Pos;
  minPosition : Pos;
  maxPosition : Pos;
  element : option string;
  scrollElement : option Surface;
  scrollListener : bool;
  bufferedScrollEnd : option Z;
  _partners : option (list (string * Partner));
  component : option Component;
  hasListeners : Listeners;
  suspendSync : option Z;
  isReflecting : bool;
  isScrolling : bool;
  restoring : bool;
  positionDirty : bool;
  trackingScrollLeft : option Z;
  trackingScrollTop : option Z;
  destroyed : bool
}.

Inductive EventName : Type := ScrollStart | Scroll | ScrollEnd.

Inductive Method : Type :=
| OnPartnerScrollStart
| OnPartnerScroll
| OnPartnerScrollEnd.

(** What a run leaves behind for its observers. *)
Inductive Event : Type :=
| Fired (src : string) (name : EventName) (x y : Z)
    (* me.fireEvent(name, me, x, y) *)
| Hook (src : string) (name : EventName) (x y : Z)
    (* component.onScrollStart / onScrollMove / onScrollEnd (x, y) *)
| Global (src : string) (name : EventName) (x y : Z)
    (* Ext.GlobalEvents.fireEvent(name, me, x, y) *)
| PartnerCall (target : string) (method : Method) (from : string) (x y : Z).
    (* partner[method](me, x, y) *)

(** The store of scrollers, the pending timeouts of the buffered scroll-end
    functions (owner and due time, in the order they were set), the clock
    in milliseconds, the global [Ext.isScrolling] and the trace. *)
Record World : Type := mkWorld {
  heap : gmap string Scroller;
  timers : list (string * Z);
  now : Z;
  Ext_isScrolling : bool;
  trace : list Event
}.

Definition set_position (v : Pos) (s : Scroller) : Scroller :=
  {| position := v; minPosition := minPosition s;
     maxPosition := maxPosition s; element := element s;
     scrollElement := scrollElement s; scrollListener := scrollListener s;
     bufferedScrollEnd := bufferedScrollEnd s; _partners := _partners s;
     component := component s; hasListeners := hasListeners s;
     suspendSync := suspendSync s; isReflecting := isReflecting s;
     isScrolling := isScrolling s; restoring := restoring s;
     positionDirty := positionDirty s;
     trackingScrollLeft := trackingScrollLeft s;
     trackingScrollTop := trackingScrollTop s; destroyed := destroyed s |}.

Definition set_scrollElement (v : option Surface) (s : Scroller) : Scroller :=
  {| position := position s; minPosition := minPosition s;
     maxPosition := maxPosition s; element := element s; scrollElement := v;
     scrollListener := scrollListener s; bufferedScrollEnd := bufferedScrollEnd s;
     _partners := _partners s; component := component s;
     hasListeners := hasListeners s; suspendSync := suspendSync s;
     isReflecting := isReflecting s; isScrolling := isScrolling s;
     restoring := restoring s; positionDirty := positionDirty s;
     trackingScrollLeft := trackingScrollLeft s;
     trackingScrollTop := trackingScrollTop s; destroyed := destroyed s |}.

Definition set_scrollListener (v : bool) (s : Scroller) : Scroller :=
  {| position := position s; minPosition := minPosition s;
     maxPosition := maxPosition s; element := element s;
     scrollElement := scrollElement s; scrollListener := v;
     bufferedScrollEnd := bufferedScrollEnd s; _partners := _partners s;
     component := component s; hasListeners := hasListeners s;
     suspendSync := suspendSync s; isReflecting := isReflecting s;
     isScrolling := isScrolling s; restoring := restoring s;
     positionDirty := positionDirty s;
     trackingScrollLeft := trackingScrollLeft s;
     trackingScrollTop := trackingScrollTop s; destroyed := destroyed s |}.

Definition set_bufferedScrollEnd (v : option Z) (s : Scroller) : Scroller :=
  {| position := position s; minPosition := minPosition s;
     maxPosition := maxPosition s; element := element s;
     scrollElement := scrollElement s; scrollListener := scrollListener s;
     bufferedScrollEnd := v; _partners := _partners s;
     component := component s; hasListeners := hasListeners s;
     suspendSync := suspendSync s; isReflecting := isReflecting s;
     isScrolling := isScrolling s; restoring := restoring s;
     positionDirty := positionDirty s;
     trackingScrollLeft := trackingScrollLeft s;
     trackingScrollTop := trackingScrollTop s; destroyed := destroyed s |}.

Definition set_partners (v : option (list (string * Partner))) (s : Scroller) : Scroller :=
  {| position := position s; minPosition := minPosition s;
     maxPosition := maxPosition s; element := element s;
     scrollElement := scrollElement s; scrollListener := scrollListener s;
     bufferedScrollEnd := bufferedScrollEnd s; _partners := v;
     component := component s; hasListeners := hasListeners s;
     suspendSync := suspendSync s; isReflecting := isReflecting s;
     isScrolling := isScrolling s; restoring := restoring s;
     positionDirty := positionDirty s;
     trackingScrollLeft := trackingScrollLeft s;
     trackingScrollTop := trackingScrollTop s; destroyed := destroyed s |}.

Definition set_component (v : option Component) (s : Scroller) : Scroller :=
  {| position := position s; minPosition := minPosition s;
     maxPosition := maxPosition s; element := element s;
     scrollElement := scrollElement s; scrollListener := scrollListener s;
     bufferedScrollEnd := bufferedScrollEnd s; _partners := _partners s;
     component := v; hasListeners := hasListeners s;
     suspendSync := suspendSync s; isReflecting := isReflecting s;
     isScrolling := isScrolling s; restoring := restoring s;
     positionDirty := positionDirty s;
     trackingScrollLeft := trackingScrollLeft s;
     trackingScrollTop := trackingScrollTop s; destroyed := destroyed s |}.

Definition set_suspendSync (v : option Z) (s : Scroller) : Scroller :=
  {| position := position s; minPosition := minPosition s;
     maxPosition := maxPosition s; element := element s;
     scrollElement := scrollElement s; scrollListener := scrollListener s;
     bufferedScrollEnd := bufferedScrollEnd s; _partners := _partners s;
     component := component s; hasListeners := hasListeners s;
     suspendSync := v; isReflecting := isReflecting s;
     isScrolling := isScrolling s; restoring := restoring s;
     positionDirty := positionDirty s;
     trackingScrollLeft := trackingScrollLeft s;
     trackingScrollTop := trackingScrollTop s; destroyed := destroyed s |}.

Definition set_isReflecting (v : bool) (s : Scroller) : Scroller :=
  {| position := position s; minPosition := minPosition s;
     maxPosition := maxPosition s; element := element s;
     scrollElement := scrollElement s; scrollListener := scrollListener s;
     bufferedScrollEnd := bufferedScrollEnd s; _partners := _partners s;
     component := component s; hasListeners := hasListeners s;
     suspendSync := suspendSync s; isReflecting := v;
     isScrolling := isScrolling s; restoring := restoring s;
     positionDirty := positionDirty s;
     trackingScrollLeft := trackingScrollLeft s;
     trackingScrollTop := trackingScrollTop s; destroyed := destroyed s |}.

Definition set_isScrolling (v : bool) (s : Scroller) : Scroller :=
  {| position := position s; minPosition := minPosition s;
     maxPosition := maxPosition s; element := element s;
     scrollElement := scrollElement s; scrollListener := scrollListener s;
     bufferedScrollEnd := bufferedScrollEnd s; _partners := _partners s;
     component := component s; hasListeners := hasListeners s;
     suspendSync := suspendSync s; isReflecting := isReflecting s;
     isScrolling := v; restoring := restoring s;
     positionDirty := positionDirty s;
     trackingScrollLeft := trackingScrollLeft s;
     trackingScrollTop := trackingScrollTop s; destroyed := destroyed s |}.

Definition set_positionDirty (v : bool) (s : Scroller) : Scroller :=
  {| position := position s; minPosition := minPosition s;
     maxPosition := maxPosition s; element := element s;
     scrollElement := scrollElement s; scrollListener := scrollListener s;
     bufferedScrollEnd := bufferedScrollEnd s; _partners := _partners s;
     component := component s; hasListeners := hasListeners s;
     suspendSync := suspendSync s; isReflecting := isReflecting s;
     isScrolling := isScrolling s; restoring := restoring s;
     positionDirty := v; trackingScrollLeft := trackingScrollLeft s;
     trackingScrollTop := trackingScrollTop s; destroyed := destroyed s |}.

Definition set_trackingScrollLeft (v : option Z) (s : Scroller) : Scroller :=
  {| position := position s; minPosition := minPosition s;
     maxPosition := maxPosition s; element := element s;
     scrollElement := scrollElement s; scrollListener := scrollListener s;
     bufferedScrollEnd := bufferedScrollEnd s; _partners := _partners s;
     component := component s; hasListeners := hasListeners s;
     suspendSync := suspendSync s; isReflecting := isReflecting s;
     isScrolling := isScrolling s; restoring := restoring s;
     positionDirty := positionDirty s; trackingScrollLeft := v;
     trackingScrollTop := trackingScrollTop s; destroyed := destroyed s |}.

Definition set_trackingScrollTop (v : option Z) (s : Scroller) : Scroller :=
  {| position := position s; minPosition := minPosition s;
     maxPosition := maxPosition s; element := element s;
     scrollElement := scrollElement s; scrollListener := scrollListener s;
     bufferedScrollEnd := bufferedScrollEnd s; _partners := _partners s;
     component := component s; hasListeners := hasListeners s;
     suspendSync := suspendSync s; isReflecting := isReflecting s;
     isScrolling := isScrolling s; restoring := restoring s;
     positionDirty := positionDirty s;
     trackingScrollLeft := trackingScrollLeft s; trackingScrollTop := v;
     destroyed := destroyed s |}.

Definition set_destroyed (v : bool) (s : Scroller) : Scroller :=
  {| position := position s; minPosition := minPosition s;
     maxPosition := maxPosition s; element := element s;
     scrollElement := scrollElement s; scrollListener := scrollListener s;
     bufferedScrollEnd := bufferedScrollEnd s; _partners := _partners s;
     component := component s; hasListeners := hasListeners s;
     suspendSync := suspendSync s; isReflecting := isReflecting s;
     isScrolling := isScrolling s; restoring := restoring s;
     positionDirty := positionDirty s;
     trackingScrollLeft := trackingScrollLeft s;
     trackingScrollTop := trackingScrollTop s; destroyed := v |}.

Definition set_element (v : option string) (s : Scroller) : Scroller :=
  {| position := position s; minPosition := minPosition s;
     maxPosition := maxPosition s; element := v;
     scrollElement := scrollElement s; scrollListener := scrollListener s;
     bufferedScrollEnd := bufferedScrollEnd s; _partners := _partners s;
     component := component s; hasListeners := hasListeners s;
     suspendSync := suspendSync s; isReflecting := isReflecting s;
     isScrolling := isScrolling s; restoring := restoring s;
     positionDirty := positionDirty s;
     trackingScrollLeft := trackingScrollLeft s;
     trackingScrollTop := trackingScrollTop s; destroyed := destroyed s |}.

Definition with_heap (v : gmap string Scroller) (w : World) : World :=
  {| heap := v; timers := timers w; now := now w;
     Ext_isScrolling := Ext_isScrolling w; trace := trace w |}.

Definition with_timers (v : list (string * Z)) (w : World) : World :=
  {| heap := heap w; timers := v; now := now w;
     Ext_isScrolling := Ext_isScrolling w; trace := trace w |}.

Definition with_now (v : Z) (w : World) : World :=
  {| heap := heap w; timers := timers w; now := v;
     Ext_isScrolling := Ext_isScrolling w; trace := trace w |}.

Definition with_Ext_isScrolling (v : bool) (w : World) : World :=
  {| heap := heap w; timers := timers w; now := now w; Ext_isScrolling := v;
     trace := trace w |}.

Definition with_trace (v : list Event) (w : World) : World :=
  {| heap := heap w; timers := timers w; now := now w;
     Ext_isScrolling := Ext_isScrolling w; trace := v |}.

(** ** Plain JavaScript objects used as maps

    Keys are kept in insertion order; assigning to a key that is present
    replaces its value in place. *)

Fixpoint objGet {V : Type} (k : string) (o : list (string * V)) : option V :=
  match o with
  | [] => None
  | (k', v) :: r => if decide (k' = k) then Some v else objGet k r
  end.

Fixpoint objSet {V : Type} (k : string) (v : V) (o : list (string * V))
  : list (string * V) :=
  match o with
  | [] => [(k, v)]
  | (k', v') :: r =>
      if decide (k' = k) then (k, v) :: r else (k', v') :: objSet k v r
  end.

Fixpoint objDelete {V : Type} (k : string) (o : list (string * V))
  : list (string * V) :=
  match o with
  | [] => []
  | (k', v') :: r =>
      if decide (k' = k) then objDelete k r else (k', v') :: objDelete k r
  end.

(** ** A state monad with exceptions over the world *)

Definition M (A : Type) : Type := World → option (A * World).

Definition ret {A : Type} (a : A) : M A := λ w, Some (a, w).

Definition bind {A B : Type} (c : M A) (k : A → M B) : M B :=
  λ w, match c w with
       | Some (a, w') => k a w'
       | None => None
       end.

Definition throw {A : Type} : M A := λ _, None.

Declare Scope js_scope.
Delimit Scope js_scope with js.
Notation "'let*' x ':=' c 'in' k" := (bind c (λ x, k))
  (at level 10, x name, c at level 100, k at level 200) : js_scope.
Notation "c >> k" := (bind c (λ _, k))
  (at level 100, k at level 200, right associativity) : js_scope.
Local Open Scope js_scope.

Definition getScroller (id : string) : M Scroller :=
  λ w, match heap w !! id with
       | Some s => Some (s, w)
       | None => None
       end.

(** An assignment to properties of the scroller [id]. *)
Definition update (id : string) (f : Scroller → Scroller) : M unit :=
  λ w, match heap w !! id with
       | Some s => Some (tt, with_heap (<[id := f s]> (heap w)) w)
       | None => None
       end.

Definition emit (e : Event) : M unit :=
  λ w, Some (tt, with_trace (trace w ++ [e]) w).

Definition when (b : bool) (c : M unit) : M unit :=
  if b then c else ret tt.

Fixpoint forEach {A : Type} (l : list A) (f : A → M unit) : M unit :=
  match l with
  | [] => ret tt
  | a :: r => f a >> forEach r f
  end.

(** [me._partners] read as a map: [for (id in undefined)] visits nothing. *)
Definition partners (s : Scroller) : list (string * Partner) :=
  default [] (_partners s).

(** [!!v] for a numeric property that may be [undefined]. *)
Definition truthyCount (c : option Z) : bool :=
  match c with
  | Some n => negb (n =? 0)
  | None => false
  end.

(** ** The scroll engine and the timer of the buffered scroll-end *)

(** Modelled from the spec: [clampPosition] of ScrollState, which is not
    part of the base class: a target is constrained to [[min, max]] on its
    axis. *)
Definition clampPosition (lo hi v : Z) : Z := Z.max lo (Z.min hi v).

(** Modelled from the spec: the offset an axis ends at when [doScrollTo]
    is handed [v] for it.  A number is the target, clamped; [null] leaves
    the axis where it is, and so does any other value that is not a
    number. *)
Definition axisTarget (v : JsVal) (lo hi current : Z) : Z :=
  match v with
  | VNum n => clampPosition lo hi n
  | _ => current
  end.

(** Modelled from the spec: the write of [doScrollTo] to the scrollable
    surface. *)
Definition writeSurface (x y : JsVal) (lo hi : Pos) (el : Surface) : Surface :=
  {| scrollLeft := axisTarget x (px lo) (px hi) (scrollLeft el);
     scrollTop := axisTarget y (py lo) (py hi) (scrollTop el);
     surfaceDestroyed := surfaceDestroyed el |}.

(** Modelled from the spec: what [doScrollTo] does to the scroller it is
    called on: the position is mutated and the surface, if there is one,
    written. *)
Definition scrolled (x y : JsVal) (s : Scroller) : Scroller :=
  let lo := minPosition s in
  let hi := maxPosition s in
  let p := position s in
  set_scrollElement (writeSurface x y lo hi <$> scrollElement s)
    (set_position
       (mkPos (axisTarget x (px lo) (px hi) (px p))
              (axisTarget y (py lo) (py hi) (py p))) s).

(** Modelled from the spec: [doScrollTo], the scroll primitive of the
    engine ([ScrollDriver.scrollTo] after normalisation), which the scroller
    subclasses define and the base class only calls.  It mutates the
    position and writes the scrollable surface; [null] on an axis leaves
    that axis unchanged.  The surface answers a write with a native scroll
    notification, which reaches the scroller as [onDomScroll] and is a
    step of its own here ([dispatchScroll]).  Animation is not modelled:
    the target is reached at once.  The fourth argument is passed by
    [onPartnerScroll] only and has no effect in the model. *)
Definition doScrollTo (me : string) (x y animate : JsVal) (fromPartner : bool)
  : M unit :=
  update me (scrolled x y).

(** Modelled from the spec: the function [Ext.Function.createBuffered]
    returns, a reschedulable delayed callback: a call cancels the pending
    timeout of this function, if any, and starts a new one [buffer]
    milliseconds from now.  Each scroller owns one buffered function, so
    its timeout is filed under the scroller's id. *)
Definition callBuffered (buffer : Z) (scope : string) : M unit :=
  λ w, Some (tt, with_timers
                   (filter (λ t, t.1 ≠ scope) (timers w)
                      ++ [(scope, now w + buffer)]) w).

(** ** The methods of [Ext.scroll.Scroller] *)

(** The properties a new instance starts with: the defaults of the config
    block and what the constructor sets,
<<
    me.position = { x: 0, y: 0 };
    me.onDomScrollEnd = Ext.Function.createBuffered(me.onDomScrollEnd, 100, me);
>> *)
Definition newScroller : Scroller :=
  {| position := mkPos 0 0;
     minPosition := mkPos 0 0;
     maxPosition := mkPos 0 0;
     element := None;
     scrollElement := None;
     scrollListener := false;
     bufferedScrollEnd := Some 100;
     _partners := None;
     component := None;
     hasListeners := mkListeners false false false;
     suspendSync := None;
     isReflecting := false;
     isScrolling := false;
     restoring := false;
     positionDirty := false;
     trackingScrollLeft := None;
     trackingScrollTop := None;
     destroyed := false |}.

(** [new Ext.scroll.Scroller(..)] under the id [id]. *)
Definition construct (id : string) : M unit :=
  λ w, Some (tt, with_heap (<[id := newScroller]> (heap w)) w).

(** [addPartner(partner, axis)]: both maps are created on demand, then each
    side files the other under the other's id. *)
Definition addPartner (me partner : string) (axis : option string) : M unit :=
  update me (λ s, set_partners (Some (partners s)) s) >>
  update partner (λ s, set_partners (Some (partners s)) s) >>
  update me (λ s,
    set_partners (Some (objSet partner (mkPartner partner axis) (partners s))) s) >>
  update partner (λ s,
    set_partners (Some (objSet me (mkPartner me axis) (partners s))) s).

(** [if (partners) { delete partners[id]; }] *)
Definition deletePartner (id : string) (s : Scroller) : Scroller :=
  match _partners s with
  | Some ps => set_partners (Some (objDelete id ps)) s
  | None => s
  end.

(** [removePartner(partner)]: a map that does not exist is left alone. *)
Definition removePartner (me partner : string) : M unit :=
  let* _ := getScroller partner in
  update me (deletePartner partner) >>
  update partner (deletePartner me).

(** [getPosition()] of the base class. *)
Definition getPosition (me : string) : M Pos :=
  let* s := getScroller me in ret (position s).

(** [scrollTo(x, y, animate)] *)
Definition scrollTo (me : string) (x : JsArg) (y animate : JsVal) : M unit :=
  let* s := getScroller me in
  let '(x, y, animate) := scrollToTarget (maxPosition s) x y animate in
  doScrollTo me x y animate false.

(** [scrollBy(deltaX, deltaY, animate)] *)
Definition scrollBy (me : string) (deltaX : JsArg) (deltaY animate : JsVal)
  : M unit :=
  let* position := getPosition me in
  let '(x, y, animate) := scrollByTarget position deltaX deltaY animate in
  doScrollTo me x y animate false.

(** The axis filter of [onPartnerScroll]:
<<
    if (axis) {
        if (axis === 'x') { y = null; } else if (axis === 'y') { x = null; }
    }
>> *)
Definition filterAxis (axis : option string) (x y : Z) : JsVal * JsVal :=
  match axis with
  | Some a =>
      if negb (String.eqb a "") then
        if String.eqb a "x" then (VNum x, VNull)
        else if String.eqb a "y" then (VNull, VNum y)
        else (VNum x, VNum y)
      else (VNum x, VNum y)
  | None => (VNum x, VNum y)
  end.

(** [onPartnerScroll(partner, x, y)]: the axis is read from the entry the
    calling partner keeps for this scroller,
    [partner._partners[this.getId()].axis]. *)
Definition onPartnerScroll (me partner : string) (x y : Z) : M unit :=
  let* p := getScroller partner in
  match _partners p with
  | None => throw
  | Some ps =>
      match objGet me ps with
      | None => throw
      | Some entry =>
          let target := filterAxis (axis entry) x y in
          doScrollTo me target.1 target.2 (VBool false) true
      end
  end.

(** [partner[method](me, x, y)]; [onPartnerScrollStart] and
    [onPartnerScrollEnd] are [Ext.emptyFn] in this class. *)
Definition callPartner (partner : string) (method : Method) (me : string)
    (x y : Z) : M unit :=
  emit (PartnerCall partner method me x y) >>
  match method with
  | OnPartnerScroll => onPartnerScroll partner me x y
  | OnPartnerScrollStart | OnPartnerScrollEnd => ret tt
  end.

(** [isEnd = method === 'onPartnerScrollEnd'] *)
Definition isEnd (method : Method) : bool :=
  match method with OnPartnerScrollEnd => true | _ => false end.

(** The condition [!me.suspendSync & !me.isReflecting]. *)
Definition maySync (s : Scroller) : bool :=
  negb (truthyCount (suspendSync s)) && negb (isReflecting s).

(** The body of the loop of [invokePartners] for one entry. *)
Definition invokePartner (me : string) (method : Method) (x y : Z)
    (entry : string * Partner) : M unit :=
  let partner := scroller entry.2 in
  update partner (set_isReflecting true) >>
  callPartner partner method me x y >>
  when (isEnd method) (update partner (set_isReflecting false)).

(** [invokePartners(method, x, y)] *)
Definition invokePartners (me : string) (method : Method) (x y : Z) : M unit :=
  let* s := getScroller me in
  when (maySync s) (forEach (partners s) (invokePartner me method x y)).

(** [clearReflecting()] *)
Definition clearReflecting (me : string) : M unit :=
  update me (set_isReflecting false).

(** [suspendPartnerSync()] *)
Definition suspendPartnerSync (me : string) : M unit :=
  update me (λ s, set_suspendSync (Some (default 0 (suspendSync s) + 1)) s).

(** [resumePartnerSync(syncNow)] *)
Definition resumePartnerSync (me : string) (syncNow : bool) : M unit :=
  let* s := getScroller me in
  when (truthyCount (suspendSync s))
    (update me (λ s, set_suspendSync (Some (default 0 (suspendSync s) - 1)) s)) >>
  let* s := getScroller me in
  when (negb (truthyCount (suspendSync s)) && syncNow)
    (let* position := getPosition me in
     invokePartners me OnPartnerScroll (px position) (py position) >>
     invokePartners me OnPartnerScrollEnd (px position) (py position)).

(** [component && component.onScrollStart], and likewise for the other
    two hooks. *)
Definition hasOnScrollStartHook (c : option Component) : bool :=
  match c with Some c => hasOnScrollStart c | None => false end.

Definition hasOnScrollMoveHook (c : option Component) : bool :=
  match c with Some c => hasOnScrollMove c | None => false end.

Definition hasOnScrollEndHook (c : option Component) : bool :=
  match c with Some c => hasOnScrollEnd c | None => false end.

(** [fireScrollStart(x, y)]: the partners first, then the instance event
    if it has listeners, the hook of the component if there is one, and
    the global event. *)
Definition fireScrollStart (me : string) (x y : Z) : M unit :=
  invokePartners me OnPartnerScrollStart x y >>
  let* s := getScroller me in
  when (listensScrollStart (hasListeners s)) (emit (Fired me ScrollStart x y)) >>
  when (hasOnScrollStartHook (component s)) (emit (Hook me ScrollStart x y)) >>
  emit (Global me ScrollStart x y).

(** [fireScroll(x, y)] *)
Definition fireScroll (me : string) (x y : Z) : M unit :=
  invokePartners me OnPartnerScroll x y >>
  let* s := getScroller me in
  when (listensScroll (hasListeners s)) (emit (Fired me Scroll x y)) >>
  when (hasOnScrollMoveHook (component s)) (emit (Hook me Scroll x y)) >>
  emit (Global me Scroll x y).

(** [fireScrollEnd(x, y)] *)
Definition fireScrollEnd (me : string) (x y : Z) : M unit :=
  invokePartners me OnPartnerScrollEnd x y >>
  let* s := getScroller me in
  when (listensScrollEnd (hasListeners s)) (emit (Fired me ScrollEnd x y)) >>
  when (hasOnScrollEndHook (component s)) (emit (Hook me ScrollEnd x y)) >>
  emit (Global me ScrollEnd x y).

(** The position [updateDomScrollPosition] leaves: that of the scroll
    element when there is a live one, the old position otherwise. *)
Definition domPosition (s : Scroller) : Pos :=
  match scrollElement s with
  | Some el =>
      if surfaceDestroyed el then position s
      else mkPos (scrollLeft el) (scrollTop el)
  | None => position s
  end.

(** [updateDomScrollPosition()]: the position object is refreshed from the
    scroll element and returned. *)
Definition updateDomScrollPosition (me : string) : M Pos :=
  let* s := getScroller me in
  let position := domPosition s in
  update me (λ s, set_positionDirty false (set_position position s)) >>
  ret position.

(** [Ext.isScrolling = b] *)
Definition setExtIsScrolling (b : bool) : M unit :=
  λ w, Some (tt, with_Ext_isScrolling b w).

(** [onDomScroll()], the listener of the element's scroll event.  Its last
    statement calls the instance property [onDomScrollEnd], the buffered
    function. *)
Definition onDomScroll (me : string) : M unit :=
  let* position := updateDomScrollPosition me in
  let* s := getScroller me in
  if restoring s then ret tt
  else
    let x := px position in
    let y := py position in
    when (negb (isScrolling s))
      (update me (set_isScrolling true) >>
       setExtIsScrolling true >>
       fireScrollStart me x y) >>
    fireScroll me x y >>
    let* s := getScroller me in
    match bufferedScrollEnd s with
    | Some buffer => callBuffered buffer me
    | None => throw
    end.

(** [onDomScrollEnd()], the method the buffered function wraps. *)
Definition onDomScrollEnd (me : string) : M unit :=
  let* position := getPosition me in
  let x := px position in
  let y := py position in
  update me (set_isScrolling false) >>
  setExtIsScrolling false >>
  update me (λ s,
    set_trackingScrollTop (Some y) (set_trackingScrollLeft (Some x) s)) >>
  fireScrollEnd me x y.

(** [syncWithPartners()] *)
Definition syncWithPartners (me : string) : M unit :=
  let* s := getScroller me in
  update me (set_isReflecting true) >>
  forEach (partners s) (λ entry,
    let partner := scroller entry.2 in
    let* position := getPosition partner in
    onPartnerScroll me partner (px position) (py position)) >>
  update me (set_isReflecting false).

(** [applyElement(element, oldElement)] for an element other than the
    document element: the old listener is destroyed, the scroll element is
    set and a new listener attached.  The result is the new element, or
    [None] for the [undefined] the method returns when [element] is
    [null]. *)
Definition applyElement (me : string) (element : option (string * Surface))
    (oldElement : option string) : M (option string) :=
  when (bool_decide (is_Some oldElement)) (update me (set_scrollListener false)) >>
  match element with
  | Some (el, surface) =>
      update me (set_scrollElement (Some surface)) >>
      update me (set_scrollListener true) >>
      ret (Some el)
  | None => ret None
  end.

(** [setElement(element)], the setter the class system generates for the
    config (it is not part of this class): the applier runs on the new and
    the old value, and its result is stored unless it is [undefined]. *)
Definition setElement (me : string) (value : option (string * Surface))
  : M unit :=
  let* s := getScroller me in
  let* el := applyElement me value (element s) in
  match el with
  | Some el => update me (set_element (Some el))
  | None => ret tt
  end.

(** [destroy()].  The overflow styles [setX]/[setY] clear are not part of
    the model; the inherited [destroy] ([callParent]) marks the instance as
    destroyed. *)
Definition destroy (me : string) : M unit :=
  setElement me None >>
  update me (set_scrollElement None) >>
  update me (λ s,
    set_component None (set_partners None (set_bufferedScrollEnd None s))) >>
  update me (set_destroyed true).

(** ** The host: native scroll events and the clock *)

(** The element reports a scroll: its listener runs if one is attached. *)
Definition dispatchScroll (me : string) : M unit :=
  let* s := getScroller me in
  when (scrollListener s) (onDomScroll me).

(** The user scrolls the element of [me] to the offsets [p]. *)
Definition userScroll (me : string) (p : Pos) : M unit :=
  update me (λ s,
    set_scrollElement
      ((λ el, mkSurface (px p) (py p) (surfaceDestroyed el)) <$> scrollElement s)
      s) >>
  dispatchScroll me.

(** Timeouts run in the order of their due times, and in the order they
    were set when due at the same time. *)
Fixpoint insertTimer (t : string * Z) (l : list (string * Z))
  : list (string * Z) :=
  match l with
  | [] => [t]
  | t' :: r => if t.2 <=? t'.2 then t :: l else t' :: insertTimer t r
  end.

Definition dueTimers (t : Z) (l : list (string * Z)) : list (string * Z) :=
  foldr insertTimer [] (filter (λ e, e.2 ≤ t) l).

(** A timeout fires: the buffered function runs the method it wraps on its
    scope. *)
Definition fireTimer (t : string * Z) : M unit :=
  (λ w, Some (tt, with_now (Z.max (now w) t.2)
                    (with_timers (filter (λ e, e.1 ≠ t.1) (timers w)) w))) >>
  onDomScrollEnd t.1.

(** The clock advances to [t]; every timeout due by then fires. *)
Definition advanceTo (t : Z) : M unit :=
  (λ w, forEach (dueTimers t (timers w)) fireTimer w) >>
  (λ w, Some (tt, with_now (Z.max (now w) t) w)).

(** [gap] milliseconds pass. *)
Definition elapse (gap : Z) : M unit :=
  λ w, advanceTo (now w + gap) w.

(** A burst of scroll deltas on the element of [me]: each delta arrives
    [gap] milliseconds after the one before and leaves the element at the
    given offsets. *)
Definition burst (me : string) (deltas : list (Z * Pos)) : M unit :=
  forEach deltas (λ d, elapse d.1 >> userScroll me d.2).

(** ** Predicates used by the statements *)

(** An axis whose target is [null] keeps its offset, in the position and
    on the surface. *)
Definition keepsX (s s' : Scroller) : Prop :=
  px (position s') = px (position s)
  ∧ scrollLeft <$> scrollElement s' = scrollLeft <$> scrollElement s.

Definition keepsY (s s' : Scroller) : Prop :=
  py (position s') = py (position s)
  ∧ scrollTop <$> scrollElement s' = scrollTop <$> scrollElement s.

(** The three notifiers have one shape; the proofs treat them as one. *)
Definition listens (name : EventName) (l : Listeners) : bool :=
  match name with
  | ScrollStart => listensScrollStart l
  | Scroll => listensScroll l
  | ScrollEnd => listensScrollEnd l
  end.

Definition hasHook (name : EventName) (c : option Component) : bool :=
  match name with
  | ScrollStart => hasOnScrollStartHook c
  | Scroll => hasOnScrollMoveHook c
  | ScrollEnd => hasOnScrollEndHook c
  end.

Definition partnerMethod (name : EventName) : Method :=
  match name with
  | ScrollStart => OnPartnerScrollStart
  | Scroll => OnPartnerScroll
  | ScrollEnd => OnPartnerScrollEnd
  end.

Definition fire (name : EventName) (me : string) (x y : Z) : M unit :=
  match name with
  | ScrollStart => fireScrollStart me x y
  | Scroll => fireScroll me x y
  | ScrollEnd => fireScrollEnd me x y
  end.

(** What partner propagation leaves alone: everything but the position,
    the surface and the reflecting flag of a scroller. *)
Definition skeleton (s : Scroller) : Scroller :=
  set_isReflecting false
    (set_scrollElement None (set_position (mkPos 0 0) s)).

Definition sameShape (w w' : World) : Prop :=
  timers w' = timers w
  ∧ now w' = now w
  ∧ Ext_isScrolling w' = Ext_isScrolling w
  ∧ ∀ id, skeleton <$> heap w' !! id = skeleton <$> heap w !! id.

(** The entries [ps] of the partner map of [s] refer to scrollers of the
    store, each filed under its own id. *)
Definition linked (w : World) (s : Scroller) (ps : list (string * Partner))
  : Prop :=
  Forall (λ e, is_Some (heap w !! scroller e.2)
               ∧ is_Some (objGet (scroller e.2) (partners s))) ps.

(** The scrollers the entries refer to. *)
Definition partnerIds (ps : list (string * Partner)) : list string :=
  map (λ e, scroller e.2) ps.

(** The calls one round of [invokePartners] makes. *)
Definition partnerCalls (me : string) (method : Method) (x y : Z)
    (ps : list (string * Partner)) : list Event :=
  map (λ id, PartnerCall id method me x y) (partnerIds ps).

(** What [fireScrollStart], [fireScroll] and [fireScrollEnd] tell the
    observers of [s] after its partners were invoked. *)
Definition notifications (name : EventName) (me : string) (x y : Z)
    (s : Scroller) : list Event :=
  (if listens name (hasListeners s) then [Fired me name x y] else [])
  ++ (if hasHook name (component s) then [Hook me name x y] else [])
  ++ [Global me name x y].

(** The calls [invokePartners] makes for [s], which depend on its guard. *)
Definition propagation (me : string) (method : Method) (x y : Z)
    (s : Scroller) : list Event :=
  if maySync s then partnerCalls me method x y (partners s) else [].

(** What neither propagation nor the scroll listener changes. *)
Definition core (s : Scroller) : Scroller :=
  set_isScrolling false
    (set_positionDirty false
       (set_trackingScrollLeft None (set_trackingScrollTop None (skeleton s)))).

(** Every scroller of [w] is a scroller of [w'], with the same core. *)
Definition keepsCore (w w' : World) : Prop :=
  ∀ id s, heap w !! id = Some s →
          ∃ s', heap w' !! id = Some s' ∧ core s' = core s.

(** Every pending timeout belongs to a scroller of the store whose partner
    map is linked, and no scroller has two of them. *)
Definition timersLive (w : World) : Prop :=
  Forall (λ e, ∃ s, heap w !! e.1 = Some s ∧ linked w s (partners s))
         (timers w)
  ∧ NoDup (timers w).*1.

(** The names of the global events of [me] in a trace, in order. *)
Definition globalNames (me : string) (tr : list Event) : list EventName :=
  flat_map (λ e, match e with
                 | Global src name _ _ => if decide (src = me) then [name] else []
                 | _ => []
                 end) tr.

(** The names of the instance events of [me] in a trace, in order. *)
Definition firedNames (me : string) (tr : list Event) : list EventName :=
  flat_map (λ e, match e with
                 | Fired src name _ _ => if decide (src = me) then [name] else []
                 | _ => []
                 end) tr.

(** The partner calls of a trace, in order. *)
Definition calls (tr : list Event) : list Event :=
  flat_map (λ e, match e with
                 | PartnerCall _ _ _ _ _ => [e]
                 | _ => []
                 end) tr.

(** The partner calls of a trace that [target] received. *)
Definition callsTo (target : string) (tr : list Event) : list Event :=
  flat_map (λ e, match e with
                 | PartnerCall t _ _ _ _ => if decide (t = target) then [e] else []
                 | _ => []
                 end) tr.

#[global] Instance Method_eq_dec : EqDecision Method.
Proof. solve_decision. Defined.

(** The calls of [method] that [target] received. *)
Definition callsOf (target : string) (method : Method) (tr : list Event)
  : list Event :=
  flat_map (λ e, match e with
                 | PartnerCall t m _ _ _ =>
                     if decide (t = target ∧ m = method) then [e] else []
                 | _ => []
                 end) tr.

(** ** Concrete scrollers for the examples *)

Definition demoScroller : Scroller :=
  {| position := mkPos 30 40;
     minPosition := mkPos 0 0;
     maxPosition := mkPos 100 200;
     element := Some "grid-body";
     scrollElement := Some (mkSurface 30 40 false);
     scrollListener := true;
     bufferedScrollEnd := Some 100;
     _partners := None;
     component := None;
     hasListeners := mkListeners false false false;
     suspendSync := None;
     isReflecting := false;
     isScrolling := false;
     restoring := false;
     positionDirty := false;
     trackingScrollLeft := None;
     trackingScrollTop := None;
     destroyed := false |}.

Definition demoWorld : World :=
  mkWorld (<["A" := demoScroller]> (<["B" := demoScroller]> ∅)) [] 0 false [].

(** The same two scrollers while ["B"] is scrolling: its scroll-end timeout
    is pending. *)
Definition busyWorld : World :=
  mkWorld
    (<["A" := demoScroller]> (<["B" := set_isScrolling true demoScroller]> ∅))
    [("B", 200)] 0 false [].

(** Two scrollers that are each other's only partner, on both axes. *)
Definition pairWorld : World :=
  mkWorld
    (<["A" := set_partners (Some [("B", mkPartner "B" None)]) demoScroller]>
       (<["B" := set_partners (Some [("A", mkPartner "A" None)]) demoScroller]> ∅))
    [] 0 false [].

(** The same pair, synchronised on the y axis only. *)
Definition verticalWorld : World :=
  mkWorld
    (<["A" := set_partners (Some [("B", mkPartner "B" (Some "y"))]) demoScroller]>
       (<["B" := set_partners (Some [("A", mkPartner "A" (Some "y"))]) demoScroller]>
          ∅))
    [] 0 false [].

(** A with the partner B, suspended once. *)
Definition suspendedWorld : World :=
  mkWorld
    (<["A" := set_suspendSync (Some 1)
                (set_partners (Some [("B", mkPartner "B" None)]) demoScroller)]>
       (<["B" := set_partners (Some [("A", mkPartner "A" None)]) demoScroller]> ∅))
    [] 0 false [].

(** ** Restoring the scroll state *)

Definition set_restoring (v : bool) (s : Scroller) : Scroller :=
  {| position := position s; minPosition := minPosition s;
     maxPosition := maxPosition s; element := element s;
     scrollElement := scrollElement s; scrollListener := scrollListener s;
     bufferedScrollEnd := bufferedScrollEnd s; _partners := _partners s;
     component := component s; hasListeners := hasListeners s;
     suspendSync := suspendSync s; isReflecting := isReflecting s;
     isScrolling := isScrolling s; restoring := v;
     positionDirty := positionDirty s;
     trackingScrollLeft := trackingScrollLeft s;
     trackingScrollTop := trackingScrollTop s; destroyed := destroyed s |}.

(** A call handed to [Ext.defer]: the function and the delay in
    milliseconds.  The one function this class defers is
    [function() { me.restoring = false; }]. *)
Inductive Deferred : Type :=
| ClearRestoring (me : string) (delay : Z).

(** [restoreState()]: the offsets recorded at the last scroll end are
    written back to the scroll element,
<<
    if (el) {
        dom = el.dom;
        if (me.trackingScrollTop !== undefined) {
            me.restoring = true;
            Ext.defer(function() { me.restoring = false; }, 50);
            dom.scrollTop = me.trackingScrollTop;
            dom.scrollLeft = me.trackingScrollLeft;
            me.trackingScrollLeft = me.trackingScrollTop = undefined;
        }
    }
>>
    The result lists the calls handed to [Ext.defer].  The wrapper of a
    destroyed element has no [dom] any more, so the write raises; a
    [scrollLeft] assigned [undefined] is 0.  The scroll event the element
    answers the writes with is a step of its own ([dispatchScroll]). *)
Definition restoreState (me : string) : M (list Deferred) :=
  let* s := getScroller me in
  match scrollElement s, trackingScrollTop s with
  | Some el, Some top =>
      update me (set_restoring true) >>
      if surfaceDestroyed el then throw
      else
        update me (λ s,
          set_scrollElement
            (Some (mkSurface (default 0 (trackingScrollLeft s)) top false)) s) >>
        update me (λ s,
          set_trackingScrollTop None (set_trackingScrollLeft None s)) >>
        ret [ClearRestoring me 50]
  | _, _ => ret []
  end.

(** A deferred function runs. *)
Definition runDeferred (d : Deferred) : M unit :=
  match d with
  | ClearRestoring me _ => update me (set_restoring false)
  end.

(** The element of [me] is left at the offsets [p] while nothing listens
    to it. *)
Definition moveElement (me : string) (p : Pos) : M unit :=
  update me (λ s,
    set_scrollElement
      ((λ el, mkSurface (px p) (py p) (surfaceDestroyed el)) <$> scrollElement s)
      s).

(** ["A"] after a scroll that ended at (30, 40); its element has been put
    back to the origin since. *)
Definition shownAgainWorld : World :=
  mkWorld
    (<["A" := set_scrollElement (Some (mkSurface 0 0 false))
                (set_trackingScrollTop (Some 40)
                   (set_trackingScrollLeft (Some 30) demoScroller))]> ∅)
    [] 0 false [].

(** A scroller apart from its reflecting flag. *)
Definition unflagged (s : Scroller) : Scroller := set_isReflecting false s.

(** ** Partner maps as a whole *)

(** Every entry of every partner map is filed under the id of the scroller
    it names, and that scroller keeps an entry for the owner of the map,
    with the same axis. *)
Definition symmetricPartners (w : World) : Prop :=
  ∀ a sa b e,
    heap w !! a = Some sa → objGet b (partners sa) = Some e →
    scroller e = b
    ∧ ∃ sb, heap w !! b = Some sb
            ∧ objGet a (partners sb) = Some (mkPartner a (axis e)).

(** A scroller whose partner map has been created if it was not there
    ([me._partners || (me._partners = {})]). *)
Definition withPartnerMap (s : Scroller) : Scroller :=
  set_partners (Some (partners s)) s.

(** Three scrollers in a row: ["B"] is the partner of ["A"] and of ["C"],
    which are no partners of each other. *)
Definition chainWorld : World :=
  mkWorld
    (<["A" := set_partners (Some [("B", mkPartner "B" None)]) demoScroller]>
       (<["B" := set_partners
                   (Some [("A", mkPartner "A" None); ("C", mkPartner "C" None)])
                   demoScroller]>
          (<["C" := set_partners (Some [("B", mkPartner "B" None)])
                      demoScroller]> ∅)))
    [] 0 false [].

(** ** The direction and the axis configs *)

(** The values of the configs [x], [y] and [direction]: booleans, strings,
    [undefined] and [null]. *)
Inductive Cfg : Type :=
| CUndefined
| CNull
| CBool (b : bool)
| CStr (s : string).

(** [if (c)] *)
Definition truthyCfg (c : Cfg) : bool :=
  match c with
  | CBool b => b
  | CStr s => negb (String.eqb s "")
  | CUndefined | CNull => false
  end.

(** [c === 'name'] *)
Definition isStr (c : Cfg) (name : string) : bool :=
  match c with
  | CStr s => String.eqb s name
  | _ => false
  end.

(** What a call of [updateDirection] ends in. *)
Inductive DirectionUpdate : Type :=
| StoreDirection (direction : Cfg)   (* me._direction = direction *)
| SetAxes (x y : Cfg).               (* me.setX(x); me.setY(y) *)

(** [updateDirection(direction)], with [x] and [y] the values of
    [me.getX()] and [me.getY()]:
<<
    if (!direction) {
        x = me.getX();  y = me.getY();
        if (x && y) {
            direction = (y === 'scroll' && x === 'scroll') ? 'both' : 'auto';
        } else if (y) { direction = 'vertical'; }
        else if (x) { direction = 'horizontal'; }
        me._direction = direction;
    } else {
        if (direction === 'auto') { x = true; y = true; }
        else if (direction === 'vertical') { x = false; y = true; }
        else if (direction === 'horizontal') { x = true; y = false; }
        else if (direction === 'both') { x = 'scroll'; y = 'scroll'; }
        me.setX(x);  me.setY(y);
    }
>> *)
Definition updateDirection (direction x y : Cfg) : DirectionUpdate :=
  if negb (truthyCfg direction) then
    StoreDirection
      (if truthyCfg x && truthyCfg y then
         if isStr y "scroll" && isStr x "scroll" then CStr "both"
         else CStr "auto"
       else if truthyCfg y then CStr "vertical"
       else if truthyCfg x then CStr "horizontal"
       else direction)
  else if isStr direction "auto" then SetAxes (CBool true) (CBool true)
  else if isStr direction "vertical" then SetAxes (CBool false) (CBool true)
  else if isStr direction "horizontal" then SetAxes (CBool true) (CBool false)
  else if isStr direction "both" then SetAxes (CStr "scroll") (CStr "scroll")
  else SetAxes CUndefined CUndefined.

(** ** The space the scrollbars take *)





(** ** Whether a descendant is in view *)

Module Region.

(** What [getRegion()] returns. *)
Record t : Type := mk {
  top : Z;
  left : Z;
  bottom : Z;
  right : Z
}.

End Region.

(** [doIsInView(el, skipCheck)] of a scroller that has an element.  [el]
    is given by its region when there is one; [contains] is
    [myEl.contains(el)], [owns] is [c.owns(el)] for the component [c] if
    the scroller has one, and [myElRegion] is the region of the scroller's
    element. *)
Definition doIsInView (el : option Region.t) (skipCheck contains : bool)
    (owns : option bool) (myElRegion : Region.t) : bool * bool :=
  match el with
  | Some elRegion =>
      if skipCheck || (contains || default false owns) then
        ((Region.right elRegion >? Region.left myElRegion)
         && (Region.left elRegion <? Region.right myElRegion),
         (Region.bottom elRegion >? Region.top myElRegion)
         && (Region.top elRegion <? Region.bottom myElRegion))
      else (false, false)
  | None => (false, false)
  end.

(** [isInView(el)] *)
Definition isInView (el : option Region.t) (contains : bool)
    (owns : option bool) (myElRegion : Region.t) : bool * bool :=
  doIsInView el false contains owns myElRegion.

(** ** The greatest scroll range the browser supports *)

(** [maxSpacerTranslate] and [maxSpacerMargin], which
    [constrainScrollRange] keeps on the prototype of the class once it has
    measured them. *)
Record Limits : Type := mkLimits {
  maxSpacerTranslate : option Z;
  maxSpacerMargin : option Z
}.

(** The two loops of [constrainScrollRange] have one shape,
<<
    while (tooHigh !== tooLow + 1) {
        maxScrollHeight = tooLow + Math.floor((tooHigh - tooLow) / 2);
        // maxScrollHeight is applied to the stretcher
        if (scrollTest.scrollHeight < maxScrollHeight) {
            tooHigh = maxScrollHeight;
        } else {
            tooLow = maxScrollHeight;
        }
    }
>>
    and leave their result in [tooLow].  [measure v] is
    [scrollTest.scrollHeight] once [v] has been applied.  The result is
    [None] when the loop has not ended after [fuel] rounds. *)
Fixpoint searchLimit (fuel : nat) (measure : Z → Z) (tooLow tooHigh : Z)
  : option Z :=
  if decide (tooHigh = tooLow + 1) then Some tooLow
  else
    match fuel with
    | O => None
    | S fuel =>
        let maxScrollHeight := tooLow + (tooHigh - tooLow) / 2 in
        if measure maxScrollHeight <? maxScrollHeight
        then searchLimit fuel measure tooLow maxScrollHeight
        else searchLimit fuel measure maxScrollHeight tooHigh
    end.

(** The measurement [constrainScrollRange] makes when it has none yet.
    The browser is asked through [layout]: [layout translateY marginTop]
    is the [scrollHeight] of the 500px test element whose stretcher is
    translated by [translateY] px and has the inline [margin-top]
    [marginTop], if any.  The first loop looks for the greatest
    translation that still stretches the element, between 500 and 2^32,
    which becomes [maxSpacerTranslate]; the second for the greatest margin
    on top of it, between that and its double, and [maxSpacerMargin] is
    what it finds less [maxSpacerTranslate]. *)
Definition measureLimits (fuel : nat) (layout : Z → option Z → Z)
  : option (Z * Z) :=
  match searchLimit fuel (λ v, layout v None) 500 (2 ^ 32) with
  | Some translate =>
      match searchLimit fuel (λ v, layout translate (Some v))
              translate (translate * 2) with
      | Some tooLow => Some (translate, tooLow - translate)
      | None => None
      end
  | None => None
  end.

(** [constrainScrollRange(scrollRange)]:
<<
    if (scrollRange < 1000000) { return scrollRange; }
    if (!this.maxSpacerTranslate) { .. measure and store both limits .. }
    return Math.min(scrollRange, this.maxSpacerTranslate);
>> *)
Definition constrainScrollRange (fuel : nat) (layout : Z → option Z → Z)
    (scrollRange : Z) (limits : Limits) : option (Z * Limits) :=
  if scrollRange <? 1000000 then Some (scrollRange, limits)
  else
    let measured :=
      match measureLimits fuel layout with
      | Some (translate, margin) =>
          Some (Z.min scrollRange translate,
                mkLimits (Some translate) (Some margin))
      | None => None
      end in
    match maxSpacerTranslate limits with
    | Some translate =>
        if translate =? 0 then measured
        else Some (Z.min scrollRange translate, limits)
    | None => measured
    end.

(** A layout engine after the figures the source quotes for Chrome and
    Safari: a translation of up to 16,777,216px stretches the element, a
    greater one collapses it to its own height, and any margin within
    reach adds to the translation. *)
Definition webkitLayout (translateY : Z) (marginTop : option Z) : Z :=
  if translateY <=? 16777216 then translateY + default 0 marginTop + 1
  else 500.

(** ** The scrolling element of the document *)

(** The static [getScrollingElement()].  [scrollingElement] is
    [document.scrollingElement], if the browser has it; [standard] is the
    cached [$standardScrollElement], and [probe] what the test in the
    scratch iframe finds when it is made
    ([frameDoc.documentElement.scrollHeight > frameDoc.body.scrollHeight]).
    The result is the element and the cache as the call leaves it. *)
Definition getScrollingElement {Node : Type}
    (scrollingElement : option Node) (documentElement body : Node)
    (probe : bool) (standard : option bool) : Node * option bool :=
  match scrollingElement with
  | Some el => (el, standard)
  | None =>
      let standard :=
        match standard with
        | Some standard => standard
        | None => probe
        end in
      (if standard then documentElement else body, Some standard)
  end.

(** * Properties *)

(** ** Running the monad *)

Lemma bind_Some {A B : Type} (c : M A) (k : A → M B) w a w' :
  c w = Some (a, w') → bind c k w = k a w'.
Proof. intros H. unfold bind. now rewrite H. Qed.

Lemma getScroller_Some w id s :
  heap w !! id = Some s → getScroller id w = Some (s, w).
Proof. intros H. unfold getScroller. now rewrite H. Qed.

Lemma update_Some w id s f :
  heap w !! id = Some s →
  update id f w = Some (tt, with_heap (<[id := f s]> (heap w)) w).
Proof. intros H. unfold update. now rewrite H. Qed.

(** ** Scroll targets (C7, C8) *)

Lemma unpackArgs_numbers (x y : Z) (a z : JsVal) :
  unpackArgs (AVal (VNum x)) (VNum y) a = (VNum x, VNum y, a)
  ∧ unpackArgs (AArray [VNum x; VNum y]) a z = (VNum x, VNum y, a)
  ∧ unpackArgs (AObject (VNum x) (VNum y)) a z = (VNum x, VNum y, a).
Proof.
  repeat split; try reflexivity.
  unfold unpackArgs; simpl. now destruct (x =? 0).
Qed.

Lemma doScrollTo_Some w me s x y a fp :
  heap w !! me = Some s →
  doScrollTo me x y a fp w
    = Some (tt, with_heap (<[me := scrolled x y s]> (heap w)) w).
Proof. intros H. unfold doScrollTo. apply update_Some, H. Qed.

(** C7. A negative coordinate handed to [scrollTo] is an offset from the
    maximum scroll position on its axis: the target [doScrollTo] receives
    on that axis is the maximum plus the coordinate, and a coordinate that
    is not negative is the target itself.  With the maximum [{x: 100,
    y: 200}], [scrollTo(-10, -20)] asks for [{x: 90, y: 180}]. *)
Theorem scrollTo_negative_offset_from_max
    (w : World) (me : string) (s : Scroller) (x y : Z) (animate : JsVal) :
  heap w !! me = Some s →
  scrollTo me (AVal (VNum x)) (VNum y) animate w
    = doScrollTo me
        (VNum (if decide (x < 0) then px (maxPosition s) + x else x))
        (VNum (if decide (y < 0) then py (maxPosition s) + y else y))
        animate false w
  ∧ scrollToTarget (mkPos 100 200) (AVal (VNum (-10))) (VNum (-20)) animate
    = (VNum 90, VNum 180, animate).
Proof.
  intros H. split; [|reflexivity].
  unfold scrollTo. rewrite (bind_Some _ _ _ _ _ (getScroller_Some _ _ _ H)).
  unfold scrollToTarget.
  destruct (unpackArgs_numbers x y animate VUndefined) as [-> _].
  unfold lt0, fromMax.
  destruct (Z.ltb_spec x 0), (Z.ltb_spec y 0); simpl;
    repeat case_decide; try lia;
    rewrite ?(Z.add_comm x), ?(Z.add_comm y); reflexivity.
Qed.

Lemma scrollTo_negative_offset_from_max_witness :
  scrollTo "A" (AVal (VNum (-10))) (VNum (-20)) VUndefined demoWorld
    = doScrollTo "A" (VNum 90) (VNum 180) VUndefined false demoWorld.
Proof.
  exact (proj1 (scrollTo_negative_offset_from_max demoWorld "A" demoScroller
                  (-10) (-20) VUndefined eq_refl)).
Defined.

Lemma scrollTo_run w me s x y a :
  heap w !! me = Some s →
  scrollTo me x y a w =
    (let '(x, y, a) := scrollToTarget (maxPosition s) x y a in
     doScrollTo me x y a false w).
Proof.
  intros H. unfold scrollTo.
  rewrite (bind_Some _ _ _ _ _ (getScroller_Some _ _ _ H)).
  now destruct (scrollToTarget (maxPosition s) x y a) as [[? ?] ?].
Qed.

Lemma scrollBy_run w me s x y a :
  heap w !! me = Some s →
  scrollBy me x y a w =
    (let '(x, y, a) := scrollByTarget (position s) x y a in
     doScrollTo me x y a false w).
Proof.
  intros H. unfold scrollBy, getPosition.
  rewrite (bind_Some _ _ w (position s) w).
  - now destruct (scrollByTarget (position s) x y a) as [[? ?] ?].
  - now rewrite (bind_Some _ _ _ _ _ (getScroller_Some _ _ _ H)).
Qed.

Lemma doScrollTo_null_x w me s y a fp :
  heap w !! me = Some s →
  ∃ w' s', doScrollTo me VNull y a fp w = Some (tt, w')
    ∧ heap w' !! me = Some s' ∧ keepsX s s'.
Proof.
  intros H. rewrite (doScrollTo_Some _ _ _ _ _ _ _ H).
  eexists _, _. split; [reflexivity|]. split; [apply lookup_insert_eq|].
  split; [reflexivity|]. simpl. destruct (scrollElement s); reflexivity.
Qed.

Lemma doScrollTo_null_y w me s x a fp :
  heap w !! me = Some s →
  ∃ w' s', doScrollTo me x VNull a fp w = Some (tt, w')
    ∧ heap w' !! me = Some s' ∧ keepsY s s'.
Proof.
  intros H. rewrite (doScrollTo_Some _ _ _ _ _ _ _ H).
  eexists _, _. split; [reflexivity|]. split; [apply lookup_insert_eq|].
  split; [reflexivity|]. simpl. destruct (scrollElement s); reflexivity.
Qed.

(** C8. The three argument forms of [scrollTo] and of [scrollBy] (separate
    numbers, a pair, an object with [x] and [y]) end in the same call of
    [doScrollTo]: the same two coordinates and the same animate flag,
    which in the pair and the object form is the second argument.  The
    call is given by its arguments, [scrollToTarget] and [scrollByTarget],
    and by its outcome.  A [null] coordinate reaches [doScrollTo] as
    [null], and the scroller keeps its offset on that axis. *)
Theorem scroll_argument_forms_agree
    (w : World) (me : string) (s : Scroller) (x y : Z) (a z : JsVal) :
  heap w !! me = Some s →
  (∀ max,
     scrollToTarget max (AVal (VNum x)) (VNum y) a
       = (fromMax (VNum x) (px max), fromMax (VNum y) (py max), a)
     ∧ scrollToTarget max (AArray [VNum x; VNum y]) a z
       = (fromMax (VNum x) (px max), fromMax (VNum y) (py max), a)
     ∧ scrollToTarget max (AObject (VNum x) (VNum y)) a z
       = (fromMax (VNum x) (px max), fromMax (VNum y) (py max), a)
     ∧ scrollToTarget max (AVal VNull) (VNum y) a
       = (VNull, fromMax (VNum y) (py max), a)
     ∧ scrollToTarget max (AVal (VNum x)) VNull a
       = (fromMax (VNum x) (px max), VNull, a))
  ∧ (∀ pos,
       scrollByTarget pos (AVal (VNum x)) (VNum y) a
         = (VNum (x + px pos), VNum (y + py pos), a)
       ∧ scrollByTarget pos (AArray [VNum x; VNum y]) a z
         = (VNum (x + px pos), VNum (y + py pos), a)
       ∧ scrollByTarget pos (AObject (VNum x) (VNum y)) a z
         = (VNum (x + px pos), VNum (y + py pos), a)
       ∧ scrollByTarget pos (AVal VNull) (VNum y) a
         = (VNull, VNum (y + py pos), a)
       ∧ scrollByTarget pos (AVal (VNum x)) VNull a
         = (VNum (x + px pos), VNull, a))
  ∧ (scrollTo me (AVal (VNum x)) (VNum y) a w
       = doScrollTo me (fromMax (VNum x) (px (maxPosition s)))
           (fromMax (VNum y) (py (maxPosition s))) a false w
     ∧ scrollBy me (AVal (VNum x)) (VNum y) a w
       = doScrollTo me (VNum (x + px (position s)))
           (VNum (y + py (position s))) a false w)
  ∧ (scrollTo me (AArray [VNum x; VNum y]) a z w
       = scrollTo me (AVal (VNum x)) (VNum y) a w
     ∧ scrollTo me (AObject (VNum x) (VNum y)) a z w
       = scrollTo me (AVal (VNum x)) (VNum y) a w
     ∧ scrollBy me (AArray [VNum x; VNum y]) a z w
       = scrollBy me (AVal (VNum x)) (VNum y) a w
     ∧ scrollBy me (AObject (VNum x) (VNum y)) a z w
       = scrollBy me (AVal (VNum x)) (VNum y) a w)
  ∧ (scrollTo me (AVal VNull) (VNum y) a w
       = doScrollTo me VNull (fromMax (VNum y) (py (maxPosition s))) a false w
     ∧ scrollTo me (AVal (VNum x)) VNull a w
       = doScrollTo me (fromMax (VNum x) (px (maxPosition s))) VNull a false w
     ∧ scrollBy me (AVal VNull) (VNum y) a w
       = doScrollTo me VNull (VNum (y + py (position s))) a false w
     ∧ scrollBy me (AVal (VNum x)) VNull a w
       = doScrollTo me (VNum (x + px (position s))) VNull a false w)
  ∧ (∃ w' s', scrollTo me (AVal VNull) (VNum y) a w = Some (tt, w')
       ∧ heap w' !! me = Some s' ∧ keepsX s s')
  ∧ (∃ w' s', scrollTo me (AVal (VNum x)) VNull a w = Some (tt, w')
       ∧ heap w' !! me = Some s' ∧ keepsY s s')
  ∧ (∃ w' s', scrollBy me (AVal VNull) (VNum y) a w = Some (tt, w')
       ∧ heap w' !! me = Some s' ∧ keepsX s s')
  ∧ (∃ w' s', scrollBy me (AVal (VNum x)) VNull a w = Some (tt, w')
       ∧ heap w' !! me = Some s' ∧ keepsY s s').
Proof.
  intros H.
  destruct (unpackArgs_numbers x y a z) as (Hn & Ha & Ho).
  assert (∀ max,
            (if lt0 (VNum x) || lt0 (VNum y)
             then (fromMax (VNum x) (px max), fromMax (VNum y) (py max), a)
             else (VNum x, VNum y, a))
            = (fromMax (VNum x) (px max), fromMax (VNum y) (py max), a))
    as Hmax.
  { intros max. simpl. destruct (x <? 0), (y <? 0); reflexivity. }
  assert (Htargets : ∀ max,
    scrollToTarget max (AVal (VNum x)) (VNum y) a
      = (fromMax (VNum x) (px max), fromMax (VNum y) (py max), a)
    ∧ scrollToTarget max (AArray [VNum x; VNum y]) a z
      = (fromMax (VNum x) (px max), fromMax (VNum y) (py max), a)
    ∧ scrollToTarget max (AObject (VNum x) (VNum y)) a z
      = (fromMax (VNum x) (px max), fromMax (VNum y) (py max), a)
    ∧ scrollToTarget max (AVal VNull) (VNum y) a
      = (VNull, fromMax (VNum y) (py max), a)
    ∧ scrollToTarget max (AVal (VNum x)) VNull a
      = (fromMax (VNum x) (px max), VNull, a)).
  { intros max. unfold scrollToTarget. rewrite Hn, Ha, Ho, Hmax.
    split; [reflexivity|]. split; [reflexivity|]. split; [reflexivity|].
    unfold unpackArgs; simpl. split.
    - now destruct (y <? 0).
    - destruct (x =? 0); simpl; now destruct (x <? 0). }
  assert (Hdeltas : ∀ pos,
    scrollByTarget pos (AVal (VNum x)) (VNum y) a
      = (VNum (x + px pos), VNum (y + py pos), a)
    ∧ scrollByTarget pos (AArray [VNum x; VNum y]) a z
      = (VNum (x + px pos), VNum (y + py pos), a)
    ∧ scrollByTarget pos (AObject (VNum x) (VNum y)) a z
      = (VNum (x + px pos), VNum (y + py pos), a)
    ∧ scrollByTarget pos (AVal VNull) (VNum y) a
      = (VNull, VNum (y + py pos), a)
    ∧ scrollByTarget pos (AVal (VNum x)) VNull a
      = (VNum (x + px pos), VNull, a)).
  { intros pos. unfold scrollByTarget. rewrite Hn, Ha, Ho.
    split; [reflexivity|]. split; [reflexivity|]. split; [reflexivity|].
    unfold unpackArgs; simpl. split; [reflexivity|].
    now destruct (x =? 0). }
  assert (Hcalls :
    scrollTo me (AVal (VNum x)) (VNum y) a w
      = doScrollTo me (fromMax (VNum x) (px (maxPosition s)))
          (fromMax (VNum y) (py (maxPosition s))) a false w
    ∧ scrollBy me (AVal (VNum x)) (VNum y) a w
      = doScrollTo me (VNum (x + px (position s)))
          (VNum (y + py (position s))) a false w).
  { rewrite (scrollTo_run _ _ _ _ _ _ H), (scrollBy_run _ _ _ _ _ _ H).
    rewrite (proj1 (Htargets (maxPosition s))).
    now rewrite (proj1 (Hdeltas (position s))). }
  assert (Hforms :
    scrollTo me (AArray [VNum x; VNum y]) a z w
      = scrollTo me (AVal (VNum x)) (VNum y) a w
    ∧ scrollTo me (AObject (VNum x) (VNum y)) a z w
      = scrollTo me (AVal (VNum x)) (VNum y) a w
    ∧ scrollBy me (AArray [VNum x; VNum y]) a z w
      = scrollBy me (AVal (VNum x)) (VNum y) a w
    ∧ scrollBy me (AObject (VNum x) (VNum y)) a z w
      = scrollBy me (AVal (VNum x)) (VNum y) a w).
  { rewrite !(scrollTo_run _ _ _ _ _ _ H), !(scrollBy_run _ _ _ _ _ _ H).
    unfold scrollToTarget, scrollByTarget. rewrite Hn, Ha, Ho. tauto. }
  assert (Hnull :
    scrollTo me (AVal VNull) (VNum y) a w
      = doScrollTo me VNull (fromMax (VNum y) (py (maxPosition s))) a false w
    ∧ scrollTo me (AVal (VNum x)) VNull a w
      = doScrollTo me (fromMax (VNum x) (px (maxPosition s))) VNull a false w
    ∧ scrollBy me (AVal VNull) (VNum y) a w
      = doScrollTo me VNull (VNum (y + py (position s))) a false w
    ∧ scrollBy me (AVal (VNum x)) VNull a w
      = doScrollTo me (VNum (x + px (position s))) VNull a false w).
  { rewrite !(scrollTo_run _ _ _ _ _ _ H), !(scrollBy_run _ _ _ _ _ _ H).
    unfold scrollToTarget, scrollByTarget, unpackArgs; simpl.
    repeat split.
    - unfold fromMax. now destruct (y <? 0).
    - destruct (x =? 0); simpl; unfold fromMax; now destruct (x <? 0).
    - now destruct (x =? 0).
  }
  split; [exact Htargets|]. split; [exact Hdeltas|]. split; [exact Hcalls|].
  split; [exact Hforms|]. split; [exact Hnull|].
  destruct Hnull as (-> & -> & -> & ->).
  repeat split.
  - apply doScrollTo_null_x, H.
  - apply doScrollTo_null_y, H.
  - apply doScrollTo_null_x, H.
  - apply doScrollTo_null_y, H.
Qed.

Lemma scroll_argument_forms_agree_witness :
  scrollToTarget (mkPos 100 200) (AVal (VNum 10)) (VNum 10) (VBool true)
    = (VNum 10, VNum 10, VBool true)
  ∧ scrollToTarget (mkPos 100 200) (AArray [VNum 10; VNum 10]) (VBool true)
      VUndefined
    = (VNum 10, VNum 10, VBool true)
  ∧ scrollToTarget (mkPos 100 200) (AObject (VNum 10) (VNum 10)) (VBool true)
      VUndefined
    = (VNum 10, VNum 10, VBool true)
  ∧ scrollTo "A" (AArray [VNum 10; VNum 10]) (VBool true) VUndefined demoWorld
    = scrollTo "A" (AVal (VNum 10)) (VNum 10) (VBool true) demoWorld
  ∧ scrollTo "A" (AObject (VNum 10) (VNum 10)) (VBool true) VUndefined demoWorld
    = scrollTo "A" (AVal (VNum 10)) (VNum 10) (VBool true) demoWorld.
Proof.
  destruct (scroll_argument_forms_agree demoWorld "A" demoScroller 10 10
              (VBool true) VUndefined eq_refl)
    as (Ht & _ & _ & (H1 & H2 & _) & _).
  destruct (Ht (mkPos 100 200)) as (T1 & T2 & T3 & _).
  exact (conj T1 (conj T2 (conj T3 (conj H1 H2)))).
Defined.

(** ** Partner maps (C5) *)

Lemma objGet_objSet_eq {V : Type} k (v : V) o : objGet k (objSet k v o) = Some v.
Proof.
  induction o as [|[k' v'] o IH]; simpl.
  - now rewrite decide_True.
  - destruct (decide (k' = k)) as [->|Hne]; simpl.
    + now rewrite decide_True.
    + now rewrite decide_False.
Qed.

Lemma objGet_objSet_ne {V : Type} k k' (v : V) o :
  k ≠ k' → objGet k' (objSet k v o) = objGet k' o.
Proof.
  intros Hne. induction o as [|[k0 v0] o IH]; simpl.
  - now rewrite decide_False.
  - destruct (decide (k0 = k)) as [->|Hne0]; simpl.
    + now rewrite !decide_False.
    + destruct (decide (k0 = k')); [reflexivity|exact IH].
Qed.

Lemma objGet_objDelete_eq {V : Type} k (o : list (string * V)) :
  objGet k (objDelete k o) = None.
Proof.
  induction o as [|[k' v'] o IH]; simpl; [reflexivity|].
  destruct (decide (k' = k)) as [->|Hne]; simpl; [exact IH|].
  now rewrite decide_False.
Qed.

Lemma objGet_objDelete_ne {V : Type} k k' (o : list (string * V)) :
  k ≠ k' → objGet k' (objDelete k o) = objGet k' o.
Proof.
  intros Hne. induction o as [|[k0 v0] o IH]; simpl; [reflexivity|].
  destruct (decide (k0 = k)) as [->|Hne0]; simpl.
  - now rewrite decide_False.
  - destruct (decide (k0 = k')); [reflexivity|exact IH].
Qed.

Lemma bind_update {B : Type} w id s f (k : unit → M B) :
  heap w !! id = Some s →
  bind (update id f) k w = k tt (with_heap (<[id := f s]> (heap w)) w).
Proof. intros H. apply bind_Some, update_Some, H. Qed.

Lemma bind_getScroller {B : Type} w id s (k : Scroller → M B) :
  heap w !! id = Some s → bind (getScroller id) k w = k s w.
Proof. intros H. apply bind_Some, getScroller_Some, H. Qed.

Lemma addPartner_run w A B a b ax :
  heap w !! A = Some a → heap w !! B = Some b →
  ∃ w' a' b', addPartner A B ax w = Some (tt, w')
    ∧ heap w' !! A = Some a' ∧ heap w' !! B = Some b'
    ∧ objGet B (partners a') = Some (mkPartner B ax)
    ∧ objGet A (partners b') = Some (mkPartner A ax).
Proof.
  intros HA HB. unfold addPartner.
  destruct (decide (A = B)) as [<-|Hne].
  - erewrite bind_update by exact HA. simpl.
    erewrite bind_update by (simpl; apply lookup_insert_eq). simpl.
    erewrite bind_update by (simpl; apply lookup_insert_eq). simpl.
    erewrite update_Some by (simpl; apply lookup_insert_eq). simpl.
    eexists _, _, _. split; [reflexivity|]. simpl.
    rewrite lookup_insert_eq. repeat split; apply objGet_objSet_eq.
  - erewrite bind_update by exact HA. simpl.
    erewrite bind_update by (simpl; rewrite lookup_insert_ne by done; exact HB).
    simpl.
    erewrite bind_update
      by (simpl; rewrite lookup_insert_ne by done; apply lookup_insert_eq).
    simpl.
    erewrite update_Some
      by (simpl; rewrite lookup_insert_ne by done; apply lookup_insert_eq).
    eexists _, _, _. split; [reflexivity|]. simpl.
    rewrite lookup_insert_eq, lookup_insert_ne by done.
    rewrite lookup_insert_eq.
    repeat split; apply objGet_objSet_eq.
Qed.

Lemma objGet_deletePartner k s : objGet k (partners (deletePartner k s)) = None.
Proof.
  unfold deletePartner, partners.
  destruct (_partners s) as [ps|] eqn:E; simpl.
  - apply objGet_objDelete_eq.
  - now rewrite E.
Qed.

Lemma removePartner_run w A B a b :
  heap w !! A = Some a → heap w !! B = Some b →
  ∃ w' a' b', removePartner A B w = Some (tt, w')
    ∧ heap w' !! A = Some a' ∧ heap w' !! B = Some b'
    ∧ objGet B (partners a') = None
    ∧ objGet A (partners b') = None.
Proof.
  intros HA HB. unfold removePartner.
  erewrite bind_getScroller by exact HB.
  destruct (decide (A = B)) as [<-|Hne].
  - erewrite bind_update by exact HA. simpl.
    erewrite update_Some by (simpl; apply lookup_insert_eq). simpl.
    eexists _, _, _. split; [reflexivity|]. simpl.
    rewrite lookup_insert_eq.
    repeat split; apply objGet_deletePartner.
  - erewrite bind_update by exact HA. simpl.
    erewrite update_Some by (simpl; rewrite lookup_insert_ne by done; exact HB).
    eexists _, _, _. split; [reflexivity|]. simpl.
    rewrite lookup_insert_eq, lookup_insert_ne by done.
    rewrite lookup_insert_eq.
    repeat split; apply objGet_deletePartner.
Qed.

(** C5. Partnership is created and removed on both sides: after
    [A.addPartner(B, axis)] the map of A holds B and the map of B holds A,
    both entries with that axis (['x'] in particular); and
    [A.removePartner(B)], then or in any other state, leaves neither map
    with an entry for the other. *)
Theorem partnership_symmetric
    (w : World) (A B : string) (a b : Scroller) (ax : option string) :
  heap w !! A = Some a → heap w !! B = Some b →
  (∃ w1 a1 b1, addPartner A B ax w = Some (tt, w1)
     ∧ heap w1 !! A = Some a1 ∧ heap w1 !! B = Some b1
     ∧ objGet B (partners a1) = Some (mkPartner B ax)
     ∧ objGet A (partners b1) = Some (mkPartner A ax)
     ∧ ∃ w2 a2 b2, removePartner A B w1 = Some (tt, w2)
         ∧ heap w2 !! A = Some a2 ∧ heap w2 !! B = Some b2
         ∧ objGet B (partners a2) = None
         ∧ objGet A (partners b2) = None)
  ∧ (∃ w2 a2 b2, removePartner A B w = Some (tt, w2)
       ∧ heap w2 !! A = Some a2 ∧ heap w2 !! B = Some b2
       ∧ objGet B (partners a2) = None
       ∧ objGet A (partners b2) = None).
Proof.
  intros HA HB. split.
  - destruct (addPartner_run w A B a b ax HA HB)
      as (w1 & a1 & b1 & Hrun & HA1 & HB1 & Hab & Hba).
    exists w1, a1, b1. repeat (split; [assumption|]).
    exact (removePartner_run w1 A B a1 b1 HA1 HB1).
  - exact (removePartner_run w A B a b HA HB).
Qed.

Lemma partnership_symmetric_witness :
  ∃ w1 a1 b1, addPartner "A" "B" (Some "x") demoWorld = Some (tt, w1)
    ∧ heap w1 !! "A" = Some a1 ∧ heap w1 !! "B" = Some b1
    ∧ objGet "B" (partners a1) = Some (mkPartner "B" (Some "x"))
    ∧ objGet "A" (partners b1) = Some (mkPartner "A" (Some "x")).
Proof.
  destruct (partnership_symmetric demoWorld "A" "B" demoScroller demoScroller
              (Some "x") eq_refl eq_refl)
    as ((w1 & a1 & b1 & H1 & H2 & H3 & H4 & H5 & _) & _).
  exists w1, a1, b1. repeat split; assumption.
Defined.

(** ** Partner propagation *)

Lemma sameShape_refl w : sameShape w w.
Proof. repeat split. Qed.

Lemma sameShape_trans w1 w2 w3 :
  sameShape w1 w2 → sameShape w2 w3 → sameShape w1 w3.
Proof.
  intros (Ht & Hn & He & Hh) (Ht' & Hn' & He' & Hh').
  repeat split; try congruence; intros id; now rewrite Hh', Hh.
Qed.

Lemma sameShape_lookup w w' id s :
  sameShape w w' → heap w !! id = Some s →
  ∃ s', heap w' !! id = Some s' ∧ skeleton s' = skeleton s.
Proof.
  intros (_ & _ & _ & Hh) Hs. specialize (Hh id). rewrite Hs in Hh.
  destruct (heap w' !! id) as [s'|]; [|discriminate].
  exists s'. split; [reflexivity|]. simpl in Hh. congruence.
Qed.

Lemma skeleton_partners s s' :
  skeleton s' = skeleton s → _partners s' = _partners s.
Proof. intros H. now apply (f_equal _partners) in H. Qed.

Lemma linked_sameShape w w' s s' ps :
  sameShape w w' → skeleton s' = skeleton s → linked w s ps → linked w' s' ps.
Proof.
  intros Hsh Hsk. unfold linked. intros H. eapply Forall_impl; [exact H|].
  simpl. intros e [[sp Hp] Hg].
  destruct (sameShape_lookup _ _ _ _ Hsh Hp) as (sp' & Hp' & _).
  split; [now exists sp'|].
  unfold partners. now rewrite (skeleton_partners _ _ Hsk).
Qed.

Lemma onPartnerScroll_run w me partner sp ps entry x y :
  heap w !! partner = Some sp →
  _partners sp = Some ps →
  objGet me ps = Some entry →
  onPartnerScroll me partner x y w
    = doScrollTo me (filterAxis (axis entry) x y).1
        (filterAxis (axis entry) x y).2 (VBool false) true w.
Proof.
  intros Hp Hps Hg. unfold onPartnerScroll.
  erewrite bind_getScroller by exact Hp. now rewrite Hps, Hg.
Qed.

(** One turn of the loop: the partner is marked, called, and unmarked
    when the method ends the scroll. *)
Lemma invokePartner_run w me method x y e sm sp :
  heap w !! me = Some sm →
  heap w !! scroller e.2 = Some sp →
  is_Some (objGet (scroller e.2) (partners sm)) →
  ∃ w' sp', invokePartner me method x y e w = Some (tt, w')
    ∧ heap w' = <[scroller e.2 := sp']> (heap w)
    ∧ skeleton sp' = skeleton sp
    ∧ isReflecting sp' = negb (isEnd method)
    ∧ timers w' = timers w ∧ now w' = now w
    ∧ Ext_isScrolling w' = Ext_isScrolling w
    ∧ trace w' = trace w ++ [PartnerCall (scroller e.2) method me x y].
Proof.
  intros Hm Hp [entry Hg]. unfold invokePartner.
  set (p := scroller e.2) in *.
  erewrite bind_update by exact Hp.
  unfold callPartner.
  destruct method; simpl.
  - eexists _, _. split; [reflexivity|]. simpl. repeat split.
  - unfold bind at 1. unfold bind at 1. unfold emit at 1.
    set (w1 := with_trace _ _).
    assert (∃ sm', heap w1 !! me = Some sm' ∧ _partners sm' = _partners sm)
      as (sm' & Hm' & Hps).
    { subst w1. simpl. destruct (decide (p = me)) as [Heq|Hne].
      - rewrite Heq in *. rewrite lookup_insert_eq. eexists. split; [reflexivity|].
        simpl. congruence.
      - rewrite lookup_insert_ne by done. now exists sm. }
    unfold partners in Hg. destruct (_partners sm) as [ps|] eqn:Eps; [|discriminate].
    simpl in Hg.
    rewrite (onPartnerScroll_run w1 p me sm' ps entry x y Hm') by congruence.
    erewrite doScrollTo_Some by (subst w1; simpl; apply lookup_insert_eq).
    eexists _, _. split; [reflexivity|]. subst w1. simpl.
    rewrite insert_insert_eq. repeat split.
  - unfold bind, emit, ret. simpl.
    erewrite update_Some by (simpl; apply lookup_insert_eq).
    eexists _, _. split; [reflexivity|]. simpl.
    rewrite insert_insert_eq. repeat split.
Qed.

Lemma forEach_invokePartner me method x y ps :
  ∀ w sm,
    heap w !! me = Some sm → linked w sm ps →
    ∃ w', forEach ps (invokePartner me method x y) w = Some (tt, w')
      ∧ sameShape w w'
      ∧ trace w' = trace w ++ partnerCalls me method x y ps
      ∧ (∀ id, id ∉ partnerIds ps → heap w' !! id = heap w !! id)
      ∧ (∀ id s', id ∈ partnerIds ps → heap w' !! id = Some s' →
           isReflecting s' = negb (isEnd method)).
Proof.
  induction ps as [|e ps IH]; intros w sm Hm Hl.
  - exists w. simpl. split; [reflexivity|]. split; [apply sameShape_refl|].
    split; [now rewrite app_nil_r|]. split; [reflexivity|].
    intros id s' Hin. now apply elem_of_nil in Hin.
  - apply Forall_cons in Hl as [[[sp Hp] Hg] Hl].
    destruct (invokePartner_run w me method x y e sm sp Hm Hp Hg)
      as (w1 & sp' & Hrun & Hheap & Hsk & Hrefl & Ht & Hn & Hex & Htr).
    assert (sameShape w w1) as Hsh.
    { repeat split; try assumption. intros id. rewrite Hheap.
      destruct (decide (scroller e.2 = id)) as [<-|Hne].
      - rewrite lookup_insert_eq, Hp. simpl. now rewrite Hsk.
      - now rewrite lookup_insert_ne. }
    destruct (sameShape_lookup _ _ _ _ Hsh Hm) as (sm1 & Hm1 & Hsk1).
    destruct (IH w1 sm1 Hm1 (linked_sameShape _ _ _ _ _ Hsh Hsk1 Hl))
      as (w' & Hrun' & Hsh' & Htr' & Hout & Hin).
    exists w'. split.
    { simpl. unfold bind. now rewrite Hrun. }
    split; [exact (sameShape_trans _ _ _ Hsh Hsh')|].
    split.
    { rewrite Htr', Htr. unfold partnerCalls. simpl. now rewrite <- app_assoc. }
    split.
    + intros id Hid. simpl in Hid. apply not_elem_of_cons in Hid as [Hne Hid].
      rewrite (Hout id Hid), Hheap. now rewrite lookup_insert_ne.
    + intros id s' Hid Hs'. simpl in Hid.
      destruct (decide (id ∈ partnerIds ps)) as [Hps|Hps].
      * exact (Hin id s' Hps Hs').
      * apply elem_of_cons in Hid as [->|Hid]; [|contradiction].
        rewrite (Hout _ Hps), Hheap, lookup_insert_eq in Hs'. congruence.
Qed.

(** A scroller that is suspended or reflecting invokes no partner: the
    call leaves the world as it is. *)
Lemma invokePartners_guarded w me method x y s :
  heap w !! me = Some s → maySync s = false →
  invokePartners me method x y w = Some (tt, w).
Proof.
  intros H Hg. unfold invokePartners.
  erewrite bind_getScroller by exact H. now rewrite Hg.
Qed.

Lemma invokePartners_run w me method x y sm :
  heap w !! me = Some sm → linked w sm (partners sm) →
  ∃ w', invokePartners me method x y w = Some (tt, w')
    ∧ sameShape w w'
    ∧ trace w' = trace w ++ propagation me method x y sm
    ∧ (∀ id, maySync sm = false ∨ id ∉ partnerIds (partners sm) →
         heap w' !! id = heap w !! id)
    ∧ (∀ id s', maySync sm = true → id ∈ partnerIds (partners sm) →
         heap w' !! id = Some s' → isReflecting s' = negb (isEnd method)).
Proof.
  intros Hm Hl. unfold propagation.
  destruct (maySync sm) eqn:Hg.
  - destruct (forEach_invokePartner me method x y (partners sm) w sm Hm Hl)
      as (w' & Hrun & Hsh & Htr & Hout & Hin).
    exists w'. split.
    { unfold invokePartners. erewrite bind_getScroller by exact Hm.
      now rewrite Hg. }
    split; [exact Hsh|]. split; [exact Htr|]. split.
    + intros id [Hf|Hid]; [discriminate|]. now apply Hout.
    + intros id s' _. apply Hin.
  - exists w. rewrite (invokePartners_guarded _ _ _ _ _ _ Hm Hg).
    split; [reflexivity|]. split; [apply sameShape_refl|].
    split; [now rewrite app_nil_r|]. split; [reflexivity|].
    intros id s' Hf. discriminate.
Qed.

Lemma skeleton_fields s s' :
  skeleton s' = skeleton s →
  hasListeners s' = hasListeners s ∧ component s' = component s
  ∧ _partners s' = _partners s ∧ suspendSync s' = suspendSync s
  ∧ isScrolling s' = isScrolling s ∧ restoring s' = restoring s
  ∧ bufferedScrollEnd s' = bufferedScrollEnd s
  ∧ scrollListener s' = scrollListener s ∧ element s' = element s
  ∧ destroyed s' = destroyed s.
Proof.
  intros H.
  repeat split;
    [ apply (f_equal hasListeners) in H | apply (f_equal component) in H
    | apply (f_equal _partners) in H | apply (f_equal suspendSync) in H
    | apply (f_equal isScrolling) in H | apply (f_equal restoring) in H
    | apply (f_equal bufferedScrollEnd) in H
    | apply (f_equal scrollListener) in H | apply (f_equal element) in H
    | apply (f_equal destroyed) in H ]; exact H.
Qed.

Lemma fire_unfold name me x y :
  fire name me x y
    = (invokePartners me (partnerMethod name) x y >>
       let* s := getScroller me in
       when (listens name (hasListeners s)) (emit (Fired me name x y)) >>
       when (hasHook name (component s)) (emit (Hook me name x y)) >>
       emit (Global me name x y)).
Proof. now destruct name. Qed.

Lemma fire_run w name me x y sm :
  heap w !! me = Some sm → linked w sm (partners sm) →
  ∃ w', fire name me x y w = Some (tt, w')
    ∧ sameShape w w'
    ∧ trace w' = trace w ++ propagation me (partnerMethod name) x y sm
                   ++ notifications name me x y sm
    ∧ (∀ id, maySync sm = false ∨ id ∉ partnerIds (partners sm) →
         heap w' !! id = heap w !! id)
    ∧ (∀ id s', maySync sm = true → id ∈ partnerIds (partners sm) →
         heap w' !! id = Some s' →
         isReflecting s' = negb (isEnd (partnerMethod name))).
Proof.
  intros Hm Hl.
  destruct (invokePartners_run w me (partnerMethod name) x y sm Hm Hl)
    as (w1 & Hrun & Hsh & Htr & Hout & Hin).
  destruct (sameShape_lookup _ _ _ _ Hsh Hm) as (sm1 & Hm1 & Hsk1).
  destruct (skeleton_fields _ _ Hsk1) as (Hhl & Hc & _).
  rewrite fire_unfold. rewrite (bind_Some _ _ _ _ _ Hrun).
  erewrite bind_getScroller by exact Hm1.
  rewrite Hhl, Hc. unfold notifications.
  destruct (listens name (hasListeners sm)), (hasHook name (component sm));
    simpl; unfold bind, emit; simpl;
    (eexists; split; [reflexivity|]; simpl;
     split;
       [destruct Hsh as (? & ? & ? & ?); repeat split; assumption|];
     split; [rewrite Htr, <- ?app_assoc; reflexivity|];
     split; assumption).
Qed.

Lemma core_skeleton s s' : skeleton s' = skeleton s → core s' = core s.
Proof. intros H. unfold core. now rewrite H. Qed.

Lemma core_fields s s' :
  core s' = core s →
  hasListeners s' = hasListeners s ∧ component s' = component s
  ∧ _partners s' = _partners s ∧ suspendSync s' = suspendSync s
  ∧ restoring s' = restoring s
  ∧ bufferedScrollEnd s' = bufferedScrollEnd s
  ∧ scrollListener s' = scrollListener s ∧ element s' = element s
  ∧ destroyed s' = destroyed s.
Proof.
  intros H.
  repeat split;
    [ apply (f_equal hasListeners) in H | apply (f_equal component) in H
    | apply (f_equal _partners) in H | apply (f_equal suspendSync) in H
    | apply (f_equal restoring) in H
    | apply (f_equal bufferedScrollEnd) in H
    | apply (f_equal scrollListener) in H | apply (f_equal element) in H
    | apply (f_equal destroyed) in H ]; exact H.
Qed.

Lemma linked_insert w id sid s ps f :
  heap w !! id = Some sid →
  linked w s ps → linked (with_heap (<[id := f]> (heap w)) w) s ps.
Proof.
  intros Hid H. unfold linked in *. eapply Forall_impl; [exact H|].
  simpl. intros e [[sp Hp] Hg]. split; [|exact Hg].
  destruct (decide (id = scroller e.2)) as [<-|Hne].
  - rewrite lookup_insert_eq. eexists; reflexivity.
  - rewrite lookup_insert_ne by done. eexists; exact Hp.
Qed.

Lemma propagation_core me method x y s s' :
  core s' = core s → isReflecting s' = isReflecting s →
  propagation me method x y s' = propagation me method x y s.
Proof.
  intros Hc Hr. destruct (core_fields _ _ Hc) as (_ & _ & Hp & Hs & _).
  unfold propagation, maySync, partners. now rewrite Hp, Hs, Hr.
Qed.

Lemma notifications_core name me x y s s' :
  core s' = core s → notifications name me x y s' = notifications name me x y s.
Proof.
  intros Hc. destruct (core_fields _ _ Hc) as (Hl & Hco & _).
  unfold notifications. now rewrite Hl, Hco.
Qed.

(** A round that does not end the scroll never clears a reflecting flag. *)
Lemma fire_keeps_reflecting w w' name me x y sm :
  heap w !! me = Some sm → linked w sm (partners sm) →
  name ≠ ScrollEnd →
  fire name me x y w = Some (tt, w') →
  ∀ id s s', heap w !! id = Some s → heap w' !! id = Some s' →
             isReflecting s = true → isReflecting s' = true.
Proof.
  intros Hm Hl Hname Hrun id s s' Hs Hs' Hr.
  destruct (fire_run w name me x y sm Hm Hl)
    as (w1 & Hrun1 & _ & _ & Hout & Hin).
  rewrite Hrun in Hrun1. injection Hrun1 as <-.
  destruct (maySync sm) eqn:Hg.
  - destruct (decide (id ∈ partnerIds (partners sm))) as [Hid|Hid].
    + rewrite (Hin id s' eq_refl Hid Hs'). now destruct name.
    + rewrite (Hout id (or_intror Hid)) in Hs'. congruence.
  - rewrite (Hout id (or_introl eq_refl)) in Hs'. congruence.
Qed.

Lemma keeps_reflecting_of_rounds (w w' : World) (sm : Scroller) :
  (∀ id, maySync sm = false ∨ id ∉ partnerIds (partners sm) →
         heap w' !! id = heap w !! id) →
  (∀ id s', maySync sm = true → id ∈ partnerIds (partners sm) →
            heap w' !! id = Some s' → isReflecting s' = true) →
  ∀ id s s', heap w !! id = Some s → heap w' !! id = Some s' →
             isReflecting s = true → isReflecting s' = true.
Proof.
  intros Hout Hin id s s' Hs Hs' Hr.
  destruct (maySync sm) eqn:Hg.
  - destruct (decide (id ∈ partnerIds (partners sm))) as [Hid|Hid].
    + exact (Hin id s' eq_refl Hid Hs').
    + rewrite (Hout id (or_intror Hid)) in Hs'. congruence.
  - rewrite (Hout id (or_introl eq_refl)) in Hs'. congruence.
Qed.

(** The end of [onDomScroll]: the scroll is notified and the buffered
    scroll-end is called. *)
Lemma scrollTail_run w me sC q x y :
  heap w !! me = Some sC → linked w sC (partners sC) →
  bufferedScrollEnd sC = Some q →
  ∃ w', (fireScroll me x y >>
         let* s := getScroller me in
         match bufferedScrollEnd s with
         | Some buffer => callBuffered buffer me
         | None => throw
         end) w = Some (tt, w')
    ∧ timers w' = filter (λ t, t.1 ≠ me) (timers w) ++ [(me, now w + q)]
    ∧ now w' = now w
    ∧ Ext_isScrolling w' = Ext_isScrolling w
    ∧ (∀ id, skeleton <$> heap w' !! id = skeleton <$> heap w !! id)
    ∧ trace w' = trace w ++ propagation me OnPartnerScroll x y sC
                   ++ notifications Scroll me x y sC
    ∧ (∀ id, maySync sC = false ∨ id ∉ partnerIds (partners sC) →
         heap w' !! id = heap w !! id)
    ∧ (∀ id s', maySync sC = true → id ∈ partnerIds (partners sC) →
         heap w' !! id = Some s' → isReflecting s' = true).
Proof.
  intros Hm Hl Hq.
  destruct (fire_run w Scroll me x y sC Hm Hl)
    as (w1 & Hrun & Hsh & Htr & Hout & Hin).
  destruct (sameShape_lookup _ _ _ _ Hsh Hm) as (sD & HmD & HskD).
  destruct (skeleton_fields _ _ HskD) as (_ & _ & _ & _ & _ & _ & HqD & _).
  change (fireScroll me x y) with (fire Scroll me x y).
  rewrite (bind_Some _ _ _ _ _ Hrun).
  erewrite bind_getScroller by exact HmD. rewrite HqD, Hq.
  unfold callBuffered. eexists. split; [reflexivity|]. simpl.
  destruct Hsh as (Ht & Hn & He & Hh). rewrite Ht, Hn.
  repeat split; assumption.
Qed.

Lemma onDomScroll_run w me sm q :
  heap w !! me = Some sm → linked w sm (partners sm) →
  restoring sm = false → bufferedScrollEnd sm = Some q →
  ∃ w' sC sD,
    onDomScroll me w = Some (tt, w')
    ∧ trace w' = trace w
        ++ (if isScrolling sm then []
            else propagation me OnPartnerScrollStart
                   (px (domPosition sm)) (py (domPosition sm)) sm
                 ++ notifications ScrollStart me
                      (px (domPosition sm)) (py (domPosition sm)) sm)
        ++ propagation me OnPartnerScroll
             (px (domPosition sm)) (py (domPosition sm)) sC
        ++ notifications Scroll me
             (px (domPosition sm)) (py (domPosition sm)) sm
    ∧ core sC = core sm
    ∧ (isScrolling sm = true ∨ maySync sm = false
       ∨ me ∉ partnerIds (partners sm) → isReflecting sC = isReflecting sm)
    ∧ heap w' !! me = Some sD
    ∧ core sD = core sm
    ∧ isScrolling sD = true
    ∧ (maySync sm = false ∨ me ∉ partnerIds (partners sm) →
         sD = set_isScrolling true
                (set_positionDirty false (set_position (domPosition sm) sm)))
    ∧ timers w' = filter (λ t, t.1 ≠ me) (timers w) ++ [(me, now w + q)]
    ∧ now w' = now w
    ∧ (∀ id, id ≠ me → skeleton <$> heap w' !! id = skeleton <$> heap w !! id)
    ∧ (∀ id s s', heap w !! id = Some s → heap w' !! id = Some s' →
         isReflecting s = true → isReflecting s' = true)
    ∧ (∀ id s', maySync sm = true → id ∈ partnerIds (partners sm) →
         heap w' !! id = Some s' → isReflecting s' = true).
Proof.
  intros Hm Hl Hr Hq.
  set (p := domPosition sm).
  set (sA := set_positionDirty false (set_position p sm)).
  unfold onDomScroll, updateDomScrollPosition.
  erewrite bind_Some; cycle 1.
  { erewrite bind_getScroller by exact Hm.
    erewrite bind_update by exact Hm. reflexivity. }
  fold p. fold sA.
  erewrite bind_getScroller by (simpl; apply lookup_insert_eq).
  replace (restoring sA) with false by (symmetry; exact Hr).
  replace (isScrolling sA) with (isScrolling sm) by reflexivity.
  set (w1 := with_heap (<[me:=sA]> (heap w)) w).
  assert (heap w1 !! me = Some sA) as HmA by apply lookup_insert_eq.
  assert (linked w1 sA (partners sA)) as HlA.
  { apply (linked_insert w me sm); [exact Hm|exact Hl]. }
  assert (∀ id s, heap w !! id = Some s →
            ∃ s1, heap w1 !! id = Some s1 ∧ isReflecting s1 = isReflecting s)
    as Hw1.
  { intros id s Hs. subst w1. simpl.
    destruct (decide (me = id)) as [<-|Hne].
    - rewrite lookup_insert_eq. exists sA. split; [reflexivity|].
      rewrite Hm in Hs. injection Hs as <-. reflexivity.
    - rewrite lookup_insert_ne by done. now exists s. }
  destruct (isScrolling sm) eqn:Hscr; cbn [negb when].
  - (* a scroll is under way: no scrollstart *)
    destruct (scrollTail_run w1 me sA q (px p) (py p) HmA HlA Hq)
      as (w' & Hrun & Ht & Hn & He & Hh & Htr & Hout & Hin).
    unfold bind at 1. unfold ret at 1. rewrite Hrun.
    assert (∃ sD, heap w' !! me = Some sD ∧ skeleton sD = skeleton sA)
      as (sD & HmD & HskD).
    { specialize (Hh me). rewrite HmA in Hh.
      destruct (heap w' !! me) as [sD|]; [|discriminate].
      exists sD. split; [reflexivity|]. simpl in Hh. congruence. }
    exists w', sA, sD. split; [reflexivity|].
    split; [exact Htr|]. split; [reflexivity|]. split; [reflexivity|].
    split; [exact HmD|].
    split; [exact (core_skeleton _ _ HskD)|].
    split.
    { destruct (skeleton_fields _ _ HskD) as (_ & _ & _ & _ & -> & _).
      exact Hscr. }
    split.
    { intros Hc. rewrite (Hout me Hc), HmA in HmD. injection HmD as <-.
      unfold sA, set_isScrolling, set_positionDirty, set_position. simpl.
      now rewrite Hscr. }
    split; [exact Ht|]. split; [exact Hn|].
    split.
    { intros id Hne. rewrite Hh. subst w1. simpl.
      now rewrite lookup_insert_ne. }
    split.
    { intros id s s' Hs Hs' Hrf.
      destruct (Hw1 id s Hs) as (s1 & Hs1 & Hr1).
      apply (keeps_reflecting_of_rounds w1 w' sA Hout Hin id s1 s' Hs1 Hs').
      congruence. }
    exact Hin.
  - (* the scroll starts *)
    set (sB := set_isScrolling true sA).
    set (w3 := with_Ext_isScrolling true (with_heap (<[me:=sB]> (heap w1)) w1)).
    assert (heap w3 !! me = Some sB) as HmB by apply lookup_insert_eq.
    assert (linked w3 sB (partners sB)) as HlB.
    { apply (linked_insert w1 me sA); [exact HmA|exact HlA]. }
    destruct (fire_run w3 ScrollStart me (px p) (py p) sB HmB HlB)
      as (w4 & Hrun4 & Hsh4 & Htr4 & Hout4 & Hin4).
    assert ((update me (set_isScrolling true) >>
             setExtIsScrolling true >>
             fireScrollStart me (px p) (py p)) w1 = Some (tt, w4)) as Hhead.
    { erewrite bind_update by exact HmA. exact Hrun4. }
    rewrite (bind_Some _ _ _ _ _ Hhead).
    destruct (sameShape_lookup _ _ _ _ Hsh4 HmB) as (sC & HmC & HskC).
    assert (linked w4 sC (partners sC)) as HlC.
    { replace (partners sC) with (partners sB)
        by (unfold partners; now rewrite (skeleton_partners _ _ HskC)).
      exact (linked_sameShape _ _ _ _ _ Hsh4 HskC HlB). }
    assert (bufferedScrollEnd sC = Some q) as HqC.
    { destruct (skeleton_fields _ _ HskC) as (_ & _ & _ & _ & _ & _ & -> & _).
      exact Hq. }
    destruct (scrollTail_run w4 me sC q (px p) (py p) HmC HlC HqC)
      as (w' & Hrun & Ht & Hn & He & Hh & Htr & Hout & Hin).
    rewrite Hrun.
    assert (∃ sD, heap w' !! me = Some sD ∧ skeleton sD = skeleton sC)
      as (sD & HmD & HskD).
    { specialize (Hh me). rewrite HmC in Hh.
      destruct (heap w' !! me) as [sD|]; [|discriminate].
      exists sD. split; [reflexivity|]. simpl in Hh. congruence. }
    assert (maySync sm = false ∨ me ∉ partnerIds (partners sm) → sC = sB)
      as HCB.
    { intros Hc. rewrite (Hout4 me Hc), HmB in HmC. now injection HmC. }
    exists w', sC, sD. split; [reflexivity|].
    split.
    { rewrite Htr, Htr4. subst w3 w1. simpl.
      rewrite (notifications_core Scroll me (px p) (py p) sm sC)
        by exact (core_skeleton _ _ HskC).
      now rewrite <- !app_assoc. }
    split; [exact (core_skeleton _ _ HskC)|].
    split.
    { intros [Hf|Hc]; [discriminate|]. now rewrite (HCB Hc). }
    split; [exact HmD|].
    split.
    { rewrite (core_skeleton _ _ HskD). exact (core_skeleton _ _ HskC). }
    split.
    { destruct (skeleton_fields _ _ HskD) as (_ & _ & _ & _ & -> & _).
      now destruct (skeleton_fields _ _ HskC) as (_ & _ & _ & _ & -> & _). }
    split.
    { intros Hc. specialize (HCB Hc). subst sC.
      rewrite (Hout me Hc), HmC in HmD. now injection HmD. }
    split.
    { rewrite Ht. destruct Hsh4 as (-> & -> & _). reflexivity. }
    split.
    { rewrite Hn. now destruct Hsh4 as (_ & -> & _). }
    split.
    { intros id Hne. rewrite Hh. destruct Hsh4 as (_ & _ & _ & ->).
      subst w3 w1. simpl. now rewrite !lookup_insert_ne. }
    assert (∀ id s, heap w !! id = Some s →
              ∃ s3, heap w3 !! id = Some s3 ∧ isReflecting s3 = isReflecting s)
      as Hw3.
    { intros id s Hs. subst w3 w1. simpl.
      destruct (decide (me = id)) as [<-|Hne].
      - rewrite lookup_insert_eq. exists sB. split; [reflexivity|].
        rewrite Hm in Hs. injection Hs as <-. reflexivity.
      - rewrite !lookup_insert_ne by done. now exists s. }
    assert (∀ id s3 s', heap w3 !! id = Some s3 → heap w' !! id = Some s' →
              isReflecting s3 = true → isReflecting s' = true) as Hmono.
    { intros id s3 s' Hs3 Hs' Hrf.
      destruct (sameShape_lookup _ _ _ _ Hsh4 Hs3) as (s4 & Hs4 & _).
      apply (keeps_reflecting_of_rounds w4 w' sC Hout Hin id s4 s' Hs4 Hs').
      apply (fire_keeps_reflecting w3 w4 ScrollStart me (px p) (py p) sB
               HmB HlB ltac:(discriminate) Hrun4 id s3 s4 Hs3 Hs4 Hrf). }
    split.
    { intros id s s' Hs Hs' Hrf.
      destruct (Hw3 id s Hs) as (s3 & Hs3 & Hr3).
      apply (Hmono id s3 s' Hs3 Hs'). congruence. }
    intros id s' Hg Hid Hs'.
    assert (∃ s4, heap w4 !! id = Some s4) as (s4 & Hs4).
    { specialize (Hh id). rewrite Hs' in Hh.
      destruct (heap w4 !! id) as [s4|]; [now exists s4|discriminate]. }
    apply (keeps_reflecting_of_rounds w4 w' sC Hout Hin id s4 s' Hs4 Hs').
    exact (Hin4 id s4 Hg Hid Hs4).
Qed.

(** ** Reading traces *)

Lemma globalNames_app me l1 l2 :
  globalNames me (l1 ++ l2) = globalNames me l1 ++ globalNames me l2.
Proof. apply flat_map_app. Qed.

Lemma firedNames_app me l1 l2 :
  firedNames me (l1 ++ l2) = firedNames me l1 ++ firedNames me l2.
Proof. apply flat_map_app. Qed.

Lemma calls_app l1 l2 : calls (l1 ++ l2) = calls l1 ++ calls l2.
Proof. apply flat_map_app. Qed.

Lemma callsTo_app t l1 l2 : callsTo t (l1 ++ l2) = callsTo t l1 ++ callsTo t l2.
Proof. apply flat_map_app. Qed.

Lemma callsOf_app t m l1 l2 :
  callsOf t m (l1 ++ l2) = callsOf t m l1 ++ callsOf t m l2.
Proof. apply flat_map_app. Qed.

Lemma globalNames_partnerCalls id me method x y ps :
  globalNames id (partnerCalls me method x y ps) = [].
Proof. unfold partnerCalls. now induction (partnerIds ps). Qed.

Lemma firedNames_partnerCalls id me method x y ps :
  firedNames id (partnerCalls me method x y ps) = [].
Proof. unfold partnerCalls. now induction (partnerIds ps). Qed.

Lemma calls_partnerCalls me method x y ps :
  calls (partnerCalls me method x y ps) = partnerCalls me method x y ps.
Proof.
  unfold partnerCalls. induction (partnerIds ps) as [|i l IH]; simpl;
    [reflexivity|now rewrite IH].
Qed.

Lemma globalNames_propagation id me method x y s :
  globalNames id (propagation me method x y s) = [].
Proof.
  unfold propagation. destruct (maySync s);
    [apply globalNames_partnerCalls|reflexivity].
Qed.

Lemma firedNames_propagation id me method x y s :
  firedNames id (propagation me method x y s) = [].
Proof.
  unfold propagation. destruct (maySync s);
    [apply firedNames_partnerCalls|reflexivity].
Qed.

Lemma calls_propagation me method x y s :
  calls (propagation me method x y s) = propagation me method x y s.
Proof.
  unfold propagation. destruct (maySync s);
    [apply calls_partnerCalls|reflexivity].
Qed.

Lemma globalNames_notifications id name me x y s :
  globalNames id (notifications name me x y s)
    = if decide (me = id) then [name] else [].
Proof.
  unfold notifications.
  destruct (listens name (hasListeners s)), (hasHook name (component s));
    simpl; destruct (decide (me = id)); reflexivity.
Qed.

Lemma firedNames_notifications id name me x y s :
  firedNames id (notifications name me x y s)
    = if decide (me = id)
      then (if listens name (hasListeners s) then [name] else [])
      else [].
Proof.
  unfold notifications.
  destruct (listens name (hasListeners s)), (hasHook name (component s));
    simpl; destruct (decide (me = id)); reflexivity.
Qed.

Lemma calls_notifications name me x y s :
  calls (notifications name me x y s) = [].
Proof.
  unfold notifications.
  destruct (listens name (hasListeners s)), (hasHook name (component s));
    reflexivity.
Qed.

(** ** No echo between partners (C1) *)

Lemma linked_single w s B e :
  partners s = [(B, e)] → scroller e = B → is_Some (heap w !! B) →
  linked w s (partners s).
Proof.
  intros Hp He HB. unfold linked. rewrite Hp.
  apply Forall_cons. split; [|apply Forall_nil; exact I].
  simpl. rewrite He. split; [exact HB|].
  rewrite ?Hp. simpl. rewrite decide_True by reflexivity. eexists; reflexivity.
Qed.

Lemma callsTo_notifications t name me x y s :
  callsTo t (notifications name me x y s) = [].
Proof.
  unfold notifications.
  destruct (listens name (hasListeners s)), (hasHook name (component s));
    reflexivity.
Qed.

Lemma callsOf_notifications t m name me x y s :
  callsOf t m (notifications name me x y s) = [].
Proof.
  unfold notifications.
  destruct (listens name (hasListeners s)), (hasHook name (component s));
    reflexivity.
Qed.

Lemma maySync_reflecting s : isReflecting s = true → maySync s = false.
Proof. intros H. unfold maySync. rewrite H. apply andb_false_r. Qed.

Lemma maySync_suspended s :
  truthyCount (suspendSync s) = true → maySync s = false.
Proof. intros H. unfold maySync. now rewrite H. Qed.

Lemma propagation_guarded me method x y s :
  maySync s = false → propagation me method x y s = [].
Proof. intros H. unfold propagation. now rewrite H. Qed.

Ltac read_trace :=
  repeat first
    [ rewrite callsOf_app | rewrite callsOf_notifications
    | rewrite callsTo_app | rewrite callsTo_notifications
    | rewrite globalNames_app | rewrite globalNames_notifications
    | rewrite globalNames_propagation
    | rewrite firedNames_app | rewrite firedNames_notifications
    | rewrite firedNames_propagation
    | rewrite calls_app | rewrite calls_notifications
    | rewrite calls_propagation
    | rewrite decide_True by (first [reflexivity | split; reflexivity])
    | rewrite decide_False by (first [congruence | intros [_ ?]; discriminate])
    | rewrite app_nil_r
    | progress simpl ].

(** C1. A scroller that is reflecting or suspended invokes no partner.
    Hence in a pair of scrollers A and B that are each other's only
    partner, one scroll event of A reaches B once and comes back to A
    not at all, even when the scroll element of B answers with a scroll
    event of its own: B receives one [onPartnerScroll], A receives no
    partner call, and each of them runs its scroll notification once. *)
Theorem two_cycle_propagates_once
    (w : World) (A B : string) (a b : Scroller) (eA eB : Partner) (qa qb : Z) :
  A ≠ B →
  heap w !! A = Some a → heap w !! B = Some b →
  partners a = [(B, eB)] → scroller eB = B →
  partners b = [(A, eA)] → scroller eA = A →
  maySync a = true →
  restoring a = false → restoring b = false →
  bufferedScrollEnd a = Some qa → bufferedScrollEnd b = Some qb →
  scrollListener b = true →
  (∀ w0 me s method x y,
     heap w0 !! me = Some s →
     isReflecting s = true ∨ truthyCount (suspendSync s) = true →
     invokePartners me method x y w0 = Some (tt, w0))
  ∧ ∃ w1 w2 evs,
      onDomScroll A w = Some (tt, w1)
      ∧ dispatchScroll B w1 = Some (tt, w2)
      ∧ trace w2 = trace w ++ evs
      ∧ callsOf B OnPartnerScroll evs
          = [PartnerCall B OnPartnerScroll A
               (px (domPosition a)) (py (domPosition a))]
      ∧ callsTo A evs = []
      ∧ globalNames A evs
          = (if isScrolling a then [] else [ScrollStart]) ++ [Scroll]
      ∧ globalNames B evs
          = (if isScrolling b then [] else [ScrollStart]) ++ [Scroll].
Proof.
  intros Hne HA HB Hpa HeB Hpb HeA Hsync Hra Hrb Hqa Hqb Hlb.
  split.
  { intros w0 me s method x y Hs [Hr|Hsus];
      apply (invokePartners_guarded _ _ _ _ _ _ Hs);
      [now apply maySync_reflecting|now apply maySync_suspended]. }
  assert (linked w a (partners a)) as Hla.
  { apply (linked_single w a B eB Hpa HeB). eexists; exact HB. }
  assert (A ∉ partnerIds (partners a)) as HAout.
  { rewrite Hpa. simpl. rewrite HeB. intros Hin.
    apply list_elem_of_singleton in Hin. contradiction. }
  assert (B ∈ partnerIds (partners a)) as HBin.
  { rewrite Hpa. simpl. rewrite HeB. apply list_elem_of_singleton. reflexivity. }
  destruct (onDomScroll_run w A a qa HA Hla Hra Hqa)
    as (w1 & sC & sD & Hrun1 & Htr1 & HcC & HrC & HD & HcD & _ & _ & _ & _
        & Hsk1 & _ & Hfl1).
  assert (∃ b1, heap w1 !! B = Some b1 ∧ skeleton b1 = skeleton b)
    as (b1 & HB1 & Hskb).
  { specialize (Hsk1 B ltac:(congruence)). rewrite HB in Hsk1.
    destruct (heap w1 !! B) as [b1|]; [|discriminate].
    exists b1. split; [reflexivity|]. simpl in Hsk1. congruence. }
  assert (isReflecting b1 = true) as Hrb1 by exact (Hfl1 B b1 Hsync HBin HB1).
  destruct (skeleton_fields _ _ Hskb)
    as (_ & _ & Hpb1 & _ & Hscrb & Hrb1' & Hqb1 & Hlb1 & _).
  assert (partners b1 = [(A, eA)]) as Hpb1'.
  { unfold partners in *. now rewrite Hpb1. }
  assert (linked w1 b1 (partners b1)) as Hlb1'.
  { apply (linked_single w1 b1 A eA Hpb1' HeA). eexists; exact HD. }
  destruct (onDomScroll_run w1 B b1 qb HB1 Hlb1'
              ltac:(congruence) ltac:(congruence))
    as (w2 & sC2 & sD2 & Hrun2 & Htr2 & HcC2 & HrC2 & _).
  pose proof (maySync_reflecting _ Hrb1) as Hg1.
  rewrite (propagation_core B OnPartnerScroll _ _ b1 sC2 HcC2
             (HrC2 (or_intror (or_introl Hg1)))) in Htr2.
  rewrite !(propagation_guarded _ _ _ _ _ Hg1) in Htr2.
  rewrite (propagation_core A OnPartnerScroll _ _ a sC HcC
             (HrC (or_intror (or_intror HAout)))) in Htr1.
  eexists w1, w2, _. split; [exact Hrun1|]. split.
  { unfold dispatchScroll. erewrite bind_getScroller by exact HB1.
    rewrite Hlb1, Hlb. exact Hrun2. }
  split.
  { rewrite Htr2, Htr1, <- !app_assoc. reflexivity. }
  rewrite Hscrb.
  unfold propagation. rewrite Hsync, Hpa. unfold partnerCalls. simpl.
  rewrite HeB.
  repeat split; destruct (isScrolling a), (isScrolling b); read_trace;
    reflexivity.
Qed.

Lemma two_cycle_propagates_once_witness :
  ∃ w1 w2 evs,
    onDomScroll "A" pairWorld = Some (tt, w1)
    ∧ dispatchScroll "B" w1 = Some (tt, w2)
    ∧ trace w2 = trace pairWorld ++ evs
    ∧ callsOf "B" OnPartnerScroll evs
        = [PartnerCall "B" OnPartnerScroll "A" 30 40]
    ∧ callsTo "A" evs = [].
Proof.
  destruct (two_cycle_propagates_once pairWorld "A" "B"
              (set_partners (Some [("B", mkPartner "B" None)]) demoScroller)
              (set_partners (Some [("A", mkPartner "A" None)]) demoScroller)
              (mkPartner "A" None) (mkPartner "B" None) 100 100
              ltac:(discriminate) eq_refl eq_refl eq_refl eq_refl eq_refl
              eq_refl eq_refl eq_refl eq_refl eq_refl eq_refl eq_refl)
    as (_ & w1 & w2 & evs & H1 & H2 & H3 & H4 & H5 & _).
  exists w1, w2, evs. repeat split; assumption.
Defined.

(** ** The scroll-end method, suspension and user scrolls *)

Lemma onDomScrollEnd_run w me sm :
  heap w !! me = Some sm → linked w sm (partners sm) →
  ∃ w' sD,
    onDomScrollEnd me w = Some (tt, w')
    ∧ trace w' = trace w
        ++ propagation me OnPartnerScrollEnd
             (px (position sm)) (py (position sm)) sm
        ++ notifications ScrollEnd me (px (position sm)) (py (position sm)) sm
    ∧ heap w' !! me = Some sD
    ∧ core sD = core sm
    ∧ isScrolling sD = false
    ∧ (maySync sm = false ∨ me ∉ partnerIds (partners sm) →
         isReflecting sD = isReflecting sm)
    ∧ timers w' = timers w
    ∧ now w' = now w
    ∧ (∀ id, id ≠ me → skeleton <$> heap w' !! id = skeleton <$> heap w !! id)
    ∧ (maySync sm = false → ∀ id, id ≠ me → heap w' !! id = heap w !! id)
    ∧ (∀ id s', maySync sm = true → id ∈ partnerIds (partners sm) →
         heap w' !! id = Some s' → isReflecting s' = false).
Proof.
  intros Hm Hl.
  set (x := px (position sm)). set (y := py (position sm)).
  set (sE := set_trackingScrollTop (Some y)
               (set_trackingScrollLeft (Some x) (set_isScrolling false sm))).
  set (w3 := with_heap (<[me := sE]> (heap w)) (with_Ext_isScrolling false w)).
  assert (heap w3 !! me = Some sE) as HmE by apply lookup_insert_eq.
  assert (linked w3 sE (partners sE)) as HlE.
  { apply (linked_insert (with_Ext_isScrolling false w) me sm);
      [exact Hm|exact Hl]. }
  destruct (fire_run w3 ScrollEnd me x y sE HmE HlE)
    as (w' & Hrun & Hsh & Htr & Hout & Hin).
  destruct (sameShape_lookup _ _ _ _ Hsh HmE) as (sD & HmD & HskD).
  exists w', sD. split.
  { unfold onDomScrollEnd, getPosition.
    erewrite bind_Some; cycle 1.
    { erewrite bind_getScroller by exact Hm. reflexivity. }
    fold x y.
    erewrite bind_update by exact Hm.
    unfold bind at 1. unfold setExtIsScrolling at 1.
    erewrite bind_update by (simpl; apply lookup_insert_eq).
    simpl. rewrite insert_insert_eq. exact Hrun. }
  split; [exact Htr|]. split; [exact HmD|].
  split; [exact (core_skeleton _ _ HskD)|].
  split.
  { now destruct (skeleton_fields _ _ HskD) as (_ & _ & _ & _ & -> & _). }
  split.
  { intros Hc. rewrite (Hout me Hc), HmE in HmD. now injection HmD as <-. }
  destruct Hsh as (Ht & Hn & _ & Hh).
  split; [exact Ht|]. split; [exact Hn|].
  split.
  { intros id Hne. rewrite Hh. subst w3. simpl. now rewrite lookup_insert_ne. }
  split.
  { intros Hg id Hne. rewrite (Hout id (or_introl Hg)). subst w3. simpl.
    now rewrite lookup_insert_ne. }
  exact Hin.
Qed.

(** [resumePartnerSync] on a scroller whose count is not about to reach
    zero, or without [syncNow]: only the count changes. *)
Lemma resumePartnerSync_quiet w me s syncNow :
  heap w !! me = Some s →
  let s1 := if truthyCount (suspendSync s)
            then set_suspendSync (Some (default 0 (suspendSync s) - 1)) s
            else s in
  truthyCount (suspendSync s1) = true ∨ syncNow = false →
  resumePartnerSync me syncNow w
    = Some (tt, if truthyCount (suspendSync s)
                then with_heap (<[me := s1]> (heap w)) w else w).
Proof.
  intros Hm s1 Hq. unfold resumePartnerSync.
  erewrite bind_getScroller by exact Hm.
  subst s1. destruct (truthyCount (suspendSync s)) eqn:Ht; cbn [when].
  - erewrite bind_update by exact Hm.
    erewrite bind_getScroller by (simpl; apply lookup_insert_eq).
    destruct Hq as [->| ->]; [reflexivity|]. now rewrite andb_false_r.
  - unfold bind at 1. unfold ret at 1.
    erewrite bind_getScroller by exact Hm.
    destruct Hq as [Hq| ->]; [congruence|]. now rewrite andb_false_r.
Qed.

(** [resumePartnerSync(true)] when the count reaches zero: the position
    is sent to the partners as a scroll and as a scroll end. *)
Lemma resumePartnerSync_sync w me s :
  heap w !! me = Some s →
  let s1 := if truthyCount (suspendSync s)
            then set_suspendSync (Some (default 0 (suspendSync s) - 1)) s
            else s in
  truthyCount (suspendSync s1) = false →
  linked w s (partners s) →
  ∃ w' sC,
    resumePartnerSync me true w = Some (tt, w')
    ∧ trace w' = trace w
        ++ propagation me OnPartnerScroll
             (px (position s)) (py (position s)) s1
        ++ propagation me OnPartnerScrollEnd
             (px (position s)) (py (position s)) sC
    ∧ skeleton sC = skeleton s1
    ∧ (maySync s1 = false ∨ me ∉ partnerIds (partners s) → sC = s1)
    ∧ timers w' = timers w ∧ now w' = now w
    ∧ (∀ id, skeleton <$> heap w' !! id
             = skeleton <$> (if decide (id = me) then Some s1 else heap w !! id))
    ∧ (me ∉ partnerIds (partners s) → heap w' !! me = Some s1).
Proof.
  intros Hm s1 Hz Hl.
  set (w1 := if truthyCount (suspendSync s)
             then with_heap (<[me := s1]> (heap w)) w else w).
  assert (heap w1 !! me = Some s1) as Hm1.
  { subst w1 s1. destruct (truthyCount (suspendSync s));
      [apply lookup_insert_eq|exact Hm]. }
  assert (linked w1 s1 (partners s1)) as Hl1.
  { subst w1 s1. destruct (truthyCount (suspendSync s)); [|exact Hl].
    apply (linked_insert w me s); [exact Hm|exact Hl]. }
  assert (∀ id, heap w1 !! id = if decide (id = me) then Some s1 else heap w !! id)
    as Hw1.
  { intros id. destruct (decide (id = me)) as [->|Hne]; [exact Hm1|].
    subst w1. destruct (truthyCount (suspendSync s)); [|reflexivity].
    simpl. now rewrite lookup_insert_ne. }
  assert (position s1 = position s ∧ partners s1 = partners s) as [Hpos Hps].
  { subst s1. now destruct (truthyCount (suspendSync s)). }
  destruct (invokePartners_run w1 me OnPartnerScroll
              (px (position s)) (py (position s)) s1 Hm1 Hl1)
    as (w2 & Hrun2 & Hsh2 & Htr2 & Hout2 & _).
  destruct (sameShape_lookup _ _ _ _ Hsh2 Hm1) as (sC & HmC & HskC).
  assert (linked w2 sC (partners sC)) as HlC.
  { replace (partners sC) with (partners s1)
      by (unfold partners; now rewrite (skeleton_partners _ _ HskC)).
    exact (linked_sameShape _ _ _ _ _ Hsh2 HskC Hl1). }
  destruct (invokePartners_run w2 me OnPartnerScrollEnd
              (px (position s)) (py (position s)) sC HmC HlC)
    as (w' & Hrun & Hsh & Htr & Hout & _).
  exists w', sC. split.
  { unfold resumePartnerSync.
    erewrite bind_getScroller by exact Hm.
    assert ((when (truthyCount (suspendSync s))
               (update me (λ s0, set_suspendSync
                                   (Some (default 0 (suspendSync s0) - 1)) s0)))
              w = Some (tt, w1)) as Hhead.
    { subst w1 s1. destruct (truthyCount (suspendSync s)); cbn [when];
        [rewrite (update_Some _ _ _ _ Hm); reflexivity|reflexivity]. }
    rewrite (bind_Some _ _ _ _ _ Hhead).
    erewrite bind_getScroller by exact Hm1.
    rewrite Hz. cbn [negb andb when]. unfold getPosition.
    erewrite bind_Some; cycle 1.
    { erewrite bind_getScroller by exact Hm1. reflexivity. }
    rewrite Hpos. rewrite (bind_Some _ _ _ _ _ Hrun2). exact Hrun. }
  split.
  { rewrite Htr, Htr2. subst w1.
    destruct (truthyCount (suspendSync s)); simpl; now rewrite <- app_assoc. }
  split; [exact HskC|].
  split.
  { intros Hc. rewrite <- Hps in Hc. rewrite (Hout2 me Hc), Hm1 in HmC.
    now injection HmC. }
  destruct Hsh as (Ht & Hn & _ & Hh), Hsh2 as (Ht2 & Hn2 & _ & Hh2).
  split.
  { rewrite Ht, Ht2. subst w1. now destruct (truthyCount (suspendSync s)). }
  split.
  { rewrite Hn, Hn2. subst w1. now destruct (truthyCount (suspendSync s)). }
  split; [intros id; now rewrite Hh, Hh2, Hw1|].
  intros Hc.
  assert (partners sC = partners s) as HpC.
  { unfold partners. rewrite (skeleton_partners _ _ HskC). exact Hps. }
  rewrite (Hout me) by (right; now rewrite HpC).
  rewrite (Hout2 me) by (right; now rewrite Hps). exact Hm1.
Qed.

(** ** Axis filter (C6) *)

(** C6. When the entry A keeps for B names the axis ['y'],
    [B.onPartnerScroll(A, x, y)] nulls the x coordinate before it is
    applied: the call is [doScrollTo(null, y, false, true)], and B keeps
    its x offset; with the axis ['x'] the y coordinate is nulled and B
    keeps its y offset. *)
Theorem partner_scroll_axis_filter
    (w : World) (A B : string) (a b : Scroller)
    (ps : list (string * Partner)) (entry : Partner) (ax : string) (x y : Z) :
  heap w !! A = Some a → heap w !! B = Some b →
  _partners a = Some ps → objGet B ps = Some entry →
  axis entry = Some ax →
  ax = "y" ∨ ax = "x" →
  onPartnerScroll B A x y w
    = doScrollTo B (if decide (ax = "y") then VNull else VNum x)
        (if decide (ax = "x") then VNull else VNum y) (VBool false) true w
  ∧ ∃ w' b',
      onPartnerScroll B A x y w = Some (tt, w')
      ∧ heap w' !! B = Some b'
      ∧ (ax = "y" → keepsX b b')
      ∧ (ax = "x" → keepsY b b').
Proof.
  intros HA HB Hps Hg Hax Hcase.
  rewrite (onPartnerScroll_run w B A a ps entry x y HA Hps Hg), Hax.
  destruct Hcase as [-> | ->]; simpl.
  - split; [reflexivity|].
    destruct (doScrollTo_null_x w B b (VNum y) (VBool false) true HB)
      as (w' & b' & Hrun & Hb' & Hk).
    exists w', b'. split; [exact Hrun|]. split; [exact Hb'|].
    split; [intros _; exact Hk|intros Hf; discriminate Hf].
  - split; [reflexivity|].
    destruct (doScrollTo_null_y w B b (VNum x) (VBool false) true HB)
      as (w' & b' & Hrun & Hb' & Hk).
    exists w', b'. split; [exact Hrun|]. split; [exact Hb'|].
    split; [intros Hf; discriminate Hf|intros _; exact Hk].
Qed.

Lemma partner_scroll_axis_filter_witness :
  onPartnerScroll "B" "A" 7 9 verticalWorld
    = doScrollTo "B" VNull (VNum 9) (VBool false) true verticalWorld
  ∧ ∃ w' b',
      onPartnerScroll "B" "A" 7 9 verticalWorld = Some (tt, w')
      ∧ heap w' !! "B" = Some b'
      ∧ px (position b') = 30 ∧ py (position b') = 9.
Proof.
  destruct (partner_scroll_axis_filter verticalWorld "A" "B"
              (set_partners (Some [("B", mkPartner "B" (Some "y"))]) demoScroller)
              (set_partners (Some [("A", mkPartner "A" (Some "y"))]) demoScroller)
              [("B", mkPartner "B" (Some "y"))] (mkPartner "B" (Some "y"))
              "y" 7 9 eq_refl eq_refl eq_refl eq_refl eq_refl
              (or_introl eq_refl))
    as (Hcall & w' & b' & Hrun & Hb' & [Hk _] & _); [reflexivity|].
  split; [exact Hcall|].
  exists w', b'. split; [exact Hrun|]. split; [exact Hb'|].
  split; [exact Hk|].
  vm_compute in Hrun. injection Hrun as <-.
  vm_compute in Hb'. now injection Hb' as <-.
Defined.

Lemma linked_dom w w' s s' ps :
  (∀ id, is_Some (heap w !! id) → is_Some (heap w' !! id)) →
  _partners s' = _partners s →
  linked w s ps → linked w' s' ps.
Proof.
  intros Hdom Hp H. unfold linked in *. eapply Forall_impl; [exact H|].
  simpl. intros e [Hs Hg]. split; [now apply Hdom|].
  unfold partners. now rewrite Hp.
Qed.

Lemma linked_dom_self w w' s s' :
  (∀ id, is_Some (heap w !! id) → is_Some (heap w' !! id)) →
  _partners s' = _partners s →
  linked w s (partners s) → linked w' s' (partners s').
Proof.
  intros Hdom Hp H. replace (partners s') with (partners s)
    by (unfold partners; now rewrite Hp).
  exact (linked_dom _ _ _ _ _ Hdom Hp H).
Qed.

Lemma is_Some_skeleton (h h' : gmap string Scroller) id :
  skeleton <$> h' !! id = skeleton <$> h !! id →
  is_Some (h !! id) → is_Some (h' !! id).
Proof.
  intros H [s Hs]. rewrite Hs in H.
  destruct (h' !! id); [eexists; reflexivity|discriminate].
Qed.

(** A scroll of the user on a scroller that may not synchronise: its own
    notifications, no partner call. *)
Lemma userScroll_guarded w me s q el p :
  heap w !! me = Some s → linked w s (partners s) →
  maySync s = false → restoring s = false →
  bufferedScrollEnd s = Some q → scrollListener s = true →
  scrollElement s = Some el → surfaceDestroyed el = false →
  ∃ w' s',
    userScroll me p w = Some (tt, w')
    ∧ calls (trace w') = calls (trace w)
    ∧ heap w' !! me = Some s'
    ∧ core s' = core s
    ∧ isReflecting s' = isReflecting s
    ∧ position s' = p
    ∧ scrollElement s' = Some (mkSurface (px p) (py p) false)
    ∧ (∀ id, is_Some (heap w !! id) → is_Some (heap w' !! id)).
Proof.
  intros Hm Hl Hg Hr Hq Hls Hel Hd.
  set (s0 := set_scrollElement
               ((λ el, mkSurface (px p) (py p) (surfaceDestroyed el))
                  <$> scrollElement s) s).
  set (w0 := with_heap (<[me := s0]> (heap w)) w).
  assert (heap w0 !! me = Some s0) as Hm0 by apply lookup_insert_eq.
  assert (linked w0 s0 (partners s0)) as Hl0.
  { apply (linked_insert w me s); [exact Hm|exact Hl]. }
  assert (domPosition s0 = p) as Hdp.
  { unfold domPosition, s0. rewrite Hel. simpl. rewrite Hd. now destruct p. }
  destruct (onDomScroll_run w0 me s0 q Hm0 Hl0 Hr Hq)
    as (w' & sC & sD & Hrun & Htr & HcC & HrC & HD & HcD & _ & HsD & _ & _
        & Hsk & _).
  exists w', sD. split.
  { unfold userScroll. erewrite bind_update by exact Hm. fold s0 w0.
    unfold dispatchScroll. erewrite bind_getScroller by exact Hm0.
    replace (scrollListener s0) with true by (symmetry; exact Hls).
    exact Hrun. }
  split.
  { rewrite Htr.
    rewrite (propagation_core me OnPartnerScroll _ _ s0 sC HcC
               (HrC (or_intror (or_introl Hg)))).
    rewrite !(propagation_guarded _ _ _ _ s0 Hg).
    destruct (isScrolling s0); read_trace; reflexivity. }
  split; [exact HD|].
  specialize (HsD (or_introl Hg)). subst sD.
  split; [reflexivity|]. split; [reflexivity|].
  split; [exact Hdp|].
  split.
  { simpl. rewrite Hel. simpl. now rewrite Hd. }
  intros id His. destruct (decide (id = me)) as [->|Hne];
    [eexists; exact HD|].
  apply (is_Some_skeleton _ _ _ (Hsk id Hne)). subst w0. simpl.
  now rewrite lookup_insert_ne.
Qed.

Lemma userScrolls_guarded offsets :
  ∀ w me s q el,
    heap w !! me = Some s → linked w s (partners s) →
    maySync s = false → restoring s = false →
    bufferedScrollEnd s = Some q → scrollListener s = true →
    scrollElement s = Some el → surfaceDestroyed el = false →
    ∃ w' s',
      forEach offsets (userScroll me) w = Some (tt, w')
      ∧ calls (trace w') = calls (trace w)
      ∧ heap w' !! me = Some s'
      ∧ core s' = core s
      ∧ isReflecting s' = isReflecting s
      ∧ position s' = default (position s) (last offsets)
      ∧ (∀ id, is_Some (heap w !! id) → is_Some (heap w' !! id)).
Proof.
  induction offsets as [|p offsets IH]; intros w me s q el Hm Hl Hg Hr Hq Hls Hel Hd.
  - exists w, s. repeat split; auto.
  - destruct (userScroll_guarded w me s q el p Hm Hl Hg Hr Hq Hls Hel Hd)
      as (w1 & s1 & Hrun1 & Hc1 & Hm1 & Hco1 & Hr1 & Hp1 & He1 & Hdom1).
    destruct (core_fields _ _ Hco1)
      as (_ & _ & Hps1 & Hss1 & Hrs1 & Hq1 & Hls1 & _).
    assert (maySync s1 = false) as Hg1.
    { unfold maySync in *. now rewrite Hss1, Hr1. }
    destruct (IH w1 me s1 q (mkSurface (px p) (py p) false) Hm1
                (linked_dom_self _ _ _ _ Hdom1 Hps1 Hl) Hg1
                ltac:(congruence) ltac:(congruence) ltac:(congruence)
                He1 eq_refl)
      as (w' & s' & Hrun & Hc & Hm' & Hco & Hr' & Hp' & Hdom).
    exists w', s'. split.
    { simpl. now rewrite (bind_Some _ _ _ _ _ Hrun1). }
    split; [congruence|]. split; [exact Hm'|].
    split; [congruence|]. split; [congruence|].
    split.
    { rewrite Hp', Hp1, last_cons. now destruct (last offsets). }
    intros id His. apply Hdom, Hdom1, His.
Qed.

(** ** Suspension (C3, C10) *)

Lemma lookup_skeleton (h : gmap string Scroller) id s :
  skeleton <$> h !! id = skeleton <$> Some s →
  ∃ s', h !! id = Some s' ∧ skeleton s' = skeleton s.
Proof.
  destruct (h !! id) as [s'|]; intros H; [|discriminate].
  exists s'. split; [reflexivity|]. simpl in H. congruence.
Qed.

(** C3. While the count [suspendSync] of a scroller is not zero, its
    scrolls reach no partner.  [resumePartnerSync(true)] lowers the count;
    when that brings it to zero, every partner receives one
    [onPartnerScroll] and then one [onPartnerScrollEnd], both with the
    position the scroller has by then (that of its last scroll); while the
    count stays above zero nothing is propagated. *)
Theorem suspended_scrolls_then_resume
    (w : World) (A : string) (a : Scroller) (q n : Z) (el : Surface)
    (offsets : list Pos) :
  heap w !! A = Some a → linked w a (partners a) →
  A ∉ partnerIds (partners a) →
  suspendSync a = Some n → 1 ≤ n →
  isReflecting a = false → restoring a = false →
  bufferedScrollEnd a = Some q → scrollListener a = true →
  scrollElement a = Some el → surfaceDestroyed el = false →
  ∃ w1 a1,
    forEach offsets (userScroll A) w = Some (tt, w1)
    ∧ calls (trace w1) = calls (trace w)
    ∧ heap w1 !! A = Some a1
    ∧ position a1 = default (position a) (last offsets)
    ∧ suspendSync a1 = Some n
    ∧ ∃ w2 a2,
        resumePartnerSync A true w1 = Some (tt, w2)
        ∧ heap w2 !! A = Some a2
        ∧ suspendSync a2 = Some (n - 1)
        ∧ (n = 1 →
           trace w2 = trace w1
             ++ partnerCalls A OnPartnerScroll
                  (px (position a1)) (py (position a1)) (partners a)
             ++ partnerCalls A OnPartnerScrollEnd
                  (px (position a1)) (py (position a1)) (partners a))
        ∧ (1 < n → trace w2 = trace w1).
Proof.
  intros HA Hl HAout Hn Hn1 Hrf Hr Hq Hls Hel Hd.
  assert (truthyCount (Some n) = true) as Htn.
  { simpl. destruct (Z.eqb_spec n 0); [lia|reflexivity]. }
  assert (maySync a = false) as Hg.
  { apply maySync_suspended. now rewrite Hn. }
  destruct (userScrolls_guarded offsets w A a q el HA Hl Hg Hr Hq Hls Hel Hd)
    as (w1 & a1 & Hrun1 & Hc1 & HA1 & Hco1 & Hr1 & Hp1 & Hdom1).
  destruct (core_fields _ _ Hco1) as (_ & _ & Hps1 & Hss1 & _).
  assert (partners a1 = partners a) as Hps1'.
  { unfold partners. now rewrite Hps1. }
  exists w1, a1. split; [exact Hrun1|]. split; [exact Hc1|].
  split; [exact HA1|]. split; [exact Hp1|]. split; [congruence|].
  pose proof (linked_dom_self _ _ _ _ Hdom1 Hps1 Hl) as Hl1.
  set (s1 := set_suspendSync (Some (default 0 (suspendSync a1) - 1)) a1).
  destruct (decide (n = 1)) as [->|Hne].
  - (* the count reaches zero *)
    destruct (resumePartnerSync_sync w1 A a1 HA1) as
      (w2 & sC & Hrun2 & Htr2 & HskC & HsC & _ & _ & Hh2 & _).
    { rewrite Hss1, Hn. reflexivity. }
    { exact Hl1. }
    rewrite Hss1, Hn in Htr2, HskC, HsC, Hh2. cbn [truthyCount Z.eqb negb] in *.
    assert (sC = set_suspendSync (Some (default 0 (Some 1) - 1)) a1) as ->.
    { apply HsC. right. now rewrite Hps1'. }
    assert (∃ a2, heap w2 !! A = Some a2
                  ∧ skeleton a2
                    = skeleton (set_suspendSync (Some (default 0 (Some 1) - 1)) a1))
      as (a2 & HA2 & Hsk2).
    { specialize (Hh2 A). rewrite decide_True in Hh2 by reflexivity.
      exact (lookup_skeleton _ _ _ Hh2). }
    exists w2, a2. split; [exact Hrun2|]. split; [exact HA2|].
    split.
    { destruct (skeleton_fields _ _ Hsk2) as (_ & _ & _ & -> & _). reflexivity. }
    split; [|lia].
    intros _. rewrite Htr2. unfold propagation, maySync. simpl.
    rewrite Hr1, Hrf. simpl.
    change (partners (set_suspendSync (Some (1 - 1)) a1)) with (partners a1).
    now rewrite Hps1'.
  - (* the count stays above zero *)
    assert (truthyCount (Some (n - 1)) = true) as Htn1.
    { simpl. destruct (Z.eqb_spec (n - 1) 0); [lia|reflexivity]. }
    pose proof (resumePartnerSync_quiet w1 A a1 true HA1) as Hrun2.
    rewrite Hss1, Hn in Hrun2. rewrite Htn in Hrun2. simpl in Hrun2.
    specialize (Hrun2 (or_introl Htn1)).
    eexists _, _. split; [exact Hrun2|]. split; [apply lookup_insert_eq|].
    split; [reflexivity|]. split; [lia|]. reflexivity.
Qed.

Lemma suspended_scrolls_then_resume_witness :
  ∃ w1 w2,
    forEach [mkPos 1 2; mkPos 3 4; mkPos 5 6] (userScroll "A") suspendedWorld
      = Some (tt, w1)
    ∧ calls (trace w1) = []
    ∧ resumePartnerSync "A" true w1 = Some (tt, w2)
    ∧ calls (trace w2)
        = [PartnerCall "B" OnPartnerScroll "A" 5 6;
           PartnerCall "B" OnPartnerScrollEnd "A" 5 6].
Proof.
  destruct (suspended_scrolls_then_resume suspendedWorld "A"
              (set_suspendSync (Some 1)
                 (set_partners (Some [("B", mkPartner "B" None)]) demoScroller))
              100 1 (mkSurface 30 40 false)
              [mkPos 1 2; mkPos 3 4; mkPos 5 6])
    as (w1 & a1 & H1 & H2 & H3 & H4 & H5 & w2 & a2 & H6 & H7 & H8 & H9 & _);
    try reflexivity.
  { unfold linked. simpl. repeat constructor; eexists; reflexivity. }
  { simpl. intros H. apply list_elem_of_singleton in H. discriminate. }
  exists w1, w2. split; [exact H1|]. split; [exact H2|]. split; [exact H6|].
  rewrite (H9 eq_refl), calls_app, H2, H4. reflexivity.
Defined.

Lemma truthyCount_default c :
  truthyCount c = negb (default 0 c =? 0).
Proof. now destruct c. Qed.




(** ** User scrolls in general *)

Lemma userScroll_run w me s q p :
  heap w !! me = Some s → linked w s (partners s) →
  restoring s = false → bufferedScrollEnd s = Some q →
  scrollListener s = true →
  ∃ w' s' evs,
    userScroll me p w = Some (tt, w')
    ∧ heap w' !! me = Some s'
    ∧ core s' = core s
    ∧ isScrolling s' = true
    ∧ (maySync s = false ∨ me ∉ partnerIds (partners s) →
         isReflecting s' = isReflecting s)
    ∧ timers w' = filter (λ t, t.1 ≠ me) (timers w) ++ [(me, now w + q)]
    ∧ now w' = now w
    ∧ trace w' = trace w ++ evs
    ∧ globalNames me evs
        = (if isScrolling s then [] else [ScrollStart]) ++ [Scroll]
    ∧ firedNames me evs
        = (if isScrolling s then []
           else if listensScrollStart (hasListeners s) then [ScrollStart] else [])
          ++ (if listensScroll (hasListeners s) then [Scroll] else [])
    ∧ (∀ id, is_Some (heap w !! id) → is_Some (heap w' !! id))
    ∧ (∀ id s0 s0', heap w !! id = Some s0 → heap w' !! id = Some s0' →
         isReflecting s0 = true → isReflecting s0' = true)
    ∧ (∀ id s0', maySync s = true → id ∈ partnerIds (partners s) →
         heap w' !! id = Some s0' → isReflecting s0' = true).
Proof.
  intros Hm Hl Hr Hq Hls.
  set (s0 := set_scrollElement
               ((λ el, mkSurface (px p) (py p) (surfaceDestroyed el))
                  <$> scrollElement s) s).
  set (w0 := with_heap (<[me := s0]> (heap w)) w).
  assert (heap w0 !! me = Some s0) as Hm0 by apply lookup_insert_eq.
  assert (linked w0 s0 (partners s0)) as Hl0.
  { apply (linked_insert w me s); [exact Hm|exact Hl]. }
  destruct (onDomScroll_run w0 me s0 q Hm0 Hl0 Hr Hq)
    as (w' & sC & sD & Hrun & Htr & HcC & HrC & HD & HcD & HscD & HsD & Ht & Hn
        & Hsk & Hmono & Hfl).
  eexists w', sD, _. split.
  { unfold userScroll. erewrite bind_update by exact Hm. fold s0 w0.
    unfold dispatchScroll. erewrite bind_getScroller by exact Hm0.
    replace (scrollListener s0) with true by (symmetry; exact Hls).
    exact Hrun. }
  split; [exact HD|]. split; [exact HcD|]. split; [exact HscD|].
  split.
  { intros Hc. rewrite (HsD Hc). reflexivity. }
  split; [exact Ht|]. split; [exact Hn|]. split; [exact Htr|].
  split.
  { replace (isScrolling s0) with (isScrolling s) by reflexivity.
    destruct (isScrolling s); read_trace; reflexivity. }
  split.
  { replace (isScrolling s0) with (isScrolling s) by reflexivity.
    destruct (isScrolling s); read_trace; reflexivity. }
  assert (∀ id s1, heap w !! id = Some s1 →
            ∃ s2, heap w0 !! id = Some s2 ∧ isReflecting s2 = isReflecting s1)
    as Hw0.
  { intros id s1 Hs1. subst w0. simpl.
    destruct (decide (me = id)) as [<-|Hne].
    - rewrite lookup_insert_eq. exists s0. split; [reflexivity|].
      rewrite Hm in Hs1. injection Hs1 as <-. reflexivity.
    - rewrite lookup_insert_ne by done. now exists s1. }
  split.
  { intros id His. destruct (decide (id = me)) as [->|Hne];
      [eexists; exact HD|].
    apply (is_Some_skeleton _ _ _ (Hsk id Hne)). subst w0. simpl.
    now rewrite lookup_insert_ne. }
  split.
  { intros id s1 s1' Hs1 Hs1' Hrf.
    destruct (Hw0 id s1 Hs1) as (s2 & Hs2 & Hr2).
    apply (Hmono id s2 s1' Hs2 Hs1'). congruence. }
  exact Hfl.
Qed.

Lemma userScrolls_run offsets :
  ∀ w me s q,
    heap w !! me = Some s → linked w s (partners s) →
    restoring s = false → bufferedScrollEnd s = Some q →
    scrollListener s = true →
    ∃ w' s',
      forEach offsets (userScroll me) w = Some (tt, w')
      ∧ heap w' !! me = Some s'
      ∧ core s' = core s
      ∧ (me ∉ partnerIds (partners s) → isReflecting s' = isReflecting s)
      ∧ (∀ id, is_Some (heap w !! id) → is_Some (heap w' !! id))
      ∧ (∀ id s0 s0', heap w !! id = Some s0 → heap w' !! id = Some s0' →
           isReflecting s0 = true → isReflecting s0' = true).
Proof.
  induction offsets as [|p offsets IH]; intros w me s q Hm Hl Hr Hq Hls.
  - exists w, s. repeat split; auto. intros id s0 s0' H1 H2. congruence.
  - destruct (userScroll_run w me s q p Hm Hl Hr Hq Hls)
      as (w1 & s1 & evs & Hrun1 & Hm1 & Hco1 & _ & Hrf1 & _ & _ & _ & _ & _
          & Hdom1 & Hmono1 & _).
    destruct (core_fields _ _ Hco1)
      as (_ & _ & Hps1 & _ & Hrs1 & Hq1 & Hls1 & _).
    destruct (IH w1 me s1 q Hm1 (linked_dom_self _ _ _ _ Hdom1 Hps1 Hl)
                ltac:(congruence) ltac:(congruence) ltac:(congruence))
      as (w' & s' & Hrun & Hm' & Hco & Hrf & Hdom & Hmono).
    exists w', s'. split.
    { simpl. now rewrite (bind_Some _ _ _ _ _ Hrun1). }
    split; [exact Hm'|]. split; [congruence|].
    split.
    { intros Hout. rewrite Hrf, Hrf1; auto.
      unfold partners. now rewrite Hps1. }
    split; [intros id His; apply Hdom, Hdom1, His|].
    intros id s0 s0' Hs0 Hs0' Hr0.
    destruct (Hdom1 id ltac:(eexists; exact Hs0)) as [s01 Hs01].
    apply (Hmono id s01 s0' Hs01 Hs0').
    exact (Hmono1 id s0 s01 Hs0 Hs01 Hr0).
Qed.

(** ** The reflecting flag (C4) *)

Lemma fire_guarded w name me x y s :
  heap w !! me = Some s → maySync s = false →
  fire name me x y w
    = Some (tt, with_trace (trace w ++ notifications name me x y s) w).
Proof.
  intros Hm Hg. rewrite fire_unfold.
  rewrite (bind_Some _ _ _ _ _ (invokePartners_guarded _ _ _ _ _ _ Hm Hg)).
  erewrite bind_getScroller by exact Hm. unfold notifications.
  destruct (listens name (hasListeners s)), (hasHook name (component s));
    unfold bind, emit; simpl; rewrite <- ?app_assoc; reflexivity.
Qed.

(** The scroll end of a scroller that is reflecting leaves its flag set. *)
Lemma onDomScrollEnd_reflecting w me s :
  heap w !! me = Some s → isReflecting s = true →
  ∃ w' s', onDomScrollEnd me w = Some (tt, w')
    ∧ heap w' !! me = Some s' ∧ isReflecting s' = true
    ∧ calls (trace w') = calls (trace w).
Proof.
  intros Hm Hr. unfold onDomScrollEnd, getPosition.
  erewrite bind_Some; cycle 1.
  { erewrite bind_getScroller by exact Hm. reflexivity. }
  erewrite bind_update by exact Hm.
  unfold bind at 1. unfold setExtIsScrolling at 1.
  erewrite bind_update by (simpl; apply lookup_insert_eq).
  match goal with
  | |- context [fireScrollEnd me ?x ?y] =>
      change (fireScrollEnd me x y) with (fire ScrollEnd me x y)
  end.
  erewrite fire_guarded; cycle 1.
  { simpl. apply lookup_insert_eq. }
  { apply maySync_reflecting. exact Hr. }
  eexists _, _. split; [reflexivity|]. simpl.
  split; [apply lookup_insert_eq|]. split; [exact Hr|].
  read_trace. reflexivity.
Qed.

(** C4, as the code has it.  A partner P that A's propagation put into
    the reflecting state keeps its flag across every further scroll move
    of A, and across its own scroll end; the flag is cleared when A, the
    scroller that started the propagation, ends its scroll and calls
    [onPartnerScrollEnd] on P. *)
Theorem reflecting_until_originator_ends
    (w : World) (A P : string) (a : Scroller) (q : Z) (first : Pos)
    (moves : list Pos) :
  heap w !! A = Some a → linked w a (partners a) →
  maySync a = true →
  A ∉ partnerIds (partners a) → P ∈ partnerIds (partners a) →
  restoring a = false → bufferedScrollEnd a = Some q →
  scrollListener a = true →
  ∃ w1 p1,
    userScroll A first w = Some (tt, w1)
    ∧ heap w1 !! P = Some p1 ∧ isReflecting p1 = true
    ∧ ∃ w2 p2,
        forEach moves (userScroll A) w1 = Some (tt, w2)
        ∧ heap w2 !! P = Some p2 ∧ isReflecting p2 = true
        ∧ (∃ w3 p3, onDomScrollEnd P w2 = Some (tt, w3)
             ∧ heap w3 !! P = Some p3 ∧ isReflecting p3 = true)
        ∧ (∃ w4 p4, onDomScrollEnd A w2 = Some (tt, w4)
             ∧ heap w4 !! P = Some p4 ∧ isReflecting p4 = false).
Proof.
  intros HA Hl Hg HAout HPin Hr Hq Hls.
  assert (is_Some (heap w !! P)) as HP.
  { unfold linked in Hl. rewrite Forall_forall in Hl.
    unfold partnerIds in HPin. apply list_elem_of_fmap in HPin as (e & -> & He).
    apply (Hl e He). }
  destruct (userScroll_run w A a q first HA Hl Hr Hq Hls)
    as (w1 & a1 & evs & Hrun1 & HA1 & Hco1 & _ & Hrf1 & _ & _ & _ & _ & _
        & Hdom1 & _ & Hfl1).
  destruct (Hdom1 P HP) as [p1 HP1].
  pose proof (Hfl1 P p1 Hg HPin HP1) as Hp1.
  exists w1, p1. split; [exact Hrun1|]. split; [exact HP1|]. split; [exact Hp1|].
  destruct (core_fields _ _ Hco1)
    as (_ & _ & Hps1 & Hss1 & Hrs1 & Hq1 & Hls1 & _).
  assert (partners a1 = partners a) as Hps1'.
  { unfold partners. now rewrite Hps1. }
  pose proof (linked_dom_self _ _ _ _ Hdom1 Hps1 Hl) as Hl1.
  destruct (userScrolls_run moves w1 A a1 q HA1 Hl1
              ltac:(congruence) ltac:(congruence) ltac:(congruence))
    as (w2 & a2 & Hrun2 & HA2 & Hco2 & Hrf2 & Hdom2 & Hmono2).
  destruct (Hdom2 P ltac:(eexists; exact HP1)) as [p2 HP2].
  pose proof (Hmono2 P p1 p2 HP1 HP2 Hp1) as Hp2.
  exists w2, p2. split; [exact Hrun2|]. split; [exact HP2|]. split; [exact Hp2|].
  split.
  - destruct (onDomScrollEnd_reflecting w2 P p2 HP2 Hp2)
      as (w3 & p3 & Hrun3 & HP3 & Hp3 & _).
    now exists w3, p3.
  - destruct (core_fields _ _ Hco2) as (_ & _ & Hps2 & Hss2 & _).
    assert (partners a2 = partners a) as Hps2'.
    { unfold partners. now rewrite Hps2, Hps1. }
    pose proof (linked_dom_self _ _ _ _ Hdom2 Hps2 Hl1) as Hl2.
    assert (maySync a2 = true) as Hg2.
    { unfold maySync in *. rewrite Hss2, Hss1.
      rewrite Hrf2 by (now rewrite Hps1').
      rewrite Hrf1 by (now right). exact Hg. }
    destruct (onDomScrollEnd_run w2 A a2 HA2 Hl2)
      as (w4 & a4 & Hrun4 & _ & _ & _ & _ & _ & _ & _ & Hsk4 & _ & Hfl4).
    assert (P ≠ A) as Hne by (intros ->; contradiction).
    destruct (is_Some_skeleton _ _ _ (Hsk4 P Hne) ltac:(eexists; exact HP2))
      as [p4 HP4].
    exists w4, p4. split; [exact Hrun4|]. split; [exact HP4|].
    apply (Hfl4 P p4 Hg2); [now rewrite Hps2'|exact HP4].
Qed.

Lemma reflecting_until_originator_ends_witness :
  ∃ w1 w2 w3 w4,
    userScroll "A" (mkPos 1 2) pairWorld = Some (tt, w1)
    ∧ isReflecting <$> heap w1 !! "B" = Some true
    ∧ forEach [mkPos 3 4; mkPos 5 6] (userScroll "A") w1 = Some (tt, w2)
    ∧ isReflecting <$> heap w2 !! "B" = Some true
    ∧ onDomScrollEnd "B" w2 = Some (tt, w3)
    ∧ isReflecting <$> heap w3 !! "B" = Some true
    ∧ onDomScrollEnd "A" w2 = Some (tt, w4)
    ∧ isReflecting <$> heap w4 !! "B" = Some false.
Proof.
  destruct (reflecting_until_originator_ends pairWorld "A" "B"
              (set_partners (Some [("B", mkPartner "B" None)]) demoScroller)
              100 (mkPos 1 2) [mkPos 3 4; mkPos 5 6] eq_refl)
    as (w1 & p1 & H1 & HP1 & Hp1 & w2 & p2 & H2 & HP2 & Hp2
        & (w3 & p3 & H3 & HP3 & Hp3) & (w4 & p4 & H4 & HP4 & Hp4));
    try reflexivity.
  { unfold linked. simpl. repeat constructor; eexists; reflexivity. }
  { simpl. intros H. apply list_elem_of_singleton in H. discriminate. }
  { simpl. apply list_elem_of_singleton. reflexivity. }
  exists w1, w2, w3, w4.
  rewrite HP1, HP2, HP3, HP4. simpl. rewrite Hp1, Hp2, Hp3, Hp4.
  repeat split; assumption.
Defined.

(** C4 as the specification words it fails.  A and B are partners on
    the y axis.  A moves down and then, 60ms later, sideways only: the
    element of B follows the first move and reports it, and is left where
    it is by the second, so the buffered scroll end of B fires while A
    is still scrolling.  The flag of B survives B's own scroll end; it is
    cleared later, by the scroll end of A. *)
Lemma reflecting_cleared_by_own_scroll_end_counterexample :
  ∃ w1 w2,
    (userScroll "A" (mkPos 30 2) >> dispatchScroll "B" >> elapse 60 >>
     userScroll "A" (mkPos 35 2) >> elapse 60) verticalWorld = Some (tt, w1)
    ∧ globalNames "B" (trace w1) = [ScrollStart; Scroll; ScrollEnd]
    ∧ globalNames "A" (trace w1) = [ScrollStart; Scroll; Scroll]
    ∧ isReflecting <$> heap w1 !! "B" = Some true
    ∧ elapse 60 w1 = Some (tt, w2)
    ∧ globalNames "A" (trace w2) = [ScrollStart; Scroll; Scroll; ScrollEnd]
    ∧ globalNames "B" (trace w2) = [ScrollStart; Scroll; ScrollEnd]
    ∧ isReflecting <$> heap w2 !! "B" = Some false.
Proof.
  eexists _, _.
  split; [vm_compute; reflexivity|].
  split; [vm_compute; reflexivity|].
  split; [vm_compute; reflexivity|].
  split; [vm_compute; reflexivity|].
  split; [vm_compute; reflexivity|].
  split; [vm_compute; reflexivity|].
  split; vm_compute; reflexivity.
Qed.

(** ** The buffered scroll end (C2) *)


Lemma keepsCore_refl w : keepsCore w w.
Proof. intros id s Hs. now exists s. Qed.

Lemma keepsCore_trans w1 w2 w3 :
  keepsCore w1 w2 → keepsCore w2 w3 → keepsCore w1 w3.
Proof.
  intros H12 H23 id s Hs.
  destruct (H12 id s Hs) as (s2 & Hs2 & Hc2).
  destruct (H23 id s2 Hs2) as (s3 & Hs3 & Hc3).
  exists s3. split; [exact Hs3|congruence].
Qed.

Lemma keepsCore_dom w w' id :
  keepsCore w w' → is_Some (heap w !! id) → is_Some (heap w' !! id).
Proof.
  intros H [s Hs]. destruct (H id s Hs) as (s' & Hs' & _). eexists; exact Hs'.
Qed.

Lemma linked_keepsCore w w' s s' :
  keepsCore w w' → core s' = core s →
  linked w s (partners s) → linked w' s' (partners s').
Proof.
  intros Hk Hc. apply linked_dom_self.
  - intros id. apply keepsCore_dom, Hk.
  - now destruct (core_fields _ _ Hc) as (_ & _ & -> & _).
Qed.

Lemma keepsCore_of_skeleton w w' me :
  (∀ id, id ≠ me → skeleton <$> heap w' !! id = skeleton <$> heap w !! id) →
  (∀ s, heap w !! me = Some s →
        ∃ s', heap w' !! me = Some s' ∧ core s' = core s) →
  keepsCore w w'.
Proof.
  intros Hsk Hme id s Hs. destruct (decide (id = me)) as [->|Hne].
  - exact (Hme s Hs).
  - specialize (Hsk id Hne). rewrite Hs in Hsk.
    destruct (lookup_skeleton _ _ _ Hsk) as (s' & Hs' & Hsk').
    exists s'. split; [exact Hs'|]. exact (core_skeleton _ _ Hsk').
Qed.

Lemma timersLive_keepsCore (w w' : World) :
  keepsCore w w' → timers w' = timers w → timersLive w → timersLive w'.
Proof.
  intros Hk Ht [Hlive Hnd]. unfold timersLive. rewrite Ht.
  split; [|exact Hnd].
  eapply Forall_impl; [exact Hlive|]. simpl.
  intros e (s & Hs & Hl). destruct (Hk _ _ Hs) as (s' & Hs' & Hc).
  exists s'. split; [exact Hs'|]. exact (linked_keepsCore _ _ _ _ Hk Hc Hl).
Qed.

Lemma insertTimer_perm a l : insertTimer a l ≡ₚ a :: l.
Proof.
  induction l as [|b l IH]; simpl; [reflexivity|].
  destruct (a.2 <=? b.2); [reflexivity|].
  rewrite IH. apply Permutation_swap.
Qed.

Lemma dueTimers_perm t l : dueTimers t l ≡ₚ filter (λ e, e.2 ≤ t) l.
Proof.
  unfold dueTimers. induction (filter (λ e, e.2 ≤ t) l) as [|a k IH]; simpl;
    [reflexivity|].
  now rewrite insertTimer_perm, IH.
Qed.

Lemma elem_of_dueTimers t l e : e ∈ dueTimers t l ↔ e.2 ≤ t ∧ e ∈ l.
Proof. rewrite dueTimers_perm. apply (list_elem_of_filter (λ e, e.2 ≤ t)). Qed.

Lemma NoDup_fst_unique {A B : Type} (l : list (A * B)) e e' :
  NoDup l.*1 → e ∈ l → e' ∈ l → e.1 = e'.1 → e = e'.
Proof.
  induction l as [|a l IH]; intros Hnd He He' Heq.
  - now apply elem_of_nil in He.
  - rewrite fmap_cons in Hnd. apply NoDup_cons in Hnd as [Hnotin Hnd].
    apply elem_of_cons in He as [->|He]; apply elem_of_cons in He' as [->|He'].
    + reflexivity.
    + exfalso. apply Hnotin. rewrite Heq. now apply list_elem_of_fmap_2.
    + exfalso. apply Hnotin. rewrite <- Heq. now apply list_elem_of_fmap_2.
    + now apply IH.
Qed.

Lemma NoDup_fst_filter {A B : Type} (P : A * B → Prop)
    `{∀ x, Decision (P x)} (l : list (A * B)) :
  NoDup l.*1 → NoDup (filter P l).*1.
Proof.
  induction l as [|a l IH]; intros Hnd; [constructor|].
  rewrite fmap_cons in Hnd. apply NoDup_cons in Hnd as [Hnotin Hnd].
  rewrite filter_cons. destruct (decide (P a)); [|now apply IH].
  rewrite fmap_cons. apply NoDup_cons. split; [|now apply IH].
  intros Hin. apply Hnotin.
  apply list_elem_of_fmap in Hin as (x & -> & Hx).
  apply list_elem_of_filter in Hx as [_ Hx]. now apply list_elem_of_fmap_2.
Qed.

Lemma filter_ext_in {A : Type} (P Q : A → Prop)
    `{∀ x, Decision (P x)} `{∀ x, Decision (Q x)} (l : list A) :
  (∀ x, x ∈ l → (P x ↔ Q x)) → filter P l = filter Q l.
Proof.
  induction l as [|a l IH]; intros Hext; [reflexivity|].
  rewrite !filter_cons.
  assert (filter P l = filter Q l) as ->.
  { apply IH. intros x Hx. apply Hext. now right. }
  destruct (decide (P a)) as [HP|HP], (decide (Q a)) as [HQ|HQ];
    try reflexivity; exfalso.
  - apply HQ, (Hext a); [left|exact HP].
  - apply HP, (Hext a); [left|exact HQ].
Qed.

(** One timeout fires. *)
Lemma fireTimer_run w e s :
  heap w !! e.1 = Some s → linked w s (partners s) →
  ∃ w' s' evs,
    fireTimer e w = Some (tt, w')
    ∧ timers w' = filter (λ e', e'.1 ≠ e.1) (timers w)
    ∧ now w' = Z.max (now w) e.2
    ∧ trace w' = trace w ++ evs
    ∧ globalNames e.1 evs = [ScrollEnd]
    ∧ firedNames e.1 evs
        = (if listensScrollEnd (hasListeners s) then [ScrollEnd] else [])
    ∧ (∀ id, id ≠ e.1 → globalNames id evs = [] ∧ firedNames id evs = [])
    ∧ heap w' !! e.1 = Some s'
    ∧ core s' = core s
    ∧ isScrolling s' = false
    ∧ (∀ id, id ≠ e.1 →
         skeleton <$> heap w' !! id = skeleton <$> heap w !! id).
Proof.
  intros Hm Hl.
  set (w0 := with_now (Z.max (now w) e.2)
               (with_timers (filter (λ e', e'.1 ≠ e.1) (timers w)) w)).
  assert (heap w0 !! e.1 = Some s) as Hm0 by exact Hm.
  assert (linked w0 s (partners s)) as Hl0 by exact Hl.
  destruct (onDomScrollEnd_run w0 e.1 s Hm0 Hl0)
    as (w1 & s1 & Hrun & Htr & Hm1 & Hco & Hscr & _ & Ht1 & Hn1 & Hsk & _).
  eexists w1, s1, _. split.
  { unfold fireTimer. unfold bind at 1. fold w0. exact Hrun. }
  split; [exact Ht1|]. split; [exact Hn1|]. split; [exact Htr|].
  split; [read_trace; reflexivity|].
  split; [read_trace; reflexivity|].
  split.
  { intros id Hne. split; read_trace; reflexivity. }
  split; [exact Hm1|]. split; [exact Hco|]. split; [exact Hscr|].
  exact Hsk.
Qed.

(** A list of timeouts fires, one scroller at most once: what the
    scroller [me] sees of it. *)
Lemma fireTimers_run L :
  ∀ w me s,
    Forall (λ e, ∃ s, heap w !! e.1 = Some s ∧ linked w s (partners s)) L →
    NoDup L.*1 →
    heap w !! me = Some s →
    ∃ w' s' evs,
      forEach L fireTimer w = Some (tt, w')
      ∧ timers w' = filter (λ e, e.1 ∉ L.*1) (timers w)
      ∧ now w ≤ now w'
      ∧ (∀ t, Forall (λ e, e.2 ≤ t) L → now w' ≤ Z.max (now w) t)
      ∧ trace w' = trace w ++ evs
      ∧ globalNames me evs = (if decide (me ∈ L.*1) then [ScrollEnd] else [])
      ∧ firedNames me evs
          = (if decide (me ∈ L.*1)
             then (if listensScrollEnd (hasListeners s) then [ScrollEnd] else [])
             else [])
      ∧ heap w' !! me = Some s'
      ∧ core s' = core s
      ∧ isScrolling s'
          = (if decide (me ∈ L.*1) then false else isScrolling s)
      ∧ keepsCore w w'.
Proof.
  induction L as [|e L IH]; intros w me s Hlive Hnd Hm.
  - exists w, s, []. split; [reflexivity|].
    split.
    { induction (timers w) as [|a l IHl]; [reflexivity|].
      rewrite filter_cons_True
        by (intros Hin; now apply elem_of_nil in Hin).
      now f_equal. }
    split; [lia|]. split; [intros t _; lia|].
    split; [now rewrite app_nil_r|].
    rewrite !decide_False by (intros Hin; now apply elem_of_nil in Hin).
    split; [reflexivity|]. split; [reflexivity|]. split; [exact Hm|].
    split; [reflexivity|]. split; [reflexivity|]. apply keepsCore_refl.
  - apply Forall_cons in Hlive as [(se & Hse & Hle) Hlive].
    rewrite fmap_cons in Hnd. apply NoDup_cons in Hnd as [Hnotin Hnd].
    destruct (fireTimer_run w e se Hse Hle)
      as (w1 & se1 & evs1 & Hrun1 & Ht1 & Hn1 & Htr1 & Hg1 & Hf1 & Hoth1
          & Hse1 & Hco1 & Hscr1 & Hsk1).
    assert (keepsCore w w1) as Hk1.
    { apply (keepsCore_of_skeleton w w1 e.1 Hsk1).
      intros s0 Hs0. rewrite Hse in Hs0. injection Hs0 as <-.
      exists se1. split; [exact Hse1|exact Hco1]. }
    assert (Forall (λ e0, ∃ s0, heap w1 !! e0.1 = Some s0
                                ∧ linked w1 s0 (partners s0)) L) as Hlive1.
    { eapply Forall_impl; [exact Hlive|]. simpl.
      intros e0 (s0 & Hs0 & Hl0). destruct (Hk1 _ _ Hs0) as (s0' & Hs0' & Hc0).
      exists s0'. split; [exact Hs0'|].
      exact (linked_keepsCore _ _ _ _ Hk1 Hc0 Hl0). }
    assert (∃ s1, heap w1 !! me = Some s1 ∧ core s1 = core s
                  ∧ isScrolling s1
                    = (if decide (me = e.1) then false else isScrolling s))
      as (s1 & Hm1 & Hcs1 & Hscs1).
    { destruct (decide (me = e.1)) as [->|Hne].
      - rewrite Hse in Hm. injection Hm as <-.
        exists se1. repeat split; assumption.
      - specialize (Hsk1 me Hne). rewrite Hm in Hsk1.
        destruct (lookup_skeleton _ _ _ Hsk1) as (s1 & Hs1 & Hsk).
        exists s1. split; [exact Hs1|]. split; [exact (core_skeleton _ _ Hsk)|].
        now destruct (skeleton_fields _ _ Hsk) as (_ & _ & _ & _ & -> & _). }
    destruct (IH w1 me s1 Hlive1 Hnd Hm1)
      as (w' & s' & evs & Hrun & Ht & Hn & Hnmax & Htr & Hg & Hf & Hm' & Hco
          & Hscr & Hk).
    exists w', s', (evs1 ++ evs). split.
    { cbn [forEach]. unfold bind at 1. rewrite Hrun1. exact Hrun. }
    split.
    { rewrite Ht, Ht1, list_filter_filter. apply filter_ext_in.
      intros x _. rewrite fmap_cons, not_elem_of_cons. tauto. }
    split; [lia|].
    split.
    { intros t Hall. apply Forall_cons in Hall as [He Hall].
      specialize (Hnmax t Hall). lia. }
    split; [rewrite Htr, Htr1; now rewrite app_assoc|].
    rewrite globalNames_app, firedNames_app, Hg, Hf, Hscr, Hscs1.
    destruct (core_fields _ _ Hcs1) as (Hhl1 & _).
    rewrite Hhl1.
    destruct (decide (me = e.1)) as [->|Hne].
    + rewrite Hg1, Hf1.
      assert (e.1 ∈ (e :: L).*1) as HinE by (rewrite fmap_cons; left).
      rewrite Hse in Hm. injection Hm as <-.
      repeat split; try exact Hm'; try congruence;
        try exact (keepsCore_trans _ _ _ Hk1 Hk);
        repeat match goal with
               | |- context [decide (?x ∈ ?l)] => destruct (decide (x ∈ l))
               end;
        try contradiction; try reflexivity.
      now destruct (listensScrollEnd (hasListeners se)).
    + destruct (Hoth1 me Hne) as [-> ->].
      assert (me ∈ (e :: L).*1 ↔ me ∈ L.*1) as Hiff.
      { rewrite fmap_cons, elem_of_cons. tauto. }
      repeat split; try exact Hm'; try congruence;
        try exact (keepsCore_trans _ _ _ Hk1 Hk);
        repeat match goal with
               | |- context [decide (?x ∈ ?l)] => destruct (decide (x ∈ l))
               end;
        try reflexivity; try tauto.
Qed.

Lemma dueTimers_ids t l me :
  NoDup l.*1 →
  (me ∈ (dueTimers t l).*1 ↔ ∃ d, (me, d) ∈ l ∧ d ≤ t).
Proof.
  intros Hnd. rewrite list_elem_of_fmap. split.
  - intros ([id d] & -> & He). apply elem_of_dueTimers in He as [Hd He].
    now exists d.
  - intros (d & He & Hd). exists (me, d). split; [reflexivity|].
    apply elem_of_dueTimers. now split.
Qed.

(** The clock advances in a world with any number of pending timeouts:
    what the scroller [me] sees of it. *)
Lemma advanceTo_run w me s t :
  heap w !! me = Some s → timersLive w → now w ≤ t →
  ∃ w' s' evs,
    advanceTo t w = Some (tt, w')
    ∧ timers w' = filter (λ e, ¬ e.2 ≤ t) (timers w)
    ∧ now w' = t
    ∧ trace w' = trace w ++ evs
    ∧ globalNames me evs
        = (if decide (me ∈ (dueTimers t (timers w)).*1)
           then [ScrollEnd] else [])
    ∧ firedNames me evs
        = (if decide (me ∈ (dueTimers t (timers w)).*1)
           then (if listensScrollEnd (hasListeners s) then [ScrollEnd] else [])
           else [])
    ∧ heap w' !! me = Some s'
    ∧ core s' = core s
    ∧ isScrolling s'
        = (if decide (me ∈ (dueTimers t (timers w)).*1)
           then false else isScrolling s)
    ∧ keepsCore w w'
    ∧ timersLive w'.
Proof.
  intros Hm [Hlive Hnd] Hnow.
  set (L := dueTimers t (timers w)).
  assert (Forall (λ e, ∃ s0, heap w !! e.1 = Some s0
                             ∧ linked w s0 (partners s0)) L) as HliveL.
  { rewrite Forall_forall in Hlive. apply Forall_forall. intros e He.
    apply elem_of_dueTimers in He as [_ He]. exact (Hlive e He). }
  assert (NoDup L.*1) as HndL.
  { subst L. rewrite dueTimers_perm. now apply NoDup_fst_filter. }
  assert (Forall (λ e, e.2 ≤ t) L) as HdueL.
  { apply Forall_forall. intros e He.
    now apply elem_of_dueTimers in He as [Hd _]. }
  destruct (fireTimers_run L w me s HliveL HndL Hm)
    as (w1 & s1 & evs & Hrun & Ht & Hn & Hnmax & Htr & Hg & Hf & Hm1 & Hco
        & Hscr & Hk).
  specialize (Hnmax t HdueL).
  assert (timers w1 = filter (λ e, ¬ e.2 ≤ t) (timers w)) as Ht'.
  { rewrite Ht. apply filter_ext_in. intros e He. split.
    - intros Hout Hd. apply Hout. apply list_elem_of_fmap_2.
      apply elem_of_dueTimers. now split.
    - intros Hd Hin. apply Hd.
      apply list_elem_of_fmap in Hin as (e' & Heq & He').
      apply elem_of_dueTimers in He' as [Hd' He'].
      now rewrite (NoDup_fst_unique _ e e' Hnd He He' Heq). }
  eexists _, s1, evs. split.
  { unfold advanceTo. unfold bind at 1. fold L. rewrite Hrun. reflexivity. }
  simpl. split; [exact Ht'|]. split; [lia|]. split; [exact Htr|].
  split; [exact Hg|]. split; [exact Hf|]. split; [exact Hm1|].
  split; [exact Hco|]. split; [exact Hscr|]. split; [exact Hk|].
  unfold timersLive. simpl. rewrite Ht'. split.
  - apply Forall_forall. intros e He.
    apply list_elem_of_filter in He as [_ He].
    rewrite Forall_forall in Hlive.
    destruct (Hlive e He) as (s0 & Hs0 & Hl0).
    destruct (Hk _ _ Hs0) as (s0' & Hs0' & Hc0).
    exists s0'. split; [exact Hs0'|].
    exact (linked_keepsCore w w1 _ _ Hk Hc0 Hl0).
  - now apply NoDup_fst_filter.
Qed.

Lemma userScroll_keepsCore w me s q p w' :
  heap w !! me = Some s → linked w s (partners s) →
  restoring s = false → bufferedScrollEnd s = Some q →
  scrollListener s = true →
  userScroll me p w = Some (tt, w') → keepsCore w w'.
Proof.
  intros Hm Hl Hr Hq Hls Hrun'.
  set (s0 := set_scrollElement
               ((λ el, mkSurface (px p) (py p) (surfaceDestroyed el))
                  <$> scrollElement s) s).
  set (w0 := with_heap (<[me := s0]> (heap w)) w).
  assert (heap w0 !! me = Some s0) as Hm0 by apply lookup_insert_eq.
  assert (linked w0 s0 (partners s0)) as Hl0.
  { apply (linked_insert w me s); [exact Hm|exact Hl]. }
  destruct (onDomScroll_run w0 me s0 q Hm0 Hl0 Hr Hq)
    as (w1 & sC & sD & Hrun & _ & _ & _ & HD & HcD & _ & _ & _ & _ & Hsk & _).
  assert (userScroll me p w = Some (tt, w1)) as Hrun1.
  { unfold userScroll. erewrite bind_update by exact Hm. fold s0 w0.
    unfold dispatchScroll. erewrite bind_getScroller by exact Hm0.
    replace (scrollListener s0) with true by (symmetry; exact Hls).
    exact Hrun. }
  rewrite Hrun1 in Hrun'. injection Hrun' as <-.
  apply (keepsCore_of_skeleton w w1 me).
  - intros id Hne. rewrite (Hsk id Hne). subst w0. simpl.
    now rewrite lookup_insert_ne.
  - intros s2 Hs2. rewrite Hm in Hs2. injection Hs2 as <-.
    exists sD. split; [exact HD|exact HcD].
Qed.

Lemma NoDup_fst_rebuffer (l : list (string * Z)) me d :
  NoDup l.*1 → NoDup (filter (λ t, t.1 ≠ me) l ++ [(me, d)]).*1.
Proof.
  intros Hnd. rewrite fmap_app. apply NoDup_app. split.
  - now apply NoDup_fst_filter.
  - split; [|apply NoDup_singleton].
    intros id Hin Hme. apply list_elem_of_singleton in Hme. subst id.
    apply list_elem_of_fmap in Hin as (e & He1 & He).
    apply list_elem_of_filter in He as [Hne _]. now apply Hne.
Qed.

Lemma filter_none {A : Type} (P : A → Prop) `{∀ x, Decision (P x)}
    (l : list A) :
  (∀ x, x ∈ l → ¬ P x) → filter P l = [].
Proof.
  induction l as [|a l IH]; intros Hno; [reflexivity|].
  rewrite filter_cons, decide_False by (apply Hno; now left).
  apply IH. intros x Hx. apply Hno. now right.
Qed.

Lemma filter_own_timer (l : list (string * Z)) me d :
  NoDup l.*1 → (me, d) ∈ l → filter (λ t, t.1 = me) l = [(me, d)].
Proof.
  induction l as [|a l IH]; intros Hnd Hin.
  - now apply elem_of_nil in Hin.
  - rewrite fmap_cons in Hnd. apply NoDup_cons in Hnd as [Hnotin Hnd].
    rewrite filter_cons. apply elem_of_cons in Hin as [<-|Hin].
    + rewrite decide_True by reflexivity. f_equal.
      apply filter_none. intros e He Heq.
      apply Hnotin. simpl. rewrite <- Heq. now apply list_elem_of_fmap_2.
    + rewrite decide_False; [now apply IH|].
      intros Heq. apply Hnotin. rewrite Heq.
      now apply (list_elem_of_fmap_2 fst l (me, d)).
Qed.

(** A scroll of [me] in a world with pending timeouts of other scrollers:
    the timeout of [me] is replaced, all others stay. *)
Lemma userScroll_timers w me s q p :
  heap w !! me = Some s → linked w s (partners s) →
  restoring s = false → bufferedScrollEnd s = Some q →
  scrollListener s = true → timersLive w →
  ∃ w' s' evs,
    userScroll me p w = Some (tt, w')
    ∧ heap w' !! me = Some s'
    ∧ core s' = core s
    ∧ isScrolling s' = true
    ∧ linked w' s' (partners s')
    ∧ timersLive w'
    ∧ (me, now w' + q) ∈ timers w'
    ∧ now w' = now w
    ∧ trace w' = trace w ++ evs
    ∧ globalNames me evs
        = (if isScrolling s then [] else [ScrollStart]) ++ [Scroll]
    ∧ firedNames me evs
        = (if isScrolling s then []
           else if listensScrollStart (hasListeners s) then [ScrollStart] else [])
          ++ (if listensScroll (hasListeners s) then [Scroll] else []).
Proof.
  intros Hm Hl Hr Hq Hls [Hlive Hnd].
  destruct (userScroll_run w me s q p Hm Hl Hr Hq Hls)
    as (w1 & s1 & evs1 & Hrun1 & Hm1 & Hco1 & Hscr1 & _ & Ht1 & Hn1 & Htr1
        & Hg1 & Hf1 & _).
  pose proof (userScroll_keepsCore w me s q p w1 Hm Hl Hr Hq Hls Hrun1) as Hk.
  pose proof (linked_keepsCore w w1 s s1 Hk Hco1 Hl) as Hl1.
  exists w1, s1, evs1. split; [exact Hrun1|]. split; [exact Hm1|].
  split; [exact Hco1|]. split; [exact Hscr1|]. split; [exact Hl1|].
  split.
  { unfold timersLive. rewrite Ht1. split; [|now apply NoDup_fst_rebuffer].
    apply Forall_app. split.
    - apply Forall_forall. intros e He.
      apply list_elem_of_filter in He as [_ He].
      rewrite Forall_forall in Hlive.
      destruct (Hlive e He) as (s0 & Hs0 & Hl0).
      destruct (Hk _ _ Hs0) as (s0' & Hs0' & Hc0).
      exists s0'. split; [exact Hs0'|].
      exact (linked_keepsCore w w1 _ _ Hk Hc0 Hl0).
    - apply Forall_singleton. exists s1. split; [exact Hm1|exact Hl1]. }
  split.
  { rewrite Ht1, Hn1. apply elem_of_app. right. now apply list_elem_of_singleton. }
  split; [exact Hn1|]. split; [exact Htr1|]. split; [exact Hg1|exact Hf1].
Qed.

(** Time passes without the timeout of [me] coming due. *)
Lemma advanceTo_not_due w me s t :
  heap w !! me = Some s → timersLive w → now w ≤ t →
  (∀ d, (me, d) ∈ timers w → t < d) →
  ∃ w' s' evs,
    advanceTo t w = Some (tt, w')
    ∧ heap w' !! me = Some s'
    ∧ core s' = core s
    ∧ isScrolling s' = isScrolling s
    ∧ keepsCore w w'
    ∧ timersLive w'
    ∧ timers w' = filter (λ e, ¬ e.2 ≤ t) (timers w)
    ∧ now w' = t
    ∧ trace w' = trace w ++ evs
    ∧ globalNames me evs = []
    ∧ firedNames me evs = [].
Proof.
  intros Hm Hlive Hnow Hlater.
  destruct (advanceTo_run w me s t Hm Hlive Hnow)
    as (w' & s' & evs & Hrun & Ht & Hn & Htr & Hg & Hf & Hm' & Hco & Hscr
        & Hk & Hlive').
  assert (me ∉ (dueTimers t (timers w)).*1) as Hout.
  { intros Hin. apply dueTimers_ids in Hin as (d & Hd & Hle);
      [|exact (proj2 Hlive)].
    specialize (Hlater d Hd). lia. }
  rewrite decide_False in Hg by exact Hout.
  rewrite decide_False in Hf by exact Hout.
  rewrite decide_False in Hscr by exact Hout.
  exists w', s', evs. repeat (split; [assumption|]). assumption.
Qed.

(** Time passes and the timeout of [me] comes due. *)
Lemma advanceTo_is_due w me s d t :
  heap w !! me = Some s → timersLive w → now w ≤ t →
  (me, d) ∈ timers w → d ≤ t →
  ∃ w' s' evs,
    advanceTo t w = Some (tt, w')
    ∧ heap w' !! me = Some s'
    ∧ core s' = core s
    ∧ isScrolling s' = false
    ∧ timers w' = filter (λ e, ¬ e.2 ≤ t) (timers w)
    ∧ trace w' = trace w ++ evs
    ∧ globalNames me evs = [ScrollEnd]
    ∧ firedNames me evs
        = (if listensScrollEnd (hasListeners s) then [ScrollEnd] else []).
Proof.
  intros Hm Hlive Hnow Hd Hle.
  destruct (advanceTo_run w me s t Hm Hlive Hnow)
    as (w' & s' & evs & Hrun & Ht & Hn & Htr & Hg & Hf & Hm' & Hco & Hscr
        & Hk & Hlive').
  assert (me ∈ (dueTimers t (timers w)).*1) as Hin.
  { apply dueTimers_ids; [exact (proj2 Hlive)|]. now exists d. }
  rewrite decide_True in Hg by exact Hin.
  rewrite decide_True in Hf by exact Hin.
  rewrite decide_True in Hscr by exact Hin.
  exists w', s', evs. repeat (split; [assumption|]). assumption.
Qed.

(** One delta of a burst: [gap] milliseconds pass, in which the timeout of
    [me] does not come due, and the element of [me] scrolls. *)
Lemma delta_run w me s q gap p :
  heap w !! me = Some s → linked w s (partners s) →
  restoring s = false → bufferedScrollEnd s = Some q →
  scrollListener s = true → timersLive w → 0 ≤ gap →
  (∀ d, (me, d) ∈ timers w → now w + gap < d) →
  ∃ w' s' evs,
    (elapse gap >> userScroll me p) w = Some (tt, w')
    ∧ heap w' !! me = Some s'
    ∧ core s' = core s
    ∧ isScrolling s' = true
    ∧ linked w' s' (partners s')
    ∧ timersLive w'
    ∧ (me, now w' + q) ∈ timers w'
    ∧ trace w' = trace w ++ evs
    ∧ globalNames me evs
        = (if isScrolling s then [] else [ScrollStart]) ++ [Scroll]
    ∧ firedNames me evs
        = (if isScrolling s then []
           else if listensScrollStart (hasListeners s) then [ScrollStart] else [])
          ++ (if listensScroll (hasListeners s) then [Scroll] else []).
Proof.
  intros Hm Hl Hr Hq Hls Hlive Hgap Hlater.
  destruct (advanceTo_not_due w me s (now w + gap) Hm Hlive ltac:(lia) Hlater)
    as (w0 & s0 & evs0 & Hrun0 & Hm0 & Hco0 & Hscr0 & Hk0 & Hlive0 & _ & _
        & Htr0 & Hg0 & Hf0).
  destruct (core_fields _ _ Hco0)
    as (Hhl0 & _ & Hps0 & _ & Hrs0 & Hq0 & Hls0 & _).
  destruct (userScroll_timers w0 me s0 q p Hm0
              (linked_keepsCore w w0 s s0 Hk0 Hco0 Hl)
              ltac:(congruence) ltac:(congruence) ltac:(congruence) Hlive0)
    as (w1 & s1 & evs1 & Hrun1 & Hm1 & Hco1 & Hscr1 & Hl1 & Hlive1 & Hin1 & _
        & Htr1 & Hg1 & Hf1).
  exists w1, s1, (evs0 ++ evs1). split.
  { unfold bind at 1. unfold elapse. rewrite Hrun0. exact Hrun1. }
  split; [exact Hm1|]. split; [congruence|]. split; [exact Hscr1|].
  split; [exact Hl1|]. split; [exact Hlive1|]. split; [exact Hin1|].
  split; [rewrite Htr1, Htr0; now rewrite app_assoc|].
  rewrite Hscr0, Hhl0 in *.
  split.
  - now rewrite globalNames_app, Hg0, Hg1.
  - now rewrite firedNames_app, Hf0, Hf1.
Qed.

Lemma burst_goes_on rest :
  ∀ w me s q,
    heap w !! me = Some s → linked w s (partners s) →
    isScrolling s = true → restoring s = false →
    bufferedScrollEnd s = Some q → scrollListener s = true →
    timersLive w → (me, now w + q) ∈ timers w →
    Forall (λ d, 0 ≤ d.1 < q) rest →
    ∃ w' s' evs,
      burst me rest w = Some (tt, w')
      ∧ heap w' !! me = Some s'
      ∧ core s' = core s
      ∧ isScrolling s' = true
      ∧ timersLive w'
      ∧ (me, now w' + q) ∈ timers w'
      ∧ trace w' = trace w ++ evs
      ∧ globalNames me evs = repeat Scroll (length rest)
      ∧ firedNames me evs
          = (if listensScroll (hasListeners s)
             then repeat Scroll (length rest) else []).
Proof.
  induction rest as [|[gap p] rest IH];
    intros w me s q Hm Hl Hscr Hr Hq Hls Hlive Hin Hgaps.
  - exists w, s, []. rewrite app_nil_r. repeat split; auto;
      [apply Hlive|apply Hlive|].
    now destruct (listensScroll (hasListeners s)).
  - apply Forall_cons in Hgaps as [Hgap Hgaps]. simpl in Hgap.
    assert (∀ d, (me, d) ∈ timers w → now w + gap < d) as Hlater.
    { intros d Hd.
      pose proof (NoDup_fst_unique _ _ _ (proj2 Hlive) Hd Hin eq_refl) as Heq.
      injection Heq as ->. lia. }
    destruct (delta_run w me s q gap p Hm Hl Hr Hq Hls Hlive
                ltac:(lia) Hlater)
      as (w1 & s1 & evs1 & Hrun1 & Hm1 & Hco1 & Hscr1 & Hl1 & Hlive1 & Hin1
          & Htr1 & Hg1 & Hf1).
    destruct (core_fields _ _ Hco1)
      as (Hhl1 & _ & Hps1 & _ & Hrs1 & Hq1 & Hls1 & _).
    destruct (IH w1 me s1 q Hm1 Hl1 Hscr1 ltac:(congruence) ltac:(congruence)
                ltac:(congruence) Hlive1 Hin1 Hgaps)
      as (w' & s' & evs & Hrun & Hm' & Hco & Hscr' & Hlive' & Hin' & Htr & Hg
          & Hf).
    exists w', s', (evs1 ++ evs). split.
    { unfold burst. cbn [forEach fst snd].
      rewrite (bind_Some _ _ _ _ _ Hrun1). exact Hrun. }
    split; [exact Hm'|]. split; [congruence|]. split; [exact Hscr'|].
    split; [exact Hlive'|]. split; [exact Hin'|].
    split; [rewrite Htr, Htr1; now rewrite app_assoc|].
    rewrite Hscr in Hg1, Hf1.
    split.
    { rewrite globalNames_app, Hg1, Hg. reflexivity. }
    rewrite firedNames_app, Hf1, Hf, Hhl1.
    now destruct (listensScroll (hasListeners s)).
Qed.

(** C2. A scroller at rest receives a burst of N scroll deltas, each less
    than 100ms after the one before, while any number of timeouts of other
    scrollers are pending.  It emits one [scrollstart] (with the first
    delta) and N [scroll] events, and one timeout of its own is pending,
    due 100ms after the last delta: every delta has replaced the timeout
    of the delta before.  No [scrollend] is emitted until that time; then
    exactly one is, and the timeout is gone. *)
Theorem debounced_scroll_end
    (w : World) (me : string) (s : Scroller) (gap0 : Z) (first : Pos)
    (rest : list (Z * Pos)) :
  heap w !! me = Some s → linked w s (partners s) →
  isScrolling s = false → restoring s = false →
  bufferedScrollEnd s = Some 100 → scrollListener s = true →
  timersLive w → me ∉ (timers w).*1 →
  0 ≤ gap0 → Forall (λ d, 0 ≤ d.1 < 100) rest →
  ∃ w1 evs1,
    burst me ((gap0, first) :: rest) w = Some (tt, w1)
    ∧ trace w1 = trace w ++ evs1
    ∧ globalNames me evs1 = ScrollStart :: repeat Scroll (S (length rest))
    ∧ firedNames me evs1
        = (if listensScrollStart (hasListeners s) then [ScrollStart] else [])
          ++ (if listensScroll (hasListeners s)
              then repeat Scroll (S (length rest)) else [])
    ∧ filter (λ e, e.1 = me) (timers w1) = [(me, now w1 + 100)]
    ∧ (∀ t, now w1 ≤ t < now w1 + 100 →
         ∃ w2 evs2, advanceTo t w1 = Some (tt, w2)
           ∧ trace w2 = trace w1 ++ evs2
           ∧ globalNames me evs2 = []
           ∧ firedNames me evs2 = []
           ∧ filter (λ e, e.1 = me) (timers w2) = [(me, now w1 + 100)])
    ∧ (∀ t, now w1 + 100 ≤ t →
         ∃ w2 evs2, advanceTo t w1 = Some (tt, w2)
           ∧ trace w2 = trace w1 ++ evs2
           ∧ globalNames me evs2 = [ScrollEnd]
           ∧ firedNames me evs2
               = (if listensScrollEnd (hasListeners s) then [ScrollEnd] else [])
           ∧ filter (λ e, e.1 = me) (timers w2) = []).
Proof.
  intros Hm Hl Hscr Hr Hq Hls Hlive Hout Hgap0 Hgaps.
  assert (∀ d, (me, d) ∈ timers w → now w + gap0 < d) as Hlater.
  { intros d Hd. exfalso. apply Hout.
    now apply (list_elem_of_fmap_2 fst (timers w) (me, d)). }
  destruct (delta_run w me s 100 gap0 first Hm Hl Hr Hq Hls Hlive Hgap0 Hlater)
    as (w1 & s1 & evs1 & Hrun1 & Hm1 & Hco1 & Hscr1 & Hl1 & Hlive1 & Hin1
        & Htr1 & Hg1 & Hf1).
  destruct (core_fields _ _ Hco1)
    as (Hhl1 & _ & Hps1 & _ & Hrs1 & Hq1 & Hls1 & _).
  destruct (burst_goes_on rest w1 me s1 100 Hm1 Hl1 Hscr1 ltac:(congruence)
              ltac:(congruence) ltac:(congruence) Hlive1 Hin1 Hgaps)
    as (w' & s' & evs & Hrun & Hm' & Hco & Hscr' & Hlive' & Hin' & Htr & Hg
        & Hf).
  destruct (core_fields _ _ Hco) as (Hhl' & _).
  assert (∀ e, e ∈ timers w' → e.1 = me → e = (me, now w' + 100)) as Hown.
  { intros e He Heq.
    exact (NoDup_fst_unique _ _ _ (proj2 Hlive') He Hin' Heq). }
  exists w', (evs1 ++ evs). split.
  { unfold burst. cbn [forEach fst snd].
    rewrite (bind_Some _ _ _ _ _ Hrun1). exact Hrun. }
  split; [rewrite Htr, Htr1; now rewrite app_assoc|].
  rewrite Hscr in Hg1, Hf1.
  split.
  { rewrite globalNames_app, Hg1, Hg. reflexivity. }
  split.
  { rewrite firedNames_app, Hf1, Hf, Hhl1.
    destruct (listensScrollStart (hasListeners s)),
      (listensScroll (hasListeners s)); reflexivity. }
  split; [exact (filter_own_timer _ _ _ (proj2 Hlive') Hin')|].
  split.
  - intros t Hquiet.
    destruct (advanceTo_not_due w' me s' t Hm' Hlive' ltac:(lia))
      as (w2 & s2 & evs2 & Hrun2 & _ & _ & _ & _ & Hlive2 & Ht2 & _ & Htr2
          & Hg2 & Hf2).
    { intros d Hd. specialize (Hown _ Hd eq_refl). injection Hown as ->. lia. }
    exists w2, evs2. split; [exact Hrun2|]. split; [exact Htr2|].
    split; [exact Hg2|]. split; [exact Hf2|].
    apply filter_own_timer; [exact (proj2 Hlive2)|].
    rewrite Ht2. apply (list_elem_of_filter (λ e, ¬ e.2 ≤ t)).
    split; [simpl; lia|exact Hin'].
  - intros t Hdue.
    destruct (advanceTo_is_due w' me s' (now w' + 100) t Hm' Hlive'
                ltac:(lia) Hin' Hdue)
      as (w2 & s2 & evs2 & Hrun2 & _ & _ & _ & Ht2 & Htr2 & Hg2 & Hf2).
    exists w2, evs2. split; [exact Hrun2|]. split; [exact Htr2|].
    split; [exact Hg2|]. split; [rewrite Hf2, Hhl', Hhl1; reflexivity|].
    apply filter_none. intros e He Heq. rewrite Ht2 in He.
    apply (list_elem_of_filter (λ e, ¬ e.2 ≤ t)) in He as [Hnot He].
    rewrite (Hown e He Heq) in Hnot. simpl in Hnot. lia.
Qed.

Lemma debounced_scroll_end_witness :
  ∃ w1 w2 w3,
    burst "A" [(0, mkPos 0 10); (30, mkPos 0 20); (99, mkPos 0 35)] busyWorld
      = Some (tt, w1)
    ∧ globalNames "A" (trace w1) = [ScrollStart; Scroll; Scroll; Scroll]
    ∧ timers w1 = [("B", 200); ("A", 229)]
    ∧ advanceTo 228 w1 = Some (tt, w2)
    ∧ globalNames "A" (trace w2) = [ScrollStart; Scroll; Scroll; Scroll]
    ∧ globalNames "B" (trace w2) = [ScrollEnd]
    ∧ timers w2 = [("A", 229)]
    ∧ advanceTo 229 w1 = Some (tt, w3)
    ∧ globalNames "A" (trace w3)
        = [ScrollStart; Scroll; Scroll; Scroll; ScrollEnd]
    ∧ timers w3 = [].
Proof.
  destruct (debounced_scroll_end busyWorld "A" demoScroller 0 (mkPos 0 10)
              [(30, mkPos 0 20); (99, mkPos 0 35)] eq_refl)
    as (w1 & evs1 & Hrun & Htr & Hg & _ & Ht & Hquiet & Hdue);
    try reflexivity.
  { unfold linked. simpl. constructor. }
  { split.
    - repeat constructor. eexists. split; [reflexivity|].
      unfold linked. simpl. constructor.
    - simpl. apply NoDup_singleton. }
  { simpl. intros Hin. apply list_elem_of_singleton in Hin. discriminate. }
  { repeat constructor; simpl; lia. }
  assert (now w1 = 129 ∧ timers w1 = [("B", 200); ("A", 229)]) as [Hnow Ht1].
  { vm_compute in Hrun. injection Hrun as <-. split; reflexivity. }
  rewrite Hnow in *.
  destruct (Hquiet 228 ltac:(lia)) as (w2 & evs2 & Hrun2 & Htr2 & Hg2 & _).
  destruct (Hdue 229 ltac:(lia)) as (w3 & evs3 & Hrun3 & Htr3 & Hg3 & _).
  exists w1, w2, w3.
  split; [exact Hrun|].
  split; [rewrite Htr; exact Hg|].
  split; [exact Ht1|].
  split; [exact Hrun2|].
  split; [rewrite Htr2, Htr, globalNames_app, globalNames_app, Hg, Hg2;
          reflexivity|].
  vm_compute in Hrun. injection Hrun as <-.
  vm_compute in Hrun2. injection Hrun2 as <-.
  vm_compute in Hrun3. injection Hrun3 as <-.
  split; [vm_compute; reflexivity|].
  split; [reflexivity|].
  split; [reflexivity|].
  split; [vm_compute; reflexivity|reflexivity].
Defined.

(** ** Teardown (C9) *)

Lemma destroy_run w me s :
  heap w !! me = Some s →
  let s' := set_destroyed true
              (set_component None
                 (set_partners None
                    (set_bufferedScrollEnd None
                       (set_scrollElement None
                          (if bool_decide (is_Some (element s))
                           then set_scrollListener false s else s))))) in
  destroy me w = Some (tt, with_heap (<[me := s']> (heap w)) w).
Proof.
  intros Hm s'. unfold destroy, setElement.
  erewrite bind_Some; cycle 1.
  { erewrite bind_getScroller by exact Hm. unfold applyElement.
    instantiate (1 := if bool_decide (is_Some (element s))
                      then with_heap (<[me := set_scrollListener false s]> (heap w)) w
                      else w).
    instantiate (1 := tt).
    destruct (bool_decide (is_Some (element s))); cbn [when].
    - erewrite bind_Some; cycle 1.
      { erewrite bind_update by exact Hm. reflexivity. }
      reflexivity.
    - reflexivity. }
  subst s'.
  destruct (bool_decide (is_Some (element s))).
  - erewrite bind_update by (simpl; apply lookup_insert_eq).
    erewrite bind_update by (simpl; apply lookup_insert_eq).
    erewrite update_Some by (simpl; apply lookup_insert_eq).
    simpl. now rewrite !insert_insert_eq.
  - erewrite bind_update by exact Hm.
    erewrite bind_update by (simpl; apply lookup_insert_eq).
    erewrite update_Some by (simpl; apply lookup_insert_eq).
    simpl. now rewrite !insert_insert_eq.
Qed.

(** C9, as the code has it.  [destroy] detaches the scroll listener of
    the element at once and releases the scroll element, the partner map,
    the component and the buffered scroll-end function; scroll events of
    the element no longer reach the scroller.  It does not cancel a
    scroll-end timeout that is already pending: the pending timeouts are
    the same after [destroy] as before. *)
Theorem destroy_detaches_but_keeps_timeout
    (w : World) (me : string) (s : Scroller) :
  heap w !! me = Some s →
  (scrollListener s = true → is_Some (element s)) →
  ∃ w' s',
    destroy me w = Some (tt, w')
    ∧ heap w' !! me = Some s'
    ∧ scrollListener s' = false
    ∧ scrollElement s' = None
    ∧ bufferedScrollEnd s' = None
    ∧ _partners s' = None
    ∧ component s' = None
    ∧ destroyed s' = true
    ∧ dispatchScroll me w' = Some (tt, w')
    ∧ timers w' = timers w ∧ now w' = now w ∧ trace w' = trace w.
Proof.
  intros Hm Hinv.
  pose proof (destroy_run w me s Hm) as Hrun. cbv zeta in Hrun.
  set (s' := set_destroyed true _) in Hrun.
  assert (scrollListener s' = false) as Hls.
  { subst s'. simpl. destruct (bool_decide (is_Some (element s))) eqn:E;
      [reflexivity|].
    apply bool_decide_eq_false in E.
    destruct (scrollListener s) eqn:El; [|reflexivity].
    exfalso. apply E, Hinv. reflexivity. }
  set (w' := with_heap (<[me := s']> (heap w)) w) in *.
  assert (heap w' !! me = Some s') as Hm' by apply lookup_insert_eq.
  exists w', s'. split; [exact Hrun|]. split; [exact Hm'|].
  split; [exact Hls|]. repeat (split; [reflexivity|]).
  split.
  { unfold dispatchScroll. erewrite bind_getScroller by exact Hm'.
    now rewrite Hls. }
  repeat split.
Qed.

Lemma destroy_detaches_but_keeps_timeout_witness :
  ∃ w' s',
    destroy "A" demoWorld = Some (tt, w')
    ∧ heap w' !! "A" = Some s'
    ∧ scrollListener s' = false
    ∧ bufferedScrollEnd s' = None
    ∧ dispatchScroll "A" w' = Some (tt, w').
Proof.
  destruct (destroy_detaches_but_keeps_timeout demoWorld "A" demoScroller
              eq_refl (λ _, ex_intro _ "grid-body"%string eq_refl))
    as (w' & s' & H1 & H2 & H3 & _ & H5 & _ & _ & _ & H9 & _).
  exists w', s'. repeat split; assumption.
Defined.

(** C9 as the specification words it fails: a scroller destroyed in the
    middle of a scroll keeps its pending timeout, and the scroll end fires
    against the destroyed scroller when the timeout is due. *)
Lemma destroy_cancels_scroll_end_counterexample :
  ∃ w1 w2,
    (userScroll "A" (mkPos 0 10) >> elapse 40 >> destroy "A") demoWorld
      = Some (tt, w1)
    ∧ destroyed <$> heap w1 !! "A" = Some true
    ∧ timers w1 = [("A", 100)]
    ∧ trace w1 = [Global "A" ScrollStart 0 10; Global "A" Scroll 0 10]
    ∧ elapse 60 w1 = Some (tt, w2)
    ∧ trace w2 = trace w1 ++ [Global "A" ScrollEnd 0 10].
Proof.
  eexists _, _.
  split; [vm_compute; reflexivity|].
  split; [vm_compute; reflexivity|].
  split; [vm_compute; reflexivity|].
  split; [vm_compute; reflexivity|].
  split; vm_compute; reflexivity.
Qed.

(** ** Restoring the scroll state *)

Lemma restoreState_run w me s el top :
  heap w !! me = Some s → scrollElement s = Some el →
  surfaceDestroyed el = false → trackingScrollTop s = Some top →
  restoreState me w
  = Some ([ClearRestoring me 50],
          with_heap
            (<[me := set_trackingScrollTop None
                       (set_trackingScrollLeft None
                          (set_scrollElement
                             (Some (mkSurface (default 0 (trackingScrollLeft s))
                                      top false))
                             (set_restoring true s)))]> (heap w)) w).
Proof.
  intros Hm Hel Hd Ht. unfold restoreState.
  erewrite bind_getScroller by exact Hm. rewrite Hel, Ht, Hd.
  erewrite bind_update by exact Hm.
  erewrite bind_update by (simpl; apply lookup_insert_eq).
  erewrite bind_update by (simpl; apply lookup_insert_eq).
  unfold ret. simpl. now rewrite !insert_insert_eq.
Qed.

Lemma restoreState_nothing w me s :
  heap w !! me = Some s →
  scrollElement s = None ∨ trackingScrollTop s = None →
  restoreState me w = Some ([], w).
Proof.
  intros Hm Hno. unfold restoreState.
  erewrite bind_getScroller by exact Hm.
  destruct Hno as [-> | ->]; [reflexivity|].
  now destruct (scrollElement s).
Qed.

(** A scroll event that reaches a scroller while it is restoring. *)
Lemma onDomScroll_restoring w me s :
  heap w !! me = Some s → restoring s = true →
  onDomScroll me w
  = Some (tt, with_heap
                (<[me := set_positionDirty false
                           (set_position (domPosition s) s)]> (heap w)) w).
Proof.
  intros Hm Hr. unfold onDomScroll, updateDomScrollPosition.
  erewrite bind_Some; cycle 1.
  { erewrite bind_getScroller by exact Hm.
    erewrite bind_update by exact Hm. reflexivity. }
  erewrite bind_getScroller by (simpl; apply lookup_insert_eq).
  simpl. now rewrite Hr.
Qed.

(** X1. [restoreState] writes the offsets recorded at the last scroll end
    back to the scroll element and forgets them; it sets [restoring] and
    defers its reset by 50ms.  The scroll event the element answers with
    is taken in silently: the position follows the element, but no event
    is fired, no partner called and no scroll-end timeout started.  Once
    the deferred function has run the scroller is no longer restoring. *)
Theorem restoreState_puts_back_silently
    (w : World) (me : string) (s : Scroller) (el : Surface) (tx ty : Z) :
  heap w !! me = Some s →
  scrollElement s = Some el → surfaceDestroyed el = false →
  scrollListener s = true →
  trackingScrollLeft s = Some tx → trackingScrollTop s = Some ty →
  ∃ w1 w2 w3 s2 s3,
    restoreState me w = Some ([ClearRestoring me 50], w1)
    ∧ dispatchScroll me w1 = Some (tt, w2)
    ∧ heap w2 !! me = Some s2
    ∧ scrollElement s2 = Some (mkSurface tx ty false)
    ∧ position s2 = mkPos tx ty
    ∧ trackingScrollLeft s2 = None ∧ trackingScrollTop s2 = None
    ∧ restoring s2 = true
    ∧ isScrolling s2 = isScrolling s
    ∧ trace w2 = trace w ∧ timers w2 = timers w
    ∧ Ext_isScrolling w2 = Ext_isScrolling w
    ∧ (∀ id, id ≠ me → heap w2 !! id = heap w !! id)
    ∧ runDeferred (ClearRestoring me 50) w2 = Some (tt, w3)
    ∧ heap w3 !! me = Some s3
    ∧ restoring s3 = false
    ∧ position s3 = mkPos tx ty
    ∧ scrollElement s3 = Some (mkSurface tx ty false).
Proof.
  intros Hm Hel Hd Hls Hx Hy.
  pose proof (restoreState_run w me s el ty Hm Hel Hd Hy) as Hrun1.
  rewrite Hx in Hrun1. simpl in Hrun1.
  set (s1 := set_trackingScrollTop None
               (set_trackingScrollLeft None
                  (set_scrollElement (Some (mkSurface tx ty false))
                     (set_restoring true s)))) in *.
  set (w1 := with_heap (<[me := s1]> (heap w)) w) in *.
  assert (heap w1 !! me = Some s1) as Hm1 by apply lookup_insert_eq.
  set (s2 := set_positionDirty false (set_position (domPosition s1) s1)).
  set (w2 := with_heap (<[me := s2]> (heap w1)) w1).
  assert (dispatchScroll me w1 = Some (tt, w2)) as Hrun2.
  { unfold dispatchScroll. erewrite bind_getScroller by exact Hm1.
    replace (scrollListener s1) with true by (symmetry; exact Hls).
    exact (onDomScroll_restoring w1 me s1 Hm1 eq_refl). }
  assert (heap w2 !! me = Some s2) as Hm2 by apply lookup_insert_eq.
  exists w1, w2, (with_heap (<[me := set_restoring false s2]> (heap w2)) w2),
    s2, (set_restoring false s2).
  split; [exact Hrun1|]. split; [exact Hrun2|]. split; [exact Hm2|].
  split; [reflexivity|]. split; [reflexivity|].
  split; [reflexivity|]. split; [reflexivity|].
  split; [reflexivity|]. split; [reflexivity|].
  split; [reflexivity|]. split; [reflexivity|]. split; [reflexivity|].
  split.
  { intros id Hne. subst w2 w1. simpl. now rewrite !lookup_insert_ne. }
  split.
  { simpl. now rewrite (update_Some _ _ _ _ Hm2). }
  split; [simpl; apply lookup_insert_eq|].
  split; [reflexivity|]. split; reflexivity.
Qed.

Lemma restoreState_puts_back_silently_witness :
  ∃ w1 w2 s2,
    restoreState "A" shownAgainWorld = Some ([ClearRestoring "A" 50], w1)
    ∧ dispatchScroll "A" w1 = Some (tt, w2)
    ∧ heap w2 !! "A" = Some s2
    ∧ scrollElement s2 = Some (mkSurface 30 40 false)
    ∧ position s2 = mkPos 30 40
    ∧ trace w2 = [].
Proof.
  destruct (restoreState_puts_back_silently shownAgainWorld "A"
              (set_scrollElement (Some (mkSurface 0 0 false))
                 (set_trackingScrollTop (Some 40)
                    (set_trackingScrollLeft (Some 30) demoScroller)))
              (mkSurface 0 0 false) 30 40
              eq_refl eq_refl eq_refl eq_refl eq_refl eq_refl)
    as (w1 & w2 & w3 & s2 & s3 & H1 & H2 & H3 & H4 & H5 & _ & _ & _ & _ & H6
        & _).
  exists w1, w2, s2. repeat (split; [assumption|]). exact H6.
Defined.

(** X2. [restoreState] uses what was recorded once: whenever a call of it
    returns, a second call right after it changes nothing and defers
    nothing.  So does a call on a scroller without a scroll element or
    without recorded offsets. *)
Theorem restoreState_only_once
    (w w1 : World) (me : string) (d : list Deferred) :
  restoreState me w = Some (d, w1) →
  restoreState me w1 = Some ([], w1)
  ∧ (∀ s, heap w !! me = Some s →
          scrollElement s = None ∨ trackingScrollTop s = None →
          d = [] ∧ w1 = w).
Proof.
  intros Hrun. split.
  - unfold restoreState in Hrun.
    destruct (heap w !! me) as [s|] eqn:Hm;
      [|unfold bind, getScroller in Hrun; now rewrite Hm in Hrun].
    erewrite bind_getScroller in Hrun by exact Hm.
    destruct (scrollElement s) as [el|] eqn:Hel.
    + destruct (trackingScrollTop s) as [top|] eqn:Ht.
      * erewrite bind_update in Hrun by exact Hm.
        destruct (surfaceDestroyed el) eqn:Hd; [discriminate|].
        erewrite bind_update in Hrun by (simpl; apply lookup_insert_eq).
        erewrite bind_update in Hrun by (simpl; apply lookup_insert_eq).
        injection Hrun as <- <-.
        apply (restoreState_nothing _ _ _ (lookup_insert_eq _ _ _)).
        right. reflexivity.
      * injection Hrun as <- <-.
        apply (restoreState_nothing _ _ _ Hm). now right.
    + injection Hrun as <- <-.
      apply (restoreState_nothing _ _ _ Hm). now left.
  - intros s Hm Hno.
    rewrite (restoreState_nothing w me s Hm Hno) in Hrun.
    injection Hrun as <- <-. split; reflexivity.
Qed.

Lemma restoreState_only_once_witness :
  ∃ w1, restoreState "A" shownAgainWorld = Some ([ClearRestoring "A" 50], w1)
        ∧ restoreState "A" w1 = Some ([], w1).
Proof.
  eexists. split; [reflexivity|].
  apply (restoreState_only_once shownAgainWorld _ "A" [ClearRestoring "A" 50]).
  reflexivity.
Defined.

(** ** Scroll start and scroll end leave every scroller where it is *)

Lemma invokePartner_edge w me method x y e sp :
  method ≠ OnPartnerScroll →
  heap w !! scroller e.2 = Some sp →
  invokePartner me method x y e w
  = Some (tt, with_trace (trace w ++ [PartnerCall (scroller e.2) method me x y])
                (with_heap
                   (<[scroller e.2 := set_isReflecting (negb (isEnd method)) sp]>
                      (heap w)) w)).
Proof.
  intros Hmeth Hp. unfold invokePartner.
  erewrite bind_update by exact Hp. unfold callPartner.
  destruct method; [|contradiction|].
  - reflexivity.
  - unfold bind, emit, ret. simpl.
    erewrite update_Some by (simpl; apply lookup_insert_eq).
    simpl. now rewrite insert_insert_eq.
Qed.

Lemma forEach_invokePartner_edge me method x y ps :
  method ≠ OnPartnerScroll →
  ∀ w,
    Forall (λ e, is_Some (heap w !! scroller e.2)) ps →
    ∃ w', forEach ps (invokePartner me method x y) w = Some (tt, w')
      ∧ timers w' = timers w ∧ now w' = now w
      ∧ Ext_isScrolling w' = Ext_isScrolling w
      ∧ trace w' = trace w ++ partnerCalls me method x y ps
      ∧ (∀ id, unflagged <$> heap w' !! id = unflagged <$> heap w !! id).
Proof.
  intros Hmeth. induction ps as [|e ps IH]; intros w Hl.
  - exists w. simpl. rewrite app_nil_r. repeat split.
  - apply Forall_cons in Hl as [[sp Hp] Hl].
    pose proof (invokePartner_edge w me method x y e sp Hmeth Hp) as Hrun1.
    set (w1 := with_trace _ _) in Hrun1.
    assert (∀ id, unflagged <$> heap w1 !! id = unflagged <$> heap w !! id)
      as Hsame1.
    { intros id. subst w1. simpl.
      destruct (decide (scroller e.2 = id)) as [<-|Hne].
      - now rewrite lookup_insert_eq, Hp.
      - now rewrite lookup_insert_ne. }
    destruct (IH w1) as (w' & Hrun & Ht & Hn & Hx & Htr & Hsame).
    { eapply Forall_impl; [exact Hl|]. simpl. intros e' [s' Hs'].
      assert (is_Some (unflagged <$> heap w1 !! scroller e'.2)) as His
        by (rewrite Hsame1, Hs'; eexists; reflexivity).
      exact (proj1 (fmap_is_Some _ _) His). }
    exists w'. split.
    { simpl. now rewrite (bind_Some _ _ _ _ _ Hrun1). }
    split; [exact Ht|]. split; [exact Hn|]. split; [exact Hx|].
    split.
    { rewrite Htr. subst w1. simpl. now rewrite <- app_assoc. }
    intros id. now rewrite Hsame, Hsame1.
Qed.

Lemma fire_edge w name me x y sm :
  name ≠ Scroll →
  heap w !! me = Some sm →
  Forall (λ e, is_Some (heap w !! scroller e.2)) (partners sm) →
  ∃ w', fire name me x y w = Some (tt, w')
    ∧ timers w' = timers w ∧ now w' = now w
    ∧ Ext_isScrolling w' = Ext_isScrolling w
    ∧ trace w' = trace w ++ propagation me (partnerMethod name) x y sm
                   ++ notifications name me x y sm
    ∧ (∀ id, unflagged <$> heap w' !! id = unflagged <$> heap w !! id).
Proof.
  intros Hname Hm Hl.
  assert (partnerMethod name ≠ OnPartnerScroll) as Hmeth
    by (destruct name; [discriminate|contradiction|discriminate]).
  assert (∃ w1, invokePartners me (partnerMethod name) x y w = Some (tt, w1)
            ∧ timers w1 = timers w ∧ now w1 = now w
            ∧ Ext_isScrolling w1 = Ext_isScrolling w
            ∧ trace w1 = trace w ++ propagation me (partnerMethod name) x y sm
            ∧ (∀ id, unflagged <$> heap w1 !! id = unflagged <$> heap w !! id))
    as (w1 & Hrun1 & Ht & Hn & Hx & Htr & Hsame).
  { unfold invokePartners, propagation.
    erewrite bind_getScroller by exact Hm.
    destruct (maySync sm).
    - exact (forEach_invokePartner_edge me _ x y (partners sm) Hmeth w Hl).
    - exists w. rewrite app_nil_r. repeat split. }
  pose proof (Hsame me) as Hme. rewrite Hm in Hme.
  destruct (heap w1 !! me) as [sm1|] eqn:Hm1; [|discriminate].
  assert (unflagged sm1 = unflagged sm) as Hme'
    by (simpl in Hme; congruence).
  clear Hme. rename Hme' into Hme.
  assert (hasListeners sm1 = hasListeners sm) as Hhl
    by exact (f_equal hasListeners Hme).
  assert (component sm1 = component sm) as Hc
    by exact (f_equal component Hme).
  rewrite fire_unfold. rewrite (bind_Some _ _ _ _ _ Hrun1).
  erewrite bind_getScroller by exact Hm1.
  rewrite Hhl, Hc. unfold notifications.
  destruct (listens name (hasListeners sm)), (hasHook name (component sm));
    simpl; unfold bind, emit; simpl;
    (eexists; split; [reflexivity|]; simpl;
     split; [exact Ht|]; split; [exact Hn|]; split; [exact Hx|];
     split; [rewrite Htr, <- ?app_assoc; reflexivity|exact Hsame]).
Qed.

(** X3. The scroll-start and the scroll-end notification move no scroller:
    whatever partners there are, [fireScrollStart] and [fireScrollEnd]
    change nothing in the store but the [isReflecting] flags (the partner
    methods they call are empty in this class), and they leave the pending
    timeouts and [Ext.isScrolling] alone.  Positions and elements change
    through the scroll notification only. *)
Theorem scroll_edges_move_nothing
    (w : World) (me : string) (sm : Scroller) (x y : Z) :
  heap w !! me = Some sm →
  Forall (λ e, is_Some (heap w !! scroller e.2)) (partners sm) →
  ∃ w1 w2,
    fireScrollStart me x y w = Some (tt, w1)
    ∧ fireScrollEnd me x y w = Some (tt, w2)
    ∧ (∀ id, unflagged <$> heap w1 !! id = unflagged <$> heap w !! id)
    ∧ (∀ id, unflagged <$> heap w2 !! id = unflagged <$> heap w !! id)
    ∧ timers w1 = timers w ∧ timers w2 = timers w
    ∧ Ext_isScrolling w1 = Ext_isScrolling w
    ∧ Ext_isScrolling w2 = Ext_isScrolling w.
Proof.
  intros Hm Hl.
  destruct (fire_edge w ScrollStart me x y sm ltac:(discriminate) Hm Hl)
    as (w1 & Hrun1 & Ht1 & _ & Hx1 & _ & Hsame1).
  destruct (fire_edge w ScrollEnd me x y sm ltac:(discriminate) Hm Hl)
    as (w2 & Hrun2 & Ht2 & _ & Hx2 & _ & Hsame2).
  exists w1, w2. repeat (split; [assumption|]). assumption.
Qed.

Lemma scroll_edges_move_nothing_witness :
  ∃ w1 b1,
    fireScrollStart "A" 30 40 pairWorld = Some (tt, w1)
    ∧ heap w1 !! "B" = Some b1
    ∧ position b1 = mkPos 30 40
    ∧ scrollElement b1 = Some (mkSurface 30 40 false)
    ∧ isReflecting b1 = true.
Proof.
  destruct (scroll_edges_move_nothing pairWorld "A"
              (set_partners (Some [("B", mkPartner "B" None)]) demoScroller)
              30 40 eq_refl)
    as (w1 & w2 & Hrun1 & _ & Hsame1 & _).
  { repeat constructor. simpl. eexists; reflexivity. }
  vm_compute in Hrun1. injection Hrun1 as <-.
  eexists _, _. split; [reflexivity|]. split; [reflexivity|].
  repeat split.
Defined.

Lemma onDomScrollEnd_records w me s :
  heap w !! me = Some s →
  Forall (λ e, is_Some (heap w !! scroller e.2)) (partners s) →
  ∃ w1 s1,
    onDomScrollEnd me w = Some (tt, w1)
    ∧ heap w1 !! me = Some s1
    ∧ trackingScrollLeft s1 = Some (px (position s))
    ∧ trackingScrollTop s1 = Some (py (position s))
    ∧ scrollElement s1 = scrollElement s
    ∧ position s1 = position s
    ∧ isScrolling s1 = false
    ∧ restoring s1 = restoring s
    ∧ Ext_isScrolling w1 = false
    ∧ timers w1 = timers w
    ∧ (∀ id, id ≠ me →
         unflagged <$> heap w1 !! id = unflagged <$> heap w !! id).
Proof.
  intros Hm Hl.
  set (x := px (position s)). set (y := py (position s)).
  set (sE := set_trackingScrollTop (Some y)
               (set_trackingScrollLeft (Some x) (set_isScrolling false s))).
  set (w3 := with_heap (<[me := sE]> (heap w)) (with_Ext_isScrolling false w)).
  assert (heap w3 !! me = Some sE) as HmE by apply lookup_insert_eq.
  assert (Forall (λ e, is_Some (heap w3 !! scroller e.2)) (partners sE)) as HlE.
  { eapply Forall_impl; [exact Hl|]. simpl. intros e [sp Hp]. subst w3. simpl.
    destruct (decide (me = scroller e.2)) as [<-|Hne].
    - rewrite lookup_insert_eq. eexists; reflexivity.
    - rewrite lookup_insert_ne by done. eexists; exact Hp. }
  destruct (fire_edge w3 ScrollEnd me x y sE ltac:(discriminate) HmE HlE)
    as (w1 & Hrun & Ht & _ & Hx & _ & Hsame).
  pose proof (Hsame me) as Hme. rewrite HmE in Hme.
  destruct (heap w1 !! me) as [s1|] eqn:Hm1; [|discriminate].
  assert (unflagged s1 = unflagged sE) as Hu by (simpl in Hme; congruence).
  exists w1, s1. split.
  { unfold onDomScrollEnd, getPosition.
    erewrite bind_Some; cycle 1.
    { erewrite bind_getScroller by exact Hm. reflexivity. }
    fold x y.
    erewrite bind_update by exact Hm.
    unfold bind at 1. unfold setExtIsScrolling at 1.
    erewrite bind_update by (simpl; apply lookup_insert_eq).
    simpl. rewrite insert_insert_eq. exact Hrun. }
  split; [exact Hm1|].
  split; [exact (f_equal trackingScrollLeft Hu)|].
  split; [exact (f_equal trackingScrollTop Hu)|].
  split; [exact (f_equal scrollElement Hu)|].
  split; [exact (f_equal position Hu)|].
  split; [exact (f_equal isScrolling Hu)|].
  split; [exact (f_equal restoring Hu)|].
  split; [exact Hx|]. split; [exact Ht|].
  intros id Hne. rewrite Hsame. subst w3. simpl. now rewrite lookup_insert_ne.
Qed.

(** X4. What [restoreState] puts back is where the last scroll ended:
    [onDomScrollEnd] records the position, and wherever the element is
    left afterwards, [restoreState] writes the recorded offsets to it. *)
Theorem scroll_end_position_is_restored
    (w : World) (me : string) (s : Scroller) (el : Surface) (q : Pos) :
  heap w !! me = Some s →
  Forall (λ e, is_Some (heap w !! scroller e.2)) (partners s) →
  scrollElement s = Some el → surfaceDestroyed el = false →
  ∃ w1 w2 s2,
    onDomScrollEnd me w = Some (tt, w1)
    ∧ (moveElement me q >> restoreState me) w1
      = Some ([ClearRestoring me 50], w2)
    ∧ heap w2 !! me = Some s2
    ∧ scrollElement s2
      = Some (mkSurface (px (position s)) (py (position s)) false)
    ∧ restoring s2 = true.
Proof.
  intros Hm Hl Hel Hd.
  destruct (onDomScrollEnd_records w me s Hm Hl)
    as (w1 & s1 & Hrun1 & Hm1 & Hx & Hy & Hel1 & _).
  set (s1' := set_scrollElement
                ((λ el, mkSurface (px q) (py q) (surfaceDestroyed el))
                   <$> scrollElement s1) s1).
  set (w1' := with_heap (<[me := s1']> (heap w1)) w1).
  assert (heap w1' !! me = Some s1') as Hm1' by apply lookup_insert_eq.
  assert (scrollElement s1' = Some (mkSurface (px q) (py q) false)) as Hel1'.
  { subst s1'. simpl. rewrite Hel1, Hel. simpl. now rewrite Hd. }
  pose proof (restoreState_run w1' me s1' _ (py (position s)) Hm1' Hel1'
                eq_refl Hy) as Hrun2.
  eexists w1, _, _. split; [exact Hrun1|]. split.
  { unfold moveElement. erewrite bind_update by exact Hm1.
    fold s1' w1'. exact Hrun2. }
  split; [simpl; apply lookup_insert_eq|].
  simpl. split; [|reflexivity].
  replace (trackingScrollLeft s1) with (Some (px (position s))).
  reflexivity.
Qed.

Lemma scroll_end_position_is_restored_witness :
  ∃ w1 w2 s2,
    onDomScrollEnd "A" demoWorld = Some (tt, w1)
    ∧ (moveElement "A" (mkPos 0 0) >> restoreState "A") w1
      = Some ([ClearRestoring "A" 50], w2)
    ∧ heap w2 !! "A" = Some s2
    ∧ scrollElement s2 = Some (mkSurface 30 40 false).
Proof.
  destruct (scroll_end_position_is_restored demoWorld "A" demoScroller
              (mkSurface 30 40 false) (mkPos 0 0) eq_refl)
    as (w1 & w2 & s2 & H1 & H2 & H3 & H4 & _); try reflexivity.
  { constructor. }
  exists w1, w2, s2. repeat (split; [assumption|]). exact H4.
Defined.

(** ** Partner maps as a whole *)

Lemma objSet_objSet {V : Type} k (v v' : V) o :
  objSet k v' (objSet k v o) = objSet k v' o.
Proof.
  induction o as [|[k0 v0] o IH]; simpl.
  - now rewrite decide_True.
  - destruct (decide (k0 = k)) as [->|Hne]; simpl.
    + now rewrite decide_True.
    + rewrite decide_False by done. now rewrite IH.
Qed.

Lemma objDelete_objDelete {V : Type} k (o : list (string * V)) :
  objDelete k (objDelete k o) = objDelete k o.
Proof.
  induction o as [|[k0 v0] o IH]; simpl; [reflexivity|].
  destruct (decide (k0 = k)) as [->|Hne]; simpl; [exact IH|].
  rewrite decide_False by done. now rewrite IH.
Qed.

Lemma objDelete_absent {V : Type} k (o : list (string * V)) :
  objGet k o = None → objDelete k o = o.
Proof.
  induction o as [|[k0 v0] o IH]; simpl; [reflexivity|].
  destruct (decide (k0 = k)) as [->|Hne]; [discriminate|].
  intros H. now rewrite IH.
Qed.

Lemma objDelete_objSet {V : Type} k (v : V) o :
  objGet k o = None → objDelete k (objSet k v o) = o.
Proof.
  induction o as [|[k0 v0] o IH]; simpl.
  - now rewrite decide_True.
  - destruct (decide (k0 = k)) as [->|Hne]; [discriminate|].
    intros H. simpl. rewrite decide_False by done. now rewrite IH.
Qed.

Lemma objGet_objSet {V : Type} k k' (v : V) o :
  objGet k' (objSet k v o) = if decide (k' = k) then Some v else objGet k' o.
Proof.
  destruct (decide (k' = k)) as [->|Hne].
  - apply objGet_objSet_eq.
  - apply objGet_objSet_ne. congruence.
Qed.

Lemma objGet_objDelete {V : Type} k k' (o : list (string * V)) :
  objGet k' (objDelete k o) = if decide (k' = k) then None else objGet k' o.
Proof.
  destruct (decide (k' = k)) as [->|Hne].
  - apply objGet_objDelete_eq.
  - apply objGet_objDelete_ne. congruence.
Qed.

Lemma partners_deletePartner k s :
  partners (deletePartner k s) = objDelete k (partners s).
Proof.
  unfold deletePartner, partners. destruct (_partners s) eqn:E; simpl.
  - reflexivity.
  - now rewrite E.
Qed.

Lemma deletePartner_twice k s :
  deletePartner k (deletePartner k s) = deletePartner k s.
Proof.
  unfold deletePartner. destruct (_partners s) eqn:E; simpl.
  - now rewrite objDelete_objDelete.
  - now rewrite E.
Qed.

(** The store [addPartner] leaves. *)
Lemma addPartner_heap w A B a b ax :
  heap w !! A = Some a → heap w !! B = Some b →
  ∃ h', addPartner A B ax w = Some (tt, with_heap h' w)
    ∧ ∀ id, h' !! id
            = if decide (id = A)
              then Some (set_partners
                           (Some (objSet B (mkPartner B ax) (partners a))) a)
              else if decide (id = B)
              then Some (set_partners
                           (Some (objSet A (mkPartner A ax) (partners b))) b)
              else heap w !! id.
Proof.
  intros HA HB. unfold addPartner.
  destruct (decide (A = B)) as [<-|Hne].
  - erewrite bind_update by exact HA. simpl.
    erewrite bind_update by (simpl; apply lookup_insert_eq). simpl.
    erewrite bind_update by (simpl; apply lookup_insert_eq). simpl.
    erewrite update_Some by (simpl; apply lookup_insert_eq). simpl.
    eexists. split; [reflexivity|]. intros id.
    rewrite !insert_insert_eq.
    destruct (decide (id = A)) as [->|Hid].
    + rewrite lookup_insert_eq. unfold partners at 1. simpl.
      now rewrite objSet_objSet.
    + now rewrite lookup_insert_ne.
  - erewrite bind_update by exact HA. simpl.
    erewrite bind_update by (simpl; rewrite lookup_insert_ne by done; exact HB).
    simpl.
    erewrite bind_update
      by (simpl; rewrite lookup_insert_ne by done; apply lookup_insert_eq).
    simpl.
    erewrite update_Some
      by (simpl; rewrite lookup_insert_ne by done; apply lookup_insert_eq).
    eexists. split; [reflexivity|]. intros id. simpl.
    destruct (decide (id = A)) as [->|HidA].
    + rewrite lookup_insert_ne by done. now rewrite lookup_insert_eq.
    + destruct (decide (id = B)) as [->|HidB].
      * now rewrite lookup_insert_eq.
      * now rewrite !lookup_insert_ne by done.
Qed.

(** The store [removePartner] leaves. *)
Lemma removePartner_heap w A B a b :
  heap w !! A = Some a → heap w !! B = Some b →
  ∃ h', removePartner A B w = Some (tt, with_heap h' w)
    ∧ ∀ id, h' !! id
            = if decide (id = A) then Some (deletePartner B a)
              else if decide (id = B) then Some (deletePartner A b)
              else heap w !! id.
Proof.
  intros HA HB. unfold removePartner.
  erewrite bind_getScroller by exact HB.
  destruct (decide (A = B)) as [<-|Hne].
  - erewrite bind_update by exact HA. simpl.
    erewrite update_Some by (simpl; apply lookup_insert_eq). simpl.
    eexists. split; [reflexivity|]. intros id.
    rewrite insert_insert_eq.
    destruct (decide (id = A)) as [->|Hid].
    + rewrite lookup_insert_eq. now rewrite deletePartner_twice.
    + now rewrite lookup_insert_ne.
  - erewrite bind_update by exact HA. simpl.
    erewrite update_Some by (simpl; rewrite lookup_insert_ne by done; exact HB).
    eexists. split; [reflexivity|]. intros id. simpl.
    destruct (decide (id = A)) as [->|HidA].
    + rewrite lookup_insert_ne by done. now rewrite lookup_insert_eq.
    + destruct (decide (id = B)) as [->|HidB].
      * now rewrite lookup_insert_eq.
      * now rewrite !lookup_insert_ne by done.
Qed.

Lemma addPartner_missing w A B ax :
  heap w !! A = None ∨ heap w !! B = None → addPartner A B ax w = None.
Proof.
  intros Hno. unfold addPartner.
  destruct (heap w !! A) as [a|] eqn:HA.
  - destruct Hno as [Hno|Hno]; [discriminate|].
    erewrite bind_update by exact HA.
    unfold bind at 1. unfold update at 1. simpl.
    destruct (decide (A = B)) as [<-|Hne]; [congruence|].
    now rewrite lookup_insert_ne, Hno.
  - unfold bind at 1. unfold update at 1. now rewrite HA.
Qed.

Lemma removePartner_missing w A B :
  heap w !! A = None ∨ heap w !! B = None → removePartner A B w = None.
Proof.
  intros Hno. unfold removePartner.
  destruct (heap w !! B) as [b|] eqn:HB.
  - destruct Hno as [Hno|Hno]; [|discriminate].
    erewrite bind_getScroller by exact HB.
    unfold bind at 1. unfold update at 1. now rewrite Hno.
  - unfold bind at 1. unfold getScroller at 1. now rewrite HB.
Qed.

Lemma partners_set_partners l s : partners (set_partners (Some l) s) = l.
Proof. reflexivity. Qed.

Lemma addPartner_symmetric w A B a b ax :
  symmetricPartners w → heap w !! A = Some a → heap w !! B = Some b →
  ∃ w1, addPartner A B ax w = Some (tt, w1) ∧ symmetricPartners w1.
Proof.
  intros Hsym HA HB.
  destruct (addPartner_heap w A B a b ax HA HB) as (h' & Hrun & Hh).
  eexists. split; [exact Hrun|].
  intros a0 sa b0 e Ha0 He. simpl in Ha0. rewrite Hh in Ha0.
  assert (∀ id, (with_heap h' w).(heap) !! id = h' !! id) as Hw by reflexivity.
  setoid_rewrite Hw. clear Hw.
  destruct (decide (a0 = A)) as [->|Ha0A].
  - injection Ha0 as <-. rewrite partners_set_partners, objGet_objSet in He.
    destruct (decide (b0 = B)) as [->|Hb0B].
    + injection He as <-. split; [reflexivity|].
      rewrite Hh. destruct (decide (B = A)) as [->|HBA].
      * eexists. split; [reflexivity|].
        rewrite partners_set_partners. apply objGet_objSet_eq.
      * rewrite decide_True by reflexivity.
        eexists. split; [reflexivity|].
        rewrite partners_set_partners. apply objGet_objSet_eq.
    + destruct (Hsym A a b0 e HA He) as (Hsc & sb & Hb0 & Hback).
      split; [exact Hsc|]. rewrite Hh.
      destruct (decide (b0 = A)) as [->|Hb0A].
      * eexists. split; [reflexivity|].
        rewrite partners_set_partners, objGet_objSet.
        rewrite decide_False by congruence. congruence.
      * rewrite decide_False by done. now exists sb.
  - destruct (decide (a0 = B)) as [->|Ha0B].
    + injection Ha0 as <-. rewrite partners_set_partners, objGet_objSet in He.
      destruct (decide (b0 = A)) as [->|Hb0A].
      * injection He as <-. split; [reflexivity|].
        rewrite Hh, decide_True by reflexivity.
        eexists. split; [reflexivity|].
        rewrite partners_set_partners. apply objGet_objSet_eq.
      * destruct (Hsym B b b0 e HB He) as (Hsc & sb & Hb0 & Hback).
        split; [exact Hsc|]. rewrite Hh.
        rewrite decide_False by done.
        destruct (decide (b0 = B)) as [->|Hb0B].
        -- eexists. split; [reflexivity|].
           rewrite partners_set_partners, objGet_objSet.
           rewrite decide_False by congruence. congruence.
        -- now exists sb.
    + destruct (Hsym a0 sa b0 e Ha0 He) as (Hsc & sb & Hb0 & Hback).
      split; [exact Hsc|]. rewrite Hh.
      destruct (decide (b0 = A)) as [->|Hb0A].
      * eexists. split; [reflexivity|].
        rewrite partners_set_partners, objGet_objSet.
        rewrite decide_False by done. congruence.
      * destruct (decide (b0 = B)) as [->|Hb0B].
        -- eexists. split; [reflexivity|].
           rewrite partners_set_partners, objGet_objSet.
           rewrite decide_False by done. congruence.
        -- now exists sb.
Qed.

Lemma removePartner_symmetric w A B a b :
  symmetricPartners w → heap w !! A = Some a → heap w !! B = Some b →
  ∃ w1, removePartner A B w = Some (tt, w1) ∧ symmetricPartners w1.
Proof.
  intros Hsym HA HB.
  destruct (removePartner_heap w A B a b HA HB) as (h' & Hrun & Hh).
  eexists. split; [exact Hrun|].
  intros a0 sa b0 e Ha0 He. simpl in Ha0. rewrite Hh in Ha0.
  assert (∀ id, (with_heap h' w).(heap) !! id = h' !! id) as Hw by reflexivity.
  setoid_rewrite Hw. clear Hw.
  destruct (decide (a0 = A)) as [->|Ha0A].
  - injection Ha0 as <-. rewrite partners_deletePartner, objGet_objDelete in He.
    destruct (decide (b0 = B)) as [->|Hb0B]; [discriminate|].
    destruct (Hsym A a b0 e HA He) as (Hsc & sb & Hb0 & Hback).
    split; [exact Hsc|]. rewrite Hh.
    destruct (decide (b0 = A)) as [->|Hb0A].
    + eexists. split; [reflexivity|].
      rewrite partners_deletePartner, objGet_objDelete.
      rewrite decide_False by congruence. congruence.
    + rewrite decide_False by done. now exists sb.
  - destruct (decide (a0 = B)) as [->|Ha0B].
    + injection Ha0 as <-.
      rewrite partners_deletePartner, objGet_objDelete in He.
      destruct (decide (b0 = A)) as [->|Hb0A]; [discriminate|].
      destruct (Hsym B b b0 e HB He) as (Hsc & sb & Hb0 & Hback).
      split; [exact Hsc|]. rewrite Hh.
      rewrite decide_False by done.
      destruct (decide (b0 = B)) as [->|Hb0B].
      * eexists. split; [reflexivity|].
        rewrite partners_deletePartner, objGet_objDelete.
        rewrite decide_False by congruence. congruence.
      * now exists sb.
    + destruct (Hsym a0 sa b0 e Ha0 He) as (Hsc & sb & Hb0 & Hback).
      split; [exact Hsc|]. rewrite Hh.
      destruct (decide (b0 = A)) as [->|Hb0A].
      * eexists. split; [reflexivity|].
        rewrite partners_deletePartner, objGet_objDelete.
        rewrite decide_False by done. congruence.
      * destruct (decide (b0 = B)) as [->|Hb0B].
        -- eexists. split; [reflexivity|].
           rewrite partners_deletePartner, objGet_objDelete.
           rewrite decide_False by done. congruence.
        -- now exists sb.
Qed.

(** X5. Symmetry is an invariant of the partner maps as a whole: in a
    store where every entry of every map is filed under its scroller's id
    and answered by an entry with the same axis on the other side,
    [addPartner] and [removePartner] between any two scrollers leave a
    store that is symmetric again, for all partnerships and not only the
    one they touch. *)
Theorem partner_maps_stay_symmetric
    (w : World) (A B : string) (a b : Scroller) (ax : option string) :
  symmetricPartners w →
  heap w !! A = Some a → heap w !! B = Some b →
  (∃ w1, addPartner A B ax w = Some (tt, w1) ∧ symmetricPartners w1)
  ∧ (∃ w2, removePartner A B w = Some (tt, w2) ∧ symmetricPartners w2).
Proof.
  intros Hsym HA HB. split.
  - exact (addPartner_symmetric w A B a b ax Hsym HA HB).
  - exact (removePartner_symmetric w A B a b Hsym HA HB).
Qed.

Lemma symmetricPartners_demoWorld : symmetricPartners demoWorld.
Proof.
  intros a sa b e Ha He. exfalso. unfold demoWorld in Ha. simpl in Ha.
  destruct (decide (a = "A")) as [->|HnA].
  - rewrite lookup_insert_eq in Ha. injection Ha as <-. discriminate.
  - rewrite lookup_insert_ne in Ha by done.
    destruct (decide (a = "B")) as [->|HnB].
    + rewrite lookup_insert_eq in Ha. injection Ha as <-. discriminate.
    + rewrite lookup_insert_ne in Ha by done. discriminate.
Qed.

Lemma partner_maps_stay_symmetric_witness :
  symmetricPartners demoWorld
  ∧ ∃ w1 a1, addPartner "A" "B" (Some "x") demoWorld = Some (tt, w1)
             ∧ symmetricPartners w1
             ∧ heap w1 !! "A" = Some a1
             ∧ partners a1 = [("B", mkPartner "B" (Some "x"))].
Proof.
  split; [exact symmetricPartners_demoWorld|].
  destruct (partner_maps_stay_symmetric demoWorld "A" "B" demoScroller
              demoScroller (Some "x") symmetricPartners_demoWorld
              eq_refl eq_refl) as ((w1 & Hrun & Hsym) & _).
  exists w1. eexists. split; [exact Hrun|]. split; [exact Hsym|].
  vm_compute in Hrun. injection Hrun as <-. split; reflexivity.
Defined.

Lemma world_eq_heap (w : World) (h1 h2 : gmap string Scroller) :
  (∀ id, h1 !! id = h2 !! id) → with_heap h1 w = with_heap h2 w.
Proof. intros H. f_equal. apply map_eq, H. Qed.

Lemma with_heap_twice (w : World) (h0 h : gmap string Scroller) :
  with_heap h (with_heap h0 w) = with_heap h w.
Proof. reflexivity. Qed.

(** X6. Adding a partner that is there already replaces its axis on both
    sides and adds no second entry: two [addPartner] calls for the same
    pair leave exactly the store the second one alone would leave, in
    every state, also one in which a call raises. *)
Theorem addPartner_again_replaces
    (w : World) (A B : string) (ax1 ax2 : option string) :
  (addPartner A B ax1 >> addPartner A B ax2) w = addPartner A B ax2 w.
Proof.
  destruct (heap w !! A) as [a|] eqn:HA; cycle 1.
  { unfold bind. now rewrite !addPartner_missing by (now left). }
  destruct (heap w !! B) as [b|] eqn:HB; cycle 1.
  { unfold bind. now rewrite !addPartner_missing by (now right). }
  destruct (addPartner_heap w A B a b ax1 HA HB) as (h1 & Hrun1 & Hh1).
  destruct (addPartner_heap w A B a b ax2 HA HB) as (h2 & Hrun2 & Hh2).
  rewrite (bind_Some _ _ _ _ _ Hrun1), Hrun2.
  pose proof (Hh1 A) as HA1. rewrite decide_True in HA1 by reflexivity.
  pose proof (Hh1 B) as HB1.
  destruct (decide (B = A)) as [->|Hne].
  - destruct (addPartner_heap (with_heap h1 w) A A _ _ ax2 HA1 HA1)
      as (h3 & Hrun3 & Hh3).
    rewrite Hrun3, with_heap_twice. f_equal. f_equal.
    apply world_eq_heap. intros id.
    rewrite Hh3, Hh2. simpl.
    destruct (decide (id = A)) as [->|Hid].
    + rewrite HA in HB. injection HB as <-.
      rewrite partners_set_partners, objSet_objSet. reflexivity.
    + rewrite Hh1. now rewrite !decide_False by done.
  - rewrite decide_True in HB1 by reflexivity.
    destruct (addPartner_heap (with_heap h1 w) A B _ _ ax2 HA1 HB1)
      as (h3 & Hrun3 & Hh3).
    rewrite Hrun3, with_heap_twice. f_equal. f_equal.
    apply world_eq_heap. intros id.
    rewrite Hh3, Hh2. simpl.
    destruct (decide (id = A)) as [->|HidA].
    + rewrite partners_set_partners, objSet_objSet. reflexivity.
    + destruct (decide (id = B)) as [->|HidB].
      * rewrite partners_set_partners, objSet_objSet. reflexivity.
      * rewrite Hh1. now rewrite !decide_False by done.
Qed.

(** X7. It does not matter which side of a pair asks: [A.addPartner(B,
    axis)] and [B.addPartner(A, axis)] leave the same store, and so do
    [A.removePartner(B)] and [B.removePartner(A)], in every state. *)
Theorem partner_calls_commute
    (w : World) (A B : string) (ax : option string) :
  addPartner A B ax w = addPartner B A ax w
  ∧ removePartner A B w = removePartner B A w.
Proof.
  destruct (heap w !! A) as [a|] eqn:HA; cycle 1.
  { rewrite (addPartner_missing w A B) by (now left).
    rewrite (addPartner_missing w B A) by (now right).
    rewrite (removePartner_missing w A B) by (now left).
    now rewrite (removePartner_missing w B A) by (now right). }
  destruct (heap w !! B) as [b|] eqn:HB; cycle 1.
  { rewrite (addPartner_missing w A B) by (now right).
    rewrite (addPartner_missing w B A) by (now left).
    rewrite (removePartner_missing w A B) by (now right).
    now rewrite (removePartner_missing w B A) by (now left). }
  destruct (addPartner_heap w A B a b ax HA HB) as (h1 & -> & Hh1).
  destruct (addPartner_heap w B A b a ax HB HA) as (h2 & -> & Hh2).
  destruct (removePartner_heap w A B a b HA HB) as (h3 & -> & Hh3).
  destruct (removePartner_heap w B A b a HB HA) as (h4 & -> & Hh4).
  split; f_equal; f_equal; apply world_eq_heap; intros id.
  - rewrite Hh1, Hh2.
    destruct (decide (id = A)) as [HidA|HidA], (decide (id = B)) as [HidB|HidB];
      try reflexivity.
    subst id. subst B. rewrite HA in HB. now injection HB as <-.
  - rewrite Hh3, Hh4.
    destruct (decide (id = A)) as [HidA|HidA], (decide (id = B)) as [HidB|HidB];
      try reflexivity.
    subst id. subst B. rewrite HA in HB. now injection HB as <-.
Qed.

(** X8. Adding a partnership that was not there and removing it again
    leaves every scroller as it was, but that the two scrollers now have a
    partner map where they may have had none: the entries of every map,
    their order and everything else are as before. *)
Theorem addPartner_removePartner_round_trip
    (w : World) (A B : string) (a b : Scroller) (ax : option string) :
  heap w !! A = Some a → heap w !! B = Some b →
  objGet B (partners a) = None → objGet A (partners b) = None →
  ∃ w',
    (addPartner A B ax >> removePartner A B) w = Some (tt, w')
    ∧ heap w' !! A = Some (withPartnerMap a)
    ∧ heap w' !! B = Some (withPartnerMap b)
    ∧ (∀ id, id ≠ A → id ≠ B → heap w' !! id = heap w !! id)
    ∧ timers w' = timers w ∧ now w' = now w ∧ trace w' = trace w
    ∧ Ext_isScrolling w' = Ext_isScrolling w.
Proof.
  intros HA HB HnoB HnoA.
  destruct (addPartner_heap w A B a b ax HA HB) as (h1 & Hrun1 & Hh1).
  pose proof (Hh1 A) as HA1. rewrite decide_True in HA1 by reflexivity.
  pose proof (Hh1 B) as HB1.
  assert (∃ b1, h1 !! B = Some b1
                ∧ deletePartner A b1 = withPartnerMap b) as (b1 & HB1' & Hb1).
  { destruct (decide (B = A)) as [->|Hne].
    - rewrite HA in HB. injection HB as <-.
      eexists. split; [exact HB1|].
      unfold deletePartner, withPartnerMap. simpl.
      now rewrite objDelete_objSet.
    - rewrite decide_True in HB1 by reflexivity.
      eexists. split; [exact HB1|].
      unfold deletePartner, withPartnerMap. simpl.
      now rewrite objDelete_objSet. }
  destruct (removePartner_heap (with_heap h1 w) A B _ b1 HA1 HB1')
    as (h2 & Hrun2 & Hh2).
  eexists. split.
  { rewrite (bind_Some _ _ _ _ _ Hrun1). exact Hrun2. }
  simpl. split.
  { rewrite Hh2, decide_True by reflexivity.
    unfold deletePartner, withPartnerMap. simpl.
    now rewrite objDelete_objSet. }
  split.
  { rewrite Hh2. destruct (decide (B = A)) as [->|Hne].
    - rewrite HA in HB. injection HB as <-.
      unfold deletePartner, withPartnerMap. simpl.
      now rewrite objDelete_objSet.
    - rewrite decide_True by reflexivity. now rewrite Hb1. }
  split.
  { intros id HidA HidB. rewrite Hh2, !decide_False by done.
    rewrite Hh1. now rewrite !decide_False. }
  repeat split.
Qed.

Lemma addPartner_removePartner_round_trip_witness :
  ∃ w', (addPartner "A" "B" (Some "x") >> removePartner "A" "B") demoWorld
        = Some (tt, w')
        ∧ heap w' !! "A" = Some (withPartnerMap demoScroller)
        ∧ heap w' !! "B" = Some (withPartnerMap demoScroller).
Proof.
  destruct (addPartner_removePartner_round_trip demoWorld "A" "B"
              demoScroller demoScroller (Some "x")
              eq_refl eq_refl eq_refl eq_refl)
    as (w' & H1 & H2 & H3 & _).
  exists w'. repeat split; assumption.
Defined.

(** ** A destroyed partner *)

Lemma objGet_elem {V : Type} k (v : V) o : objGet k o = Some v → (k, v) ∈ o.
Proof.
  induction o as [|[k0 v0] o IH]; simpl; [discriminate|].
  destruct (decide (k0 = k)) as [->|Hne].
  - intros [= ->]. now left.
  - intros H. right. now apply IH.
Qed.

(** One turn of the loop of [syncWithPartners] writes to [me] only. *)
Lemma syncWithPartners_turn_frame w w1 me other entry :
  me ≠ other →
  (let* position := getPosition (scroller entry) in
   onPartnerScroll me (scroller entry) (px position) (py position)) w
  = Some (tt, w1) →
  heap w1 !! other = heap w !! other.
Proof.
  intros Hne Hturn. unfold getPosition, onPartnerScroll, doScrollTo in Hturn.
  unfold bind, getScroller, ret, update, throw in Hturn.
  destruct (heap w !! scroller entry) as [sp|] eqn:Hp; [|discriminate].
  cbv beta iota in Hturn. rewrite Hp in Hturn.
  destruct (_partners sp) as [ps|]; [|discriminate].
  destruct (objGet me ps) as [en|]; [|discriminate].
  destruct (heap w !! me) as [sm|]; [|discriminate].
  injection Hturn as <-. simpl. now rewrite lookup_insert_ne.
Qed.

Lemma syncWithPartners_loop_raises me other (ps : list (string * Partner)) :
  me ≠ other →
  ∀ w so,
    heap w !! other = Some so → _partners so = None →
    (∃ e, e ∈ ps ∧ scroller e.2 = other) →
    forEach ps (λ entry,
      let partner := scroller entry.2 in
      let* position := getPosition partner in
      onPartnerScroll me partner (px position) (py position)) w = None.
Proof.
  intros Hne. induction ps as [|e0 ps IH]; intros w so Ho Hps (e & Hin & He).
  - now apply elem_of_nil in Hin.
  - cbn [forEach].
    destruct (decide (scroller e0.2 = other)) as [Heq|Hneq].
    + unfold bind at 1. rewrite Heq.
      unfold getPosition, onPartnerScroll, bind, getScroller, ret, throw.
      rewrite Ho. cbv beta iota. now rewrite Ho, Hps.
    + unfold bind at 1.
      destruct ((let* position := getPosition (scroller e0.2) in
                 onPartnerScroll me (scroller e0.2) (px position) (py position))
                  w) as [[[] w1]|] eqn:Hturn; [|reflexivity].
      apply (IH w1 so).
      * rewrite (syncWithPartners_turn_frame w w1 me other e0.2 Hne Hturn).
        exact Ho.
      * exact Hps.
      * exists e. split; [|exact He].
        apply elem_of_cons in Hin as [->|Hin]; [contradiction|exact Hin].
Qed.

(** X9. [destroy] does not take the scroller out of its partners' maps:
    it drops its own map only.  A partner [A] of the destroyed scroller
    [B] is left as it was, still listing [B]; and a [syncWithPartners] of
    [A] afterwards raises, for it reads the axis from the map of [B],
    which is [null] by then. *)
Theorem destroyed_partner_breaks_sync
    (w : World) (A B : string) (a b : Scroller) (e : Partner) :
  heap w !! A = Some a → heap w !! B = Some b → A ≠ B →
  objGet B (partners a) = Some e → scroller e = B →
  ∃ w' b',
    destroy B w = Some (tt, w')
    ∧ heap w' !! A = Some a
    ∧ heap w' !! B = Some b'
    ∧ _partners b' = None
    ∧ syncWithPartners A w' = None.
Proof.
  intros HA HB Hne He Hsc.
  pose proof (destroy_run w B b HB) as Hrun. simpl in Hrun.
  eexists _, _. split; [exact Hrun|]. simpl.
  split; [now rewrite lookup_insert_ne|].
  split; [apply lookup_insert_eq|].
  split; [reflexivity|].
  unfold syncWithPartners.
  erewrite bind_getScroller by (simpl; rewrite lookup_insert_ne by done; exact HA).
  erewrite bind_update by (simpl; rewrite lookup_insert_ne by done; exact HA).
  unfold bind at 1.
  erewrite (syncWithPartners_loop_raises A B (partners a) Hne); [reflexivity| | |].
  - simpl. rewrite lookup_insert_ne by done. apply lookup_insert_eq.
  - reflexivity.
  - exists (B, e). split; [now apply objGet_elem|exact Hsc].
Qed.

Lemma destroyed_partner_breaks_sync_witness :
  syncWithPartners "A" pairWorld ≠ None
  ∧ ∃ w', destroy "B" pairWorld = Some (tt, w')
          ∧ syncWithPartners "A" w' = None.
Proof.
  split; [vm_compute; discriminate|].
  destruct (destroyed_partner_breaks_sync pairWorld "A" "B" _ _
              (mkPartner "B" None) eq_refl eq_refl ltac:(discriminate)
              eq_refl eq_refl)
    as (w' & b' & H1 & _ & _ & _ & H2).
  exists w'. split; assumption.
Defined.

(** ** [scrollBy] against [scrollTo] *)

(** X10. [scrollBy] is [scrollTo] of the current position plus the deltas
    as long as neither sum is negative.  ([scrollTo] reads a negative
    target as an offset from the maximum; [scrollBy] hands the sum to
    [doScrollTo] as it is.) *)
Theorem scrollBy_is_scrollTo_of_sum
    (w : World) (me : string) (s : Scroller) (dx dy : Z) (a : JsVal) :
  heap w !! me = Some s →
  0 ≤ dx + px (position s) → 0 ≤ dy + py (position s) →
  scrollBy me (AVal (VNum dx)) (VNum dy) a w
  = scrollTo me (AVal (VNum (dx + px (position s))))
      (VNum (dy + py (position s))) a w.
Proof.
  intros Hm Hx Hy.
  rewrite (scrollBy_run _ _ _ _ _ _ Hm), (scrollTo_run _ _ _ _ _ _ Hm).
  unfold scrollByTarget, scrollToTarget.
  rewrite !(proj1 (unpackArgs_numbers _ _ _ VNull)). simpl.
  assert ((dx + px (position s) <? 0) = false) as -> by lia.
  assert ((dy + py (position s) <? 0) = false) as -> by lia.
  reflexivity.
Qed.

Lemma scrollBy_is_scrollTo_of_sum_witness :
  scrollBy "A" (AVal (VNum (-30))) (VNum 5) (VBool false) demoWorld
  = scrollTo "A" (AVal (VNum 0)) (VNum 45) (VBool false) demoWorld.
Proof.
  apply (scrollBy_is_scrollTo_of_sum demoWorld "A" demoScroller (-30) 5
           (VBool false) eq_refl); simpl; lia.
Defined.

(** ** A reflected scroll goes no further *)

(** The scroll listener of a scroller whose guard is closed. *)
Lemma onDomScroll_guarded w me s q :
  heap w !! me = Some s → maySync s = false →
  restoring s = false → bufferedScrollEnd s = Some q →
  ∃ w',
    onDomScroll me w = Some (tt, w')
    ∧ heap w'
      = <[me := set_isScrolling true
                  (set_positionDirty false (set_position (domPosition s) s))]>
          (heap w)
    ∧ trace w'
      = trace w
        ++ (if isScrolling s then []
            else notifications ScrollStart me
                   (px (domPosition s)) (py (domPosition s)) s)
        ++ notifications Scroll me
             (px (domPosition s)) (py (domPosition s)) s
    ∧ timers w' = filter (λ t, t.1 ≠ me) (timers w) ++ [(me, now w + q)].
Proof.
  intros Hm Hg Hr Hq.
  set (p := domPosition s).
  set (sA := set_positionDirty false (set_position p s)).
  set (wA := with_heap (<[me := sA]> (heap w)) w).
  assert (heap wA !! me = Some sA) as HmA by apply lookup_insert_eq.
  unfold onDomScroll, updateDomScrollPosition.
  erewrite bind_Some; cycle 1.
  { erewrite bind_getScroller by exact Hm.
    erewrite bind_update by exact Hm. reflexivity. }
  fold p sA wA.
  erewrite bind_getScroller by exact HmA.
  replace (restoring sA) with false by (symmetry; exact Hr).
  replace (isScrolling sA) with (isScrolling s) by reflexivity.
  destruct (isScrolling s) eqn:Hscr; cbn [negb when].
  - unfold bind at 1. unfold ret at 1.
    change (fireScroll me (px p) (py p)) with (fire Scroll me (px p) (py p)).
    rewrite (bind_Some _ _ _ _ _ (fire_guarded wA Scroll me _ _ sA HmA Hg)).
    erewrite bind_getScroller by exact HmA.
    replace (bufferedScrollEnd sA) with (Some q) by (symmetry; exact Hq).
    unfold callBuffered. eexists. split; [reflexivity|]. simpl.
    split.
    { f_equal. destruct s; simpl in *; subst; reflexivity. }
    split; reflexivity.
  - set (sB := set_isScrolling true sA).
    set (wB := with_Ext_isScrolling true
                 (with_heap (<[me := sB]> (heap wA)) wA)).
    assert (heap wB !! me = Some sB) as HmB by apply lookup_insert_eq.
    erewrite bind_Some; cycle 1.
    { erewrite bind_update by exact HmA.
      unfold bind at 1. unfold setExtIsScrolling at 1.
      change (fireScrollStart me (px p) (py p))
        with (fire ScrollStart me (px p) (py p)).
      fold sB wB. exact (fire_guarded wB ScrollStart me _ _ sB HmB Hg). }
    change (fireScroll me (px p) (py p)) with (fire Scroll me (px p) (py p)).
    erewrite bind_Some; cycle 1.
    { apply (fire_guarded _ Scroll me _ _ sB); [exact HmB|exact Hg]. }
    erewrite bind_getScroller by exact HmB.
    replace (bufferedScrollEnd sB) with (Some q) by (symmetry; exact Hq).
    unfold callBuffered. eexists. split; [reflexivity|]. simpl.
    split; [now rewrite insert_insert_eq|].
    split; [|reflexivity].
    now rewrite <- app_assoc.
Qed.

(** X11. Synchronisation goes one step and no further.  When [A] is
    scrolled, its partner [B] is marked as reflecting; the scroll event
    that then comes from the element of [B] fires the events of [B] but
    calls no partner of [B] and changes no scroller but [B]: a partner of
    [B] that is no partner of [A] does not follow [A]. *)
Theorem reflected_scroll_is_not_passed_on
    (w : World) (A B : string) (a b : Scroller) (p : Pos) (qa qb : Z) :
  heap w !! A = Some a → heap w !! B = Some b →
  linked w a (partners a) → maySync a = true →
  B ∈ partnerIds (partners a) →
  restoring a = false → bufferedScrollEnd a = Some qa →
  scrollListener a = true →
  restoring b = false → bufferedScrollEnd b = Some qb →
  scrollListener b = true →
  ∃ w1 w2 b1,
    userScroll A p w = Some (tt, w1)
    ∧ heap w1 !! B = Some b1
    ∧ isReflecting b1 = true
    ∧ dispatchScroll B w1 = Some (tt, w2)
    ∧ calls (trace w2) = calls (trace w1)
    ∧ globalNames B (trace w2)
      = globalNames B (trace w1)
        ++ (if isScrolling b1 then [] else [ScrollStart]) ++ [Scroll]
    ∧ (∀ id, id ≠ B → heap w2 !! id = heap w1 !! id).
Proof.
  intros HA HB Hl Hg Hin Hra Hqa Hlsa Hrb Hqb Hlsb.
  destruct (userScroll_run w A a qa p HA Hl Hra Hqa Hlsa)
    as (w1 & a1 & evs & Hrun1 & _ & _ & _ & _ & _ & _ & _ & _ & _ & _ & _
        & Hfl).
  pose proof (userScroll_keepsCore w A a qa p w1 HA Hl Hra Hqa Hlsa Hrun1)
    as Hk.
  destruct (Hk B b HB) as (b1 & HB1 & Hco).
  destruct (core_fields _ _ Hco)
    as (_ & _ & _ & _ & Hrs1 & Hq1 & Hls1 & _).
  pose proof (Hfl B b1 Hg Hin HB1) as Hrefl.
  destruct (onDomScroll_guarded w1 B b1 qb HB1 (maySync_reflecting _ Hrefl)
              ltac:(congruence) ltac:(congruence))
    as (w2 & Hrun2 & Hh2 & Htr2 & _).
  exists w1, w2, b1. split; [exact Hrun1|]. split; [exact HB1|].
  split; [exact Hrefl|]. split.
  { unfold dispatchScroll. erewrite bind_getScroller by exact HB1.
    replace (scrollListener b1) with true by congruence. exact Hrun2. }
  split.
  { rewrite Htr2. destruct (isScrolling b1); read_trace;
      now rewrite ?app_nil_r. }
  split.
  { rewrite Htr2. destruct (isScrolling b1); read_trace; reflexivity. }
  intros id Hne. rewrite Hh2. now rewrite lookup_insert_ne.
Qed.

Lemma reflected_scroll_is_not_passed_on_witness :
  ∃ w1 w2 b2 c2,
    userScroll "A" (mkPos 50 60) chainWorld = Some (tt, w1)
    ∧ dispatchScroll "B" w1 = Some (tt, w2)
    ∧ heap w2 !! "B" = Some b2 ∧ position b2 = mkPos 50 60
    ∧ heap w2 !! "C" = Some c2 ∧ position c2 = mkPos 30 40
    ∧ callsTo "C" (trace w2) = [].
Proof.
  destruct (reflected_scroll_is_not_passed_on chainWorld "A" "B" _ _
              (mkPos 50 60) 100 100 eq_refl eq_refl)
    as (w1 & w2 & b1 & Hrun1 & _ & _ & Hrun2 & _);
    try reflexivity.
  { repeat constructor; simpl; eexists; reflexivity. }
  { simpl. now left. }
  pose proof Hrun1 as E1. vm_compute in E1. injection E1 as E1.
  pose proof Hrun2 as E2. rewrite <- E1 in E2. vm_compute in E2.
  injection E2 as E2.
  exists w1, w2. eexists _, _. split; [exact Hrun1|]. split; [exact Hrun2|].
  rewrite <- E2. split; [reflexivity|]. split; [reflexivity|].
  split; [reflexivity|]. split; reflexivity.
Defined.

(** ** The direction and the axis configs *)

(** X12. The four direction names and the axes they stand for go back and
    forth: the axes [updateDirection] sets for a name are read back, by
    the branch for a missing direction, as that name. *)
Theorem direction_names_round_trip
    (name : string) (direction x0 y0 : Cfg) :
  name ∈ ["auto"; "vertical"; "horizontal"; "both"] →
  truthyCfg direction = false →
  ∃ x y,
    updateDirection (CStr name) x0 y0 = SetAxes x y
    ∧ updateDirection direction x y = StoreDirection (CStr name).
Proof.
  intros Hname Hd. unfold updateDirection at 2. rewrite Hd.
  repeat (apply elem_of_cons in Hname as [->|Hname]);
    [| | | |now apply elem_of_nil in Hname];
    eexists _, _; (split; [reflexivity|reflexivity]).
Qed.

Lemma direction_names_round_trip_witness :
  updateDirection (CStr "vertical") (CStr "scroll") (CBool false)
  = SetAxes (CBool false) (CBool true)
  ∧ updateDirection CUndefined (CBool false) (CBool true)
    = StoreDirection (CStr "vertical").
Proof.
  destruct (direction_names_round_trip "vertical" CUndefined (CStr "scroll")
              (CBool false)) as (x & y & H1 & H2).
  { apply elem_of_cons. right. apply elem_of_cons. now left. }
  { reflexivity. }
  split; [reflexivity|].
  injection H1 as <- <-. exact H2.
Defined.

(** X13. The direction derived from the axes enables the axes that were
    enabled.  When no direction is configured and at least one axis is
    on, the direction [updateDirection] stores is a name that, applied,
    sets an enabled [x] exactly if [x] was enabled, and likewise [y].
    When both axes are off, the direction stays as it was passed. *)
Theorem derived_direction_keeps_axes (direction x y x0 y0 : Cfg) :
  truthyCfg direction = false →
  (truthyCfg x || truthyCfg y = true →
   ∃ d x' y',
     updateDirection direction x y = StoreDirection d
     ∧ updateDirection d x0 y0 = SetAxes x' y'
     ∧ truthyCfg x' = truthyCfg x
     ∧ truthyCfg y' = truthyCfg y)
  ∧ (truthyCfg x || truthyCfg y = false →
     updateDirection direction x y = StoreDirection direction).
Proof.
  intros Hd. unfold updateDirection at 1 3. rewrite Hd. cbn [negb].
  destruct (truthyCfg x) eqn:Hx, (truthyCfg y) eqn:Hy; cbn [andb orb];
    (split; [intros Hyes|intros Hno; try discriminate; reflexivity]).
  - destruct (isStr y "scroll" && isStr x "scroll");
      eexists _, _, _; repeat split.
  - eexists _, _, _; repeat split.
  - eexists _, _, _; repeat split.
  - discriminate Hyes.
Qed.

Lemma derived_direction_keeps_axes_witness :
  ∃ d, updateDirection CUndefined (CStr "scroll") (CStr "auto")
       = StoreDirection d
       ∧ updateDirection d CUndefined CUndefined
         = SetAxes (CBool true) (CBool true).
Proof.
  destruct (derived_direction_keeps_axes CUndefined (CStr "scroll")
              (CStr "auto") CUndefined CUndefined eq_refl) as [H _].
  destruct (H eq_refl) as (d & x' & y' & H1 & H2 & _).
  exists d. split; [exact H1|].
  vm_compute in H1. injection H1 as <-. reflexivity.
Defined.

(** ** The space the scrollbars take *)


(** ** Whether a descendant is in view *)

(** X15. [isInView] reports the overlap of the element with the
    scroller's element, axis by axis.  An element that the scroller's
    element does not contain and its component does not own is out of view
    on both axes wherever it is.  For one that is contained or owned, and
    regions that are not empty, it is in view on an axis exactly when the
    two extents overlap in more than a point on that axis; extents that
    only touch do not count. *)
Theorem isInView_is_overlap
    (el myEl : Region.t) (contains : bool) (owns : option bool) :
  (contains = false → default false owns = false →
   isInView (Some el) contains owns myEl = (false, false))
  ∧ (contains = true ∨ owns = Some true →
     Region.left el < Region.right el →
     Region.left myEl < Region.right myEl →
     Region.top el < Region.bottom el →
     Region.top myEl < Region.bottom myEl →
     ((isInView (Some el) contains owns myEl).1 = true
      ↔ Z.max (Region.left el) (Region.left myEl)
        < Z.min (Region.right el) (Region.right myEl))
     ∧ ((isInView (Some el) contains owns myEl).2 = true
        ↔ Z.max (Region.top el) (Region.top myEl)
          < Z.min (Region.bottom el) (Region.bottom myEl))).
Proof.
  unfold isInView, doIsInView. split.
  - intros -> ->. reflexivity.
  - intros Hin Hx Hmx Hy Hmy.
    assert (false || (contains || default false owns) = true) as ->.
    { destruct Hin as [-> | ->]; [reflexivity|]. simpl. apply orb_true_r. }
    cbn [fst snd]. rewrite !andb_true_iff.
    rewrite !Z.gtb_lt, !Z.ltb_lt. lia.
Qed.

Lemma isInView_is_overlap_witness :
  isInView (Some (Region.mk 0 90 20 110)) true None (Region.mk 0 0 100 100)
  = (true, true)
  ∧ isInView (Some (Region.mk 0 100 20 120)) true None (Region.mk 0 0 100 100)
    = (false, true).
Proof.
  destruct (isInView_is_overlap (Region.mk 0 90 20 110) (Region.mk 0 0 100 100)
              true None) as [_ H1].
  destruct (H1 (or_introl eq_refl)) as [Hx1 Hy1]; simpl; try lia.
  split; [|reflexivity].
  apply injective_projections.
  - apply Hx1. simpl. lia.
  - apply Hy1. simpl. lia.
Defined.

(** ** The greatest scroll range the browser supports *)

Lemma searchLimit_bounds fuel measure :
  ∀ tooLow tooHigh,
    tooLow < tooHigh → tooHigh - tooLow ≤ 2 ^ Z.of_nat fuel →
    ∃ r, searchLimit fuel measure tooLow tooHigh = Some r
         ∧ tooLow ≤ r < tooHigh.
Proof.
  induction fuel as [|fuel IH]; intros lo hi Hlt Hgap; cbn [searchLimit].
  - simpl in Hgap. rewrite decide_True by lia. exists lo. split; [reflexivity|lia].
  - destruct (decide (hi = lo + 1)) as [->|Hne].
    { exists lo. split; [reflexivity|lia]. }
    rewrite Nat2Z.inj_succ, Z.pow_succ_r in Hgap by lia.
    pose proof (Z.div_mod (hi - lo) 2 ltac:(lia)) as Hdm.
    pose proof (Z.mod_pos_bound (hi - lo) 2 ltac:(lia)) as Hmod.
    set (q := (hi - lo) / 2) in *.
    destruct (measure (lo + q) <? lo + q).
    + destruct (IH lo (lo + q) ltac:(lia) ltac:(lia)) as (r & Hr & Hb).
      exists r. split; [exact Hr|lia].
    + destruct (IH (lo + q) hi ltac:(lia) ltac:(lia)) as (r & Hr & Hb).
      exists r. split; [exact Hr|lia].
Qed.

Lemma searchLimit_threshold fuel measure limit :
  ∀ tooLow tooHigh,
    tooLow ≤ limit < tooHigh → tooHigh - tooLow ≤ 2 ^ Z.of_nat fuel →
    (∀ v, tooLow < v < tooHigh → (measure v < v ↔ limit < v)) →
    searchLimit fuel measure tooLow tooHigh = Some limit.
Proof.
  induction fuel as [|fuel IH]; intros lo hi Hin Hgap Hth; cbn [searchLimit].
  - simpl in Hgap. rewrite decide_True by lia. f_equal. lia.
  - destruct (decide (hi = lo + 1)) as [->|Hne].
    { f_equal. lia. }
    rewrite Nat2Z.inj_succ, Z.pow_succ_r in Hgap by lia.
    pose proof (Z.div_mod (hi - lo) 2 ltac:(lia)) as Hdm.
    pose proof (Z.mod_pos_bound (hi - lo) 2 ltac:(lia)) as Hmod.
    set (q := (hi - lo) / 2) in *.
    pose proof (Hth (lo + q) ltac:(lia)) as Hq.
    destruct (measure (lo + q) <? lo + q) eqn:Hm.
    + apply Z.ltb_lt in Hm. apply Hq in Hm.
      apply IH; [lia|lia|]. intros v Hv. apply Hth. lia.
    + apply Z.ltb_ge in Hm.
      assert (¬ limit < lo + q) as Hnot by (intros Hl; apply Hq in Hl; lia).
      apply IH; [lia|lia|]. intros v Hv. apply Hth. lia.
Qed.

Lemma pow2_fuel fuel : (32 ≤ fuel)%nat → 2 ^ 32 ≤ 2 ^ Z.of_nat fuel.
Proof. intros H. apply Z.pow_le_mono_r; lia. Qed.

Lemma measureLimits_bounds fuel layout :
  (32 ≤ fuel)%nat →
  ∃ translate margin,
    measureLimits fuel layout = Some (translate, margin)
    ∧ 500 ≤ translate < 2 ^ 32
    ∧ 0 ≤ margin < translate.
Proof.
  intros Hfuel. pose proof (pow2_fuel fuel Hfuel) as Hpow.
  unfold measureLimits.
  destruct (searchLimit_bounds fuel (λ v, layout v None) 500 (2 ^ 32))
    as (t & -> & Ht); [lia|lia|].
  destruct (searchLimit_bounds fuel (λ v, layout t (Some v)) t (t * 2))
    as (m & -> & Hm); [lia|lia|].
  exists t, (m - t). split; [reflexivity|]. lia.
Qed.

(** X16. Asked for a range of a million pixels or more for the first
    time, [constrainScrollRange] measures the browser, and the measurement
    ends, whatever the browser answers: each of the two searches takes at
    most 32 rounds.  The translation limit it stores lies between 500 and
    2^32, the margin limit is not negative and below the translation
    limit, and the range returned is the smaller of the range asked for
    and the translation limit. *)
Theorem constrainScrollRange_measures
    (fuel : nat) (layout : Z → option Z → Z) (scrollRange : Z)
    (limits : Limits) :
  (32 ≤ fuel)%nat → 1000000 ≤ scrollRange →
  maxSpacerTranslate limits = None ∨ maxSpacerTranslate limits = Some 0 →
  ∃ translate margin,
    constrainScrollRange fuel layout scrollRange limits
    = Some (Z.min scrollRange translate,
            mkLimits (Some translate) (Some margin))
    ∧ 500 ≤ translate < 2 ^ 32
    ∧ 0 ≤ margin < translate.
Proof.
  intros Hfuel Hbig Hnone.
  destruct (measureLimits_bounds fuel layout Hfuel)
    as (t & m & Hrun & Ht & Hm).
  exists t, m. split; [|split; assumption].
  unfold constrainScrollRange.
  assert ((scrollRange <? 1000000) = false) as -> by lia.
  rewrite Hrun. now destruct Hnone as [-> | ->].
Qed.

Lemma constrainScrollRange_measures_witness :
  ∃ translate margin,
    constrainScrollRange 32 webkitLayout 20000000 (mkLimits None None)
    = Some (Z.min 20000000 translate, mkLimits (Some translate) (Some margin))
    ∧ 500 ≤ translate < 2 ^ 32
    ∧ 0 ≤ margin < translate.
Proof.
  apply (constrainScrollRange_measures 32 webkitLayout 20000000
           (mkLimits None None)); [lia|lia|now left].
Defined.

(** X17. The two searches are binary searches that find the limits of the
    browser.  If a translation stretches the test element exactly up to
    some limit between 500 and 2^32, that limit becomes
    [maxSpacerTranslate]; and if on top of it a margin works exactly up to
    some bound below twice that limit, [maxSpacerMargin] becomes what that
    bound adds to the translation limit. *)
Theorem constrainScrollRange_finds_the_limits
    (fuel : nat) (layout : Z → option Z → Z) (scrollRange : Z)
    (limits : Limits) (translate most : Z) :
  (32 ≤ fuel)%nat → 1000000 ≤ scrollRange →
  maxSpacerTranslate limits = None ∨ maxSpacerTranslate limits = Some 0 →
  500 ≤ translate < 2 ^ 32 →
  (∀ v, 500 < v < 2 ^ 32 → (layout v None < v ↔ translate < v)) →
  translate ≤ most < translate * 2 →
  (∀ v, translate < v < translate * 2 →
        (layout translate (Some v) < v ↔ most < v)) →
  constrainScrollRange fuel layout scrollRange limits
  = Some (Z.min scrollRange translate,
          mkLimits (Some translate) (Some (most - translate))).
Proof.
  intros Hfuel Hbig Hnone Ht Hth Hm Hthm.
  pose proof (pow2_fuel fuel Hfuel) as Hpow.
  unfold constrainScrollRange, measureLimits.
  assert ((scrollRange <? 1000000) = false) as -> by lia.
  rewrite (searchLimit_threshold fuel (λ v, layout v None) translate
             500 (2 ^ 32)) by (try lia; exact Hth).
  rewrite (searchLimit_threshold fuel (λ v, layout translate (Some v)) most
             translate (translate * 2)) by (try lia; exact Hthm).
  now destruct Hnone as [-> | ->].
Qed.

Lemma constrainScrollRange_finds_the_limits_witness :
  constrainScrollRange 32 webkitLayout 40000000 (mkLimits None None)
  = Some (16777216, mkLimits (Some 16777216) (Some 16777215)).
Proof.
  apply (constrainScrollRange_finds_the_limits 32 webkitLayout 40000000
           (mkLimits None None) 16777216 33554431);
    try lia; [now left| |].
  - intros v Hv. unfold webkitLayout.
    destruct (v <=? 16777216) eqn:E; simpl; lia.
  - intros v Hv. unfold webkitLayout. simpl. lia.
Defined.

(** X18. What [constrainScrollRange] returns is settled: it is at most the
    range asked for, and asking again for the range it returned gives that
    range back and leaves the limits as they are, whatever the browser
    would answer by then, for nothing is measured a second time. *)
Theorem constrainScrollRange_settles
    (fuel fuel' : nat) (layout layout' : Z → option Z → Z)
    (scrollRange range : Z) (limits limits' : Limits) :
  constrainScrollRange fuel layout scrollRange limits = Some (range, limits') →
  range ≤ scrollRange
  ∧ constrainScrollRange fuel' layout' range limits' = Some (range, limits').
Proof.
  unfold constrainScrollRange.
  destruct (scrollRange <? 1000000) eqn:Hsmall.
  - intros [= <- <-]. rewrite Hsmall. split; [lia|reflexivity].
  - assert (∀ t m,
              Some (Z.min scrollRange t, mkLimits (Some t) (Some m))
              = Some (range, limits') →
              range ≤ scrollRange
              ∧ (if range <? 1000000 then Some (range, limits')
                 else
                   match maxSpacerTranslate limits' with
                   | Some translate =>
                       if translate =? 0
                       then match measureLimits fuel' layout' with
                            | Some (translate, margin) =>
                                Some (Z.min range translate,
                                      mkLimits (Some translate) (Some margin))
                            | None => None
                            end
                       else Some (Z.min range translate, limits')
                   | None =>
                       match measureLimits fuel' layout' with
                       | Some (translate, margin) =>
                           Some (Z.min range translate,
                                 mkLimits (Some translate) (Some margin))
                       | None => None
                       end
                   end) = Some (range, limits')) as Hmeasured.
    { intros t m [= <- <-]. split; [lia|].
      destruct (Z.min scrollRange t <? 1000000) eqn:E; [reflexivity|].
      simpl. assert ((t =? 0) = false) as -> by lia.
      f_equal. f_equal. lia. }
    destruct (maxSpacerTranslate limits) as [t|] eqn:Hcached.
    + destruct (t =? 0) eqn:Ht.
      * destruct (measureLimits fuel layout) as [[t' m']|]; [|discriminate].
        apply Hmeasured.
      * intros [= <- <-]. split; [lia|].
        destruct (Z.min scrollRange t <? 1000000) eqn:E; [reflexivity|].
        rewrite Hcached, Ht. f_equal. f_equal. lia.
    + destruct (measureLimits fuel layout) as [[t' m']|]; [|discriminate].
      apply Hmeasured.
Qed.

Lemma constrainScrollRange_settles_witness :
  constrainScrollRange 0 (λ _ _, 0) 16777216
    (mkLimits (Some 16777216) (Some 16777215))
  = Some (16777216, mkLimits (Some 16777216) (Some 16777215)).
Proof.
  apply (constrainScrollRange_settles 32 0 webkitLayout (λ _ _, 0) 20000000
           16777216 (mkLimits None None)).
  vm_compute. reflexivity.
Defined.

(** ** Catching up with the partners *)




(** ** The global scrolling flag *)



(** ** Nested suspensions *)

Lemma suspends_run me n :
  ∀ w s,
    heap w !! me = Some s →
    ∃ w' s',
      forEach (replicate n tt) (λ _, suspendPartnerSync me) w = Some (tt, w')
      ∧ heap w' = <[me := s']> (heap w)
      ∧ default 0 (suspendSync s') = default 0 (suspendSync s) + Z.of_nat n
      ∧ set_suspendSync None s' = set_suspendSync None s
      ∧ trace w' = trace w ∧ timers w' = timers w.
Proof.
  induction n as [|n IH]; intros w s Hm.
  - exists w, s. split; [reflexivity|]. split; [now rewrite insert_id|].
    split; [simpl; lia|]. repeat split.
  - set (s1 := set_suspendSync (Some (default 0 (suspendSync s) + 1)) s).
    destruct (IH (with_heap (<[me := s1]> (heap w)) w) s1)
      as (w' & s' & Hrun & Hh & Hc & Hrest & Htr & Ht);
      [apply lookup_insert_eq|].
    exists w', s'. split.
    { cbn [replicate forEach]. unfold suspendPartnerSync at 1.
      erewrite bind_update by exact Hm. exact Hrun. }
    split; [rewrite Hh; simpl; now rewrite insert_insert_eq|].
    split; [rewrite Hc; simpl; lia|].
    split; [rewrite Hrest; reflexivity|].
    split; assumption.
Qed.

Lemma resumes_quiet me n :
  ∀ w s,
    heap w !! me = Some s →
    Z.of_nat n < default 0 (suspendSync s) →
    ∃ w' s',
      forEach (replicate n tt) (λ _, resumePartnerSync me true) w
      = Some (tt, w')
      ∧ heap w' = <[me := s']> (heap w)
      ∧ default 0 (suspendSync s') = default 0 (suspendSync s) - Z.of_nat n
      ∧ set_suspendSync None s' = set_suspendSync None s
      ∧ trace w' = trace w ∧ timers w' = timers w.
Proof.
  induction n as [|n IH]; intros w s Hm Hc.
  - exists w, s. split; [reflexivity|]. split; [now rewrite insert_id|].
    split; [simpl; lia|]. repeat split.
  - assert (truthyCount (suspendSync s) = true) as Htruthy.
    { rewrite truthyCount_default. apply negb_true_iff, Z.eqb_neq. lia. }
    set (s1 := set_suspendSync (Some (default 0 (suspendSync s) - 1)) s).
    pose proof (resumePartnerSync_quiet w me s true Hm) as Hstep.
    simpl in Hstep. rewrite Htruthy in Hstep. fold s1 in Hstep.
    specialize (Hstep ltac:(left; simpl; apply negb_true_iff, Z.eqb_neq; lia)).
    destruct (IH (with_heap (<[me := s1]> (heap w)) w) s1)
      as (w' & s' & Hrun & Hh & Hc' & Hrest & Htr & Ht);
      [apply lookup_insert_eq|simpl; lia|].
    exists w', s'. split.
    { cbn [replicate forEach]. now rewrite (bind_Some _ _ _ _ _ Hstep). }
    split; [rewrite Hh; simpl; now rewrite insert_insert_eq|].
    split; [rewrite Hc'; simpl; lia|].
    split; [rewrite Hrest; reflexivity|].
    split; assumption.
Qed.

(** X21. Suspensions nest.  After [n + 1] calls of [suspendPartnerSync]
    on a scroller that was not suspended, the first [n] calls of
    [resumePartnerSync(true)] send nothing to the partners and leave the
    scroller suspended; the last one brings the count back to zero and
    sends the position, once as a scroll and once as a scroll end, to
    every partner. *)
Theorem suspensions_nest
    (n : nat) (w : World) (me : string) (s : Scroller) :
  heap w !! me = Some s →
  default 0 (suspendSync s) = 0 → isReflecting s = false →
  linked w s (partners s) → me ∉ partnerIds (partners s) →
  ∃ w1 w2 s1 s2,
    (forEach (replicate (S n) tt) (λ _, suspendPartnerSync me) >>
     forEach (replicate n tt) (λ _, resumePartnerSync me true)) w
    = Some (tt, w1)
    ∧ trace w1 = trace w
    ∧ heap w1 !! me = Some s1 ∧ suspendSync s1 = Some 1
    ∧ resumePartnerSync me true w1 = Some (tt, w2)
    ∧ heap w2 !! me = Some s2 ∧ suspendSync s2 = Some 0
    ∧ trace w2
      = trace w
        ++ partnerCalls me OnPartnerScroll
             (px (position s)) (py (position s)) (partners s)
        ++ partnerCalls me OnPartnerScrollEnd
             (px (position s)) (py (position s)) (partners s).
Proof.
  intros Hm Hc Hr Hl Hself.
  destruct (suspends_run me (S n) w s Hm)
    as (wa & sa & Hruna & Hha & Hca & Hresta & Htra & _).
  assert (heap wa !! me = Some sa) as Hma
    by (rewrite Hha; apply lookup_insert_eq).
  destruct (resumes_quiet me n wa sa Hma ltac:(lia))
    as (w1 & s1 & Hrun1 & Hh1 & Hc1 & Hrest1 & Htr1 & _).
  assert (heap w1 !! me = Some s1) as Hm1
    by (rewrite Hh1; apply lookup_insert_eq).
  assert (set_suspendSync None s1 = set_suspendSync None s) as Hrest
    by congruence.
  assert (position s1 = position s) as Hpos
    by exact (f_equal position Hrest).
  assert (_partners s1 = _partners s) as Hps
    by exact (f_equal _partners Hrest).
  assert (isReflecting s1 = false) as Hr1
    by (rewrite <- Hr; exact (f_equal isReflecting Hrest)).
  assert (partners s1 = partners s) as Hps'
    by (unfold partners; now rewrite Hps).
  assert (suspendSync s1 = Some 1) as Hs1.
  { destruct (suspendSync s1) as [c|] eqn:E; simpl in Hc1; [f_equal; lia|lia]. }
  assert (linked w1 s1 (partners s1)) as Hl1.
  { rewrite Hps'. unfold linked in *. eapply Forall_impl; [exact Hl|].
    simpl. intros e [[sp Hp] Hg]. split.
    - rewrite Hh1, Hha.
      destruct (decide (me = scroller e.2)) as [<-|Hne].
      + rewrite lookup_insert_eq. eexists; reflexivity.
      + rewrite !lookup_insert_ne by done. eexists; exact Hp.
    - unfold partners in *. rewrite Hps. exact Hg. }
  assert (me ∉ partnerIds (partners s1)) as Hself1
    by (rewrite Hps'; exact Hself).
  destruct (resumePartnerSync_sync w1 me s1 Hm1) as
    (w2 & sC & Hrun2 & Htr2 & _ & HsC & _ & _ & _ & Hme2);
    [rewrite Hs1; reflexivity|exact Hl1|].
  specialize (HsC (or_intror Hself1)). specialize (Hme2 Hself1).
  rewrite HsC in Htr2. clear HsC.
  set (s2 := set_suspendSync (Some 0) s1).
  assert ((if truthyCount (suspendSync s1)
           then set_suspendSync (Some (default 0 (suspendSync s1) - 1)) s1
           else s1) = s2) as Hs2 by (rewrite Hs1; reflexivity).
  rewrite Hs2 in Htr2, Hme2.
  assert (maySync s2 = true) as Hg2.
  { unfold maySync. simpl. now rewrite Hr1. }
  exists w1, w2, s1, s2.
  split; [now rewrite (bind_Some _ _ _ _ _ Hruna)|].
  split; [congruence|]. split; [exact Hm1|]. split; [exact Hs1|].
  split; [exact Hrun2|].
  split; [exact Hme2|]. split; [reflexivity|].
  rewrite Htr2, Htr1, Htra. unfold propagation. rewrite Hg2.
  rewrite Hpos. now replace (partners s2) with (partners s).
Qed.

Lemma suspensions_nest_witness :
  ∃ w1 w2,
    (forEach (replicate 3 tt) (λ _, suspendPartnerSync "A") >>
     forEach (replicate 2 tt) (λ _, resumePartnerSync "A" true)) pairWorld
    = Some (tt, w1)
    ∧ trace w1 = []
    ∧ resumePartnerSync "A" true w1 = Some (tt, w2)
    ∧ trace w2 = [PartnerCall "B" OnPartnerScroll "A" 30 40;
                  PartnerCall "B" OnPartnerScrollEnd "A" 30 40].
Proof.
  destruct (suspensions_nest 2 pairWorld "A" _ eq_refl)
    as (w1 & w2 & s1 & s2 & H1 & H2 & _ & _ & H3 & _ & _ & H4);
    try reflexivity.
  { repeat constructor; simpl; eexists; reflexivity. }
  { simpl. intros Hin. apply list_elem_of_singleton in Hin. discriminate. }
  exists w1, w2. repeat (split; [assumption|]). exact H4.
Defined.

(** ** The scrolling element of the document *)

(** X22. The feature test behind [getScrollingElement] is made at most
    once: whatever a call returns, every later call returns the same
    element and leaves the cache as it is, whatever the test would find by
    then.  Where the browser has [document.scrollingElement], that is
    returned and nothing is tested or cached. *)
Theorem getScrollingElement_tests_once {Node : Type}
    (scrollingElement : option Node) (documentElement body : Node)
    (probe probe' : bool) (standard : option bool) :
  let first :=
    getScrollingElement scrollingElement documentElement body probe standard in
  getScrollingElement scrollingElement documentElement body probe' first.2
  = first
  ∧ (∀ el, scrollingElement = Some el → first = (el, standard))
  ∧ (scrollingElement = None → standard = None →
     first = (if probe then documentElement else body, Some probe)).
Proof.
  unfold getScrollingElement. destruct scrollingElement as [el|]; simpl.
  - split; [reflexivity|]. split; [now intros ? [= <-]|discriminate].
  - split; [reflexivity|]. split; [discriminate|]. now intros _ ->.
Qed.

(** ** The position follows the element *)

(** X23. After a scroll event the position of the scroller is where its
    element is, and [getPosition] returns it: this holds with partners or
    without, for a scroller that is not its own partner, and also while
    the scroller is restoring, when the event is otherwise ignored. *)
Theorem position_follows_element
    (w : World) (me : string) (s : Scroller) (el : Surface) (p : Pos) (q : Z) :
  heap w !! me = Some s → linked w s (partners s) →
  me ∉ partnerIds (partners s) →
  scrollElement s = Some el → surfaceDestroyed el = false →
  scrollListener s = true → bufferedScrollEnd s = Some q →
  ∃ w' s',
    userScroll me p w = Some (tt, w')
    ∧ heap w' !! me = Some s'
    ∧ position s' = p
    ∧ scrollElement s' = Some (mkSurface (px p) (py p) false)
    ∧ positionDirty s' = false
    ∧ getPosition me w' = Some (p, w').
Proof.
  intros Hm Hl Hself Hel Hd Hls Hq.
  set (s0 := set_scrollElement
               ((λ el, mkSurface (px p) (py p) (surfaceDestroyed el))
                  <$> scrollElement s) s).
  set (w0 := with_heap (<[me := s0]> (heap w)) w).
  assert (heap w0 !! me = Some s0) as Hm0 by apply lookup_insert_eq.
  assert (scrollElement s0 = Some (mkSurface (px p) (py p) false)) as Hel0.
  { subst s0. simpl. rewrite Hel. simpl. now rewrite Hd. }
  assert (domPosition s0 = p) as Hdp.
  { unfold domPosition. rewrite Hel0. simpl. now destruct p. }
  assert (userScroll me p w = onDomScroll me w0) as Hstep.
  { unfold userScroll. erewrite bind_update by exact Hm. fold s0 w0.
    unfold dispatchScroll. erewrite bind_getScroller by exact Hm0.
    now replace (scrollListener s0) with true by (symmetry; exact Hls). }
  rewrite Hstep.
  destruct (restoring s) eqn:Hr.
  - rewrite (onDomScroll_restoring w0 me s0 Hm0 Hr). rewrite Hdp.
    eexists _, _. split; [reflexivity|].
    split; [simpl; apply lookup_insert_eq|].
    split; [reflexivity|]. split; [exact Hel0|]. split; [reflexivity|].
    unfold getPosition. erewrite bind_getScroller
      by (simpl; apply lookup_insert_eq). reflexivity.
  - assert (linked w0 s0 (partners s0)) as Hl0.
    { apply (linked_insert w me s); [exact Hm|exact Hl]. }
    destruct (onDomScroll_run w0 me s0 q Hm0 Hl0 Hr Hq)
      as (w' & sC & sD & Hrun & _ & _ & _ & HD & _ & _ & HsD & _).
    specialize (HsD (or_intror Hself)). rewrite Hdp in HsD.
    exists w', sD. split; [exact Hrun|]. split; [exact HD|].
    subst sD. split; [reflexivity|]. split; [exact Hel0|].
    split; [reflexivity|].
    unfold getPosition. erewrite bind_getScroller by exact HD. reflexivity.
Qed.

Lemma position_follows_element_witness :
  ∃ w' s',
    userScroll "A" (mkPos 50 60) pairWorld = Some (tt, w')
    ∧ heap w' !! "A" = Some s'
    ∧ position s' = mkPos 50 60
    ∧ getPosition "A" w' = Some (mkPos 50 60, w').
Proof.
  destruct (position_follows_element pairWorld "A" _ (mkSurface 30 40 false)
              (mkPos 50 60) 100 eq_refl)
    as (w' & s' & H1 & H2 & H3 & _ & _ & H4); try reflexivity.
  { repeat constructor; simpl; eexists; reflexivity. }
  { simpl. intros Hin. apply list_elem_of_singleton in Hin. discriminate. }
  exists w', s'. repeat split; assumption.
Defined.
